(** * Cosmic Ray: the local distributor and the operator catalogue

    A shallow embedding of

    - [cosmic_ray/distribution/local.py] (the sequential distributor),
    - [cosmic_ray/operators/no_op.py], [zero_iteration_for_loop.py] and
      [remove_decorator.py] (three mutation operators),
    - [cosmic_ray/operators/variable_inserter.py] and
      [variable_replacer.py] (the two operators on the causes of a
      variable),

    followed by the properties of the specification that concern them and
    by further properties of the code.
    The test executor behind [mutate_and_test] is not part of these files;
    where a property needs it, it is modelled from the specification
    (module [engine]).

    Python values are modelled as follows.  A [str] is a [string]; a
    Python [list] is a [list]; an index is a [Z] with Python's rule for
    negative indices written out; a call that can raise returns a
    [result], whose left summand is the exception.  The effects of the
    distributor (the awaited call of [mutate_and_test] and the call of
    the completion callback) are recorded in a trace of events. *)

From Stdlib Require Import ZArith Lia Ascii String.
From stdpp Require Import base list strings gmap pretty.

Local Open Scope string_scope.
Local Open Scope list_scope.
Local Open Scope Z_scope.

(* ===================================================================== *)
(** * Part I: the embedding *)
(* ===================================================================== *)

(** ** Python: exceptions and list operations *)

Module Py.

(** The exceptions that the modelled code can raise.  [Raised] stands for
    any exception coming out of a collaborator whose code is elsewhere. *)
Inductive exception : Type :=
| ValueError (msg : string)
| IndexError (msg : string)
| AttributeError (msg : string)
| AssertionError
| Raised (what : string).

(** The outcome of a call: [inl e] when it raised [e]. *)
Definition result (A : Type) : Type := exception + A.

Definition raise {A : Type} (e : exception) : result A := inl e.
Definition ok {A : Type} (a : A) : result A := inr a.

Definition rbind {A B : Type} (r : result A) (k : A -> result B) : result B :=
  match r with
  | inl e => inl e
  | inr a => k a
  end.

(** [l.index(x)]: the position of the first element equal to [x];
    [ValueError] when there is none (the message shows [x] the way Python
    prints a string that holds no quote and no escape). *)
Fixpoint list_index (x : string) (l : list string) : result Z :=
  match l with
  | [] => raise (ValueError ("'" +:+ x +:+ "' is not in list"))
  | y :: l' =>
      if decide (y = x) then ok 0
      else rbind (list_index x l') (fun i => ok (i + 1))
  end.

(** Python's index normalisation: a negative index counts from the end;
    [None] when the index is out of range. *)
Definition norm_index {A : Type} (l : list A) (i : Z) : option nat :=
  let n := Z.of_nat (length l) in
  let j := if i <? 0 then i + n else i in
  if (0 <=? j) && (j <? n) then Some (Z.to_nat j) else None.

(** [l[i]] *)
Definition getitem {A : Type} (l : list A) (i : Z) : result A :=
  match norm_index l i with
  | Some j =>
      match l !! j with
      | Some x => ok x
      | None => raise (IndexError "list index out of range")
      end
  | None => raise (IndexError "list index out of range")
  end.

(** [l[i] = x] *)
Definition setitem {A : Type} (l : list A) (i : Z) (x : A) : result (list A) :=
  match norm_index l i with
  | Some j => ok (<[j := x]> l)
  | None => raise (IndexError "list assignment index out of range")
  end.

(** [del l[i]] *)
Definition delitem {A : Type} (l : list A) (i : Z) : result (list A) :=
  match norm_index l i with
  | Some j => ok (delete j l)
  | None => raise (IndexError "list assignment index out of range")
  end.

End Py.

(** ** [shlex.split] of the Python standard library

    [shlex.split(s)] runs the [shlex] lexer in POSIX mode with
    [whitespace_split = True] and no comment characters, and collects the
    tokens until the lexer reports the end of the input.  The lexer is a
    state machine over the characters of [s]; its states are the values
    that [shlex.read_token] keeps in [self.state]. *)

Module shlex.

Import Py.

Inductive state : Type :=
| in_whitespace                (* state ' ' *)
| in_word                      (* state 'a' *)
| in_quotes (q : ascii)        (* state is the opening quote character *)
| in_escape (e : ascii).       (* state is the escape character *)

Definition double_quote : ascii := ascii_of_nat 34.
Definition single_quote : ascii := ascii_of_nat 39.
Definition backslash : ascii := ascii_of_nat 92.

(** [self.whitespace = ' \t\r\n'] *)
Definition is_whitespace (c : ascii) : bool :=
  match nat_of_ascii c with
  | 32%nat | 9%nat | 13%nat | 10%nat => true
  | _ => false
  end.

(** [self.quotes]: the single and the double quote. *)
Definition is_quote (c : ascii) : bool :=
  bool_decide (c = single_quote) || bool_decide (c = double_quote).

(** [self.escape = '\\'] *)
Definition is_escape (c : ascii) : bool := bool_decide (c = backslash).

(** [self.escapedquotes]: the double quote only. *)
Definition is_escapedquote (c : ascii) : bool := bool_decide (c = double_quote).

Definition snoc (token : string) (c : ascii) : string :=
  token +:+ String c EmptyString.

(** What [read_token] returns on [break]: the token, unless it is empty
    and no quote was seen, in which case the result is [None]. *)
Definition emitted (token : string) (quoted : bool) : list string :=
  if bool_decide (token = EmptyString) && negb quoted then [] else [token].

(** The lexer loop.  [st] is [self.state]; [token], [quoted] and
    [escapedstate] are the locals of [read_token], reset whenever a token
    is returned.  The end of the input in [in_quotes] or [in_escape] is the
    lexer's [ValueError]. *)
Fixpoint lex (st : state) (token : string) (quoted : bool)
    (escapedstate : state) (input : string) : result (list string) :=
  match input with
  | EmptyString =>
      match st with
      | in_whitespace | in_word => ok (emitted token quoted)
      | in_quotes _ => raise (ValueError "No closing quotation")
      | in_escape _ => raise (ValueError "No escaped character")
      end
  | String c rest =>
      match st with
      | in_whitespace =>
          if is_whitespace c then
            if negb (bool_decide (token = EmptyString)) || quoted then
              rbind (lex in_whitespace EmptyString false in_whitespace rest)
                    (fun toks => ok (token :: toks))
            else lex in_whitespace token quoted escapedstate rest
          else if is_escape c then
            lex (in_escape c) token quoted in_word rest
          else if is_quote c then
            lex (in_quotes c) token quoted escapedstate rest
          else
            lex in_word (String c EmptyString) quoted escapedstate rest
      | in_quotes q =>
          if bool_decide (c = q) then
            lex in_word token true escapedstate rest
          else if is_escape c && is_escapedquote q then
            lex (in_escape c) token true (in_quotes q) rest
          else
            lex (in_quotes q) (snoc token c) true escapedstate rest
      | in_escape e =>
          let token' :=
            match escapedstate with
            | in_quotes q =>
                if negb (bool_decide (c = e)) && negb (bool_decide (c = q))
                then snoc token e else token
            | _ => token
            end in
          lex escapedstate (snoc token' c) quoted escapedstate rest
      | in_word =>
          if is_whitespace c then
            if negb (bool_decide (token = EmptyString)) || quoted then
              rbind (lex in_whitespace EmptyString false in_whitespace rest)
                    (fun toks => ok (token :: toks))
            else lex in_whitespace token quoted escapedstate rest
          else if is_quote c then
            lex (in_quotes c) token quoted escapedstate rest
          else if is_escape c then
            lex (in_escape c) token quoted in_word rest
          else
            lex in_word (snoc token c) quoted escapedstate rest
      end
  end.

(** [shlex.split(s)] *)
Definition split (s : string) : result (list string) :=
  lex in_whitespace EmptyString false in_whitespace s.

(** A character that the lexer copies into the current word as it is:
    neither whitespace, nor a quote, nor the escape character. *)
Definition plain_char (c : ascii) : bool :=
  negb (is_whitespace c) && negb (is_quote c) && negb (is_escape c).

(** A text made of such characters only. *)
Fixpoint plain (s : string) : bool :=
  match s with
  | EmptyString => true
  | String c s' => plain_char c && plain s'
  end.

End shlex.

(** ** [cosmic_ray/distribution/local.py]: the local distributor *)

Module LocalDistributor.

Import Py.

Section Distributor.

(** The distributor never looks inside a mutation, the timeout, the
    distributor configuration or the result of a test run; they are
    passed along as they are. *)
Context {Mutation Timeout Config WorkResult : Type}.

(** A work item, with the two attributes that [_process] reads. *)
Record WorkItem : Type := { job_id : string; mutations : list Mutation }.

(** What a run does to the outside: it awaits [mutate_and_test] and it
    calls the completion callback.  An event records the call and its
    arguments. *)
Inductive event : Type :=
| mutate_and_test_called (muts : list Mutation) (test_command : string)
    (timeout : Timeout)
| on_task_complete_called (job : string) (res : WorkResult).

(** A computation that adds events to the trace and returns a value or
    raises. *)
Definition run (A : Type) : Type := (list event * result A)%type.

Definition ret {A : Type} (a : A) : run A := ([], ok a).

Definition bind {A B : Type} (m : run A) (k : A -> run B) : run B :=
  match m with
  | (tr, inl e) => (tr, inl e)
  | (tr, inr a) => let '(tr', r) := k a in (tr ++ tr', r)
  end.

Definition lift {A : Type} (r : result A) : run A := ([], r).

Definition emit (ev : event) : run unit := ([ev], ok tt).

Notation "'let*' x ':=' m 'in' k" := (bind m (fun x => k))
  (at level 10, x name, m at level 100, k at level 200, only parsing).

(** [cosmic_ray.mutating.mutate_and_test], imported by the module: it is
    awaited with the mutations, the command and the timeout, and either
    returns a result or raises. *)
Variable mutate_and_test :
  list Mutation -> string -> Timeout -> result WorkResult.

Definition await_mutate_and_test (muts : list Mutation)
    (test_command : string) (timeout : Timeout) : run WorkResult :=
  let* _ := emit (mutate_and_test_called muts test_command timeout) in
  lift (mutate_and_test muts test_command timeout).

Definition call (on_task_complete : string -> WorkResult -> result unit)
    (job : string) (res : WorkResult) : run unit :=
  let* _ := emit (on_task_complete_called job res) in
  lift (on_task_complete job res).

(** The text of [f" -o t{n_tests}/{work_item.job_id}.json"]. *)
Definition output_option (n_tests job : string) : string :=
  " -o t" +:+ n_tests +:+ "/" +:+ job +:+ ".json".

(** The body of the [for] loop of [_process], for one work item. *)
Definition loop_body (test_command : string) (timeout : Timeout)
    (on_task_complete : string -> WorkResult -> result unit)
    (work_item : WorkItem) : run unit :=
  let* test_command_split := lift (shlex.split test_command) in
  let* t_index := lift (list_index "-t" test_command_split) in
  let n_tests_index := t_index + 1 in
  let* n_tests := lift (getitem test_command_split n_tests_index) in
  let* res :=
    await_mutate_and_test (mutations work_item)
      (test_command +:+ output_option n_tests (job_id work_item)) timeout in
  call on_task_complete (job_id work_item) res.

(** [for x in l: body(x)] *)
Fixpoint for_each {A : Type} (body : A -> run unit) (l : list A) : run unit :=
  match l with
  | [] => ret tt
  | x :: l' => let* _ := body x in for_each body l'
  end.

(** [LocalDistributor._process] *)
Definition _process (pending_work : list WorkItem) (test_command : string)
    (timeout : Timeout) (_distributor_config : Config)
    (on_task_complete : string -> WorkResult -> result unit) : run unit :=
  for_each (loop_body test_command timeout on_task_complete) pending_work.

(** [LocalDistributor.__call__] runs [_process] to completion on the
    event loop. *)
Definition __call__ (pending_work : list WorkItem) (test_command : string)
    (timeout : Timeout) (_distributor_config : Config)
    (on_task_complete : string -> WorkResult -> result unit) : run unit :=
  _process pending_work test_command timeout _distributor_config
    on_task_complete.

(** *** Reading a trace *)

(** The calls of the callback, in the order they were made. *)
Definition callbacks (tr : list event) : list (string * WorkResult) :=
  omap (fun ev =>
          match ev with
          | on_task_complete_called job res => Some (job, res)
          | _ => None
          end) tr.

Definition completed_jobs (tr : list event) : list string :=
  fst <$> callbacks tr.

(** The commands handed to [mutate_and_test], in the order of the calls. *)
Definition dispatched (tr : list event) : list string :=
  omap (fun ev =>
          match ev with
          | mutate_and_test_called _ test_command _ => Some test_command
          | _ => None
          end) tr.

(** The token that [_process] reads after the first ['-t'] of the
    command: the three statements at the head of the loop body. *)
Definition n_tests_of (test_command : string) : result string :=
  rbind (shlex.split test_command) (fun test_command_split =>
  rbind (list_index "-t" test_command_split) (fun t_index =>
  getitem test_command_split (t_index + 1))).

(** The path that the added option names: the argument of [-o]. *)
Definition output_path (n_tests job : string) : string :=
  "t" +:+ n_tests +:+ "/" +:+ job +:+ ".json".

(** The command that the loop body hands to [mutate_and_test] for a work
    item, given the token read after ['-t']. *)
Definition command_for (test_command n_tests : string) (w : WorkItem)
    : string :=
  test_command +:+ output_option n_tests (job_id w).


(** Every work item of the list is handled without an exception: its test
    returns a result and the callback returns. *)
Definition all_return (test_command : string) (timeout : Timeout)
    (on_task_complete : string -> WorkResult -> result unit)
    (n_tests : string) (ws : list WorkItem) : Prop :=
  forall w, w ∈ ws ->
    exists r,
      mutate_and_test (mutations w) (command_for test_command n_tests w)
        timeout = inr r
      /\ on_task_complete (job_id w) r = inr tt.

(** The runs of a distributor that handles the work items one at a time,
    in the order of the list: [sequential test_command timeout
    on_task_complete ws tr out] says that handling the work items [ws]
    leaves the trace [tr] and ends with [out].  For
    each item the test is awaited, then the callback is called with its
    result, and only then the next item is started; the run stops at the
    first step that raises. *)
Inductive sequential (test_command : string) (timeout : Timeout)
    (on_task_complete : string -> WorkResult -> result unit)
  : list WorkItem -> list event -> result unit -> Prop :=
| seq_end :
    sequential test_command timeout on_task_complete [] [] (ok tt)
| seq_malformed w ws e :
    n_tests_of test_command = inl e ->
    sequential test_command timeout on_task_complete (w :: ws) [] (inl e)
| seq_test_raised w ws n e :
    n_tests_of test_command = inr n ->
    mutate_and_test (mutations w) (command_for test_command n w) timeout
      = inl e ->
    sequential test_command timeout on_task_complete (w :: ws)
      [mutate_and_test_called (mutations w) (command_for test_command n w)
         timeout]
      (inl e)
| seq_callback_raised w ws n r e :
    n_tests_of test_command = inr n ->
    mutate_and_test (mutations w) (command_for test_command n w) timeout
      = inr r ->
    on_task_complete (job_id w) r = inl e ->
    sequential test_command timeout on_task_complete (w :: ws)
      [mutate_and_test_called (mutations w) (command_for test_command n w)
         timeout;
       on_task_complete_called (job_id w) r]
      (inl e)
| seq_next w ws n r tr out :
    n_tests_of test_command = inr n ->
    mutate_and_test (mutations w) (command_for test_command n w) timeout
      = inr r ->
    on_task_complete (job_id w) r = inr tt ->
    sequential test_command timeout on_task_complete ws tr out ->
    sequential test_command timeout on_task_complete (w :: ws)
      (mutate_and_test_called (mutations w) (command_for test_command n w)
         timeout
       :: on_task_complete_called (job_id w) r :: tr)
      out.

End Distributor.

Arguments WorkItem : clear implicits.
Arguments event : clear implicits.
Arguments run : clear implicits.

End LocalDistributor.

(** ** The parse tree of [parso]

    The operators of [cosmic_ray/operators] work on the tree that [parso]
    builds: a leaf carries its text, the whitespace before it and its
    position; an inner node carries its class and its children. *)

Module parso.

Import Py.

(** A position: line and column. *)
Definition position : Type := (Z * Z)%type.

(** The classes of inner nodes that the operators tell apart. *)
Inductive node_class : Type :=
| Module
| ForStmt
| IfStmt
| ExprStmt
| PythonNode (type : string).

#[warnings="-register-all"]
Inductive node : Type :=
| Leaf (type value prefix : string) (start_pos end_pos : position)
| BaseNode (cls : node_class) (children : list node).

(** [isinstance(node, ForStmt)] *)
Definition is_ForStmt (n : node) : bool :=
  match n with
  | BaseNode ForStmt _ => true
  | _ => false
  end.

(** [node.children]; a leaf has no such attribute. *)
Definition children (n : node) : result (list node) :=
  match n with
  | BaseNode _ cs => ok cs
  | Leaf _ _ _ _ _ => raise (AttributeError "children")
  end.

(** [node.start_pos]: of a leaf, its own; of an inner node, that of its
    first child. *)
Fixpoint start_pos (n : node) : result position :=
  match n with
  | Leaf _ _ _ p _ => ok p
  | BaseNode _ cs =>
      match cs with
      | c :: _ => start_pos c
      | [] => raise (IndexError "list index out of range")
      end
  end.

(** [node.end_pos]: of a leaf, where its text ends; of an inner node,
    that of its last child. *)
Fixpoint end_pos (n : node) : result position :=
  match n with
  | Leaf _ _ _ _ p => ok p
  | BaseNode _ cs =>
      (fix last_end (cs : list node) : result position :=
         match cs with
         | [] => raise (IndexError "list index out of range")
         | [c] => end_pos c
         | _ :: cs' => last_end cs'
         end) cs
  end.

(** The pair [(node.start_pos, node.end_pos)]. *)
Definition span (n : node) : result (position * position) :=
  rbind (start_pos n) (fun s => rbind (end_pos n) (fun e => ok (s, e))).

(** [node.get_code()]: the text of the leaves with the whitespace before
    each of them. *)
Fixpoint get_code (n : node) : string :=
  match n with
  | Leaf _ value prefix _ _ => prefix +:+ value
  | BaseNode _ cs =>
      (fix codes (cs : list node) : string :=
         match cs with
         | [] => EmptyString
         | c :: cs' => get_code c +:+ codes cs'
         end) cs
  end.

(** [node.type] *)
Definition node_type (n : node) : string :=
  match n with
  | Leaf type _ _ _ _ => type
  | BaseNode Module _ => "file_input"
  | BaseNode ForStmt _ => "for_stmt"
  | BaseNode IfStmt _ => "if_stmt"
  | BaseNode ExprStmt _ => "expr_stmt"
  | BaseNode (PythonNode type) _ => type
  end.

(** [ExprStmt.get_rhs()] of [parso] 0.8: the last child of the statement
    or, when that is an annotation, the value that the annotation assigns
    (its fourth child) or, when it assigns none, its second child. *)
Definition get_rhs (expr_stmt : node) : result node :=
  rbind (children expr_stmt) (fun cs =>
  rbind (getitem cs (-1)) (fun n =>
  if bool_decide (node_type n = "annassign") then
    rbind (children n) (fun acs =>
    if bool_decide (length acs = 4%nat) then getitem acs 3
    else getitem acs 1)
  else ok n)).

(** The value of [parso.parse(" []")]: a module that holds an empty
    error leaf (the tokenizer reads the leading blank as an indentation),
    the atom [[]], written after one space, and the end marker. *)
Definition parse_empty_list : node :=
  BaseNode Module
    [ Leaf "error_leaf" EmptyString EmptyString (1, 1) (1, 1);
      BaseNode (PythonNode "atom")
        [ Leaf "operator" "[" " " (1, 1) (1, 2);
          Leaf "operator" "]" EmptyString (1, 2) (1, 3) ];
      Leaf "endmarker" EmptyString EmptyString (1, 3) (1, 3) ].

End parso.

(** ** The operators *)

(** What the engine asks of an operator: the sites of a node that it can
    mutate, the mutation of a node, and examples for its own test.
    [mutation_positions] is a generator; its model is the outcome of
    running it to the end, the list of the sites it yields. *)
Class Operator (Node : Type) : Type := {
  op_mutation_positions :
    Node -> Py.result (list (parso.position * parso.position));
  op_mutate : Node -> Z -> Py.result Node;
  op_examples : list (string * string)
}.

(** *** [cosmic_ray/operators/no_op.py] *)

Module NoOp.

Import Py parso.

Definition mutation_positions (node : parso.node)
    : result (list (position * position)) :=
  rbind (start_pos node) (fun s =>
  rbind (end_pos node) (fun e =>
  ok [(s, e)])).

Definition mutate (node : parso.node) (index : Z) : result parso.node :=
  ok node.

Definition examples : list (string * string) :=
  [ ("@foo" +:+ String (ascii_of_nat 10) "def bar(): pass",
     "@foo" +:+ String (ascii_of_nat 10) "def bar(): pass");
    ("def bar(): pass", "def bar(): pass");
    ("1 + 1", "1 + 1") ].

#[global] Instance operator : Operator parso.node := {
  op_mutation_positions := mutation_positions;
  op_mutate := mutate;
  op_examples := examples
}.

End NoOp.

(** *** [cosmic_ray/operators/zero_iteration_for_loop.py] *)

Module ZeroIterationForLoop.

Import Py parso.

Definition mutation_positions (node : parso.node)
    : result (list (position * position)) :=
  if is_ForStmt node then
    rbind (children node) (fun cs =>
    rbind (getitem cs 3) (fun expr =>
    rbind (start_pos expr) (fun s =>
    rbind (end_pos expr) (fun e =>
    ok [(s, e)]))))
  else ok [].

Definition mutate (node : parso.node) (index : Z) : result parso.node :=
  if negb (index =? 0) then raise AssertionError
  else if negb (is_ForStmt node) then raise AssertionError
  else
    let empty_list := parse_empty_list in
    match node with
    | BaseNode cls cs =>
        rbind (setitem cs 3 empty_list) (fun cs' => ok (BaseNode cls cs'))
    | Leaf _ _ _ _ _ => raise (AttributeError "children")
    end.

Definition examples : list (string * string) :=
  [ ("for i in rang(1,2): pass", "for i in []: pass") ].

#[global] Instance operator : Operator parso.node := {
  op_mutation_positions := mutation_positions;
  op_mutate := mutate;
  op_examples := examples
}.

End ZeroIterationForLoop.

(** *** [cosmic_ray/operators/remove_decorator.py]

    This operator works on the tree of Python's own [ast] module: a
    function definition carries the list of its decorators, each an
    expression. *)

Module ast.

Import Py.

#[warnings="-register-all"]
Inductive expr : Type :=
| Name (id : string)
| Attribute (value : expr) (attr : string)
| Call (func : expr) (args : list expr).

(** [x.id]: only a [Name] has the attribute. *)
Definition id (x : expr) : result string :=
  match x with
  | Name i => ok i
  | _ => raise (AttributeError "id")
  end.

(** A [FunctionDef] node; [Body] stands for the statements of the
    function, which the operator does not read. *)
Record FunctionDef (Body : Type) : Type := {
  name : string;
  args : list string;
  body : Body;
  decorator_list : list expr
}.

Arguments name {Body} _.
Arguments args {Body} _.
Arguments body {Body} _.
Arguments decorator_list {Body} _.

End ast.

Module RemoveDecorator.

Import Py ast.

Definition regular_decorators : gset string :=
  list_to_set ["classmethod"; "staticmethod"; "abstractmethod"].

(** [[x for x in l if keep(x.id)]]: the comprehension reads [x.id] of
    every element in turn and raises at the first that has none. *)
Fixpoint select (keep : string -> bool) (l : list expr) : result (list expr) :=
  match l with
  | [] => ok []
  | x :: l' =>
      rbind (id x) (fun i =>
      rbind (select keep l') (fun rest =>
      ok (if keep i then x :: rest else rest)))
  end.

Definition is_regular (i : string) : bool :=
  bool_decide (i ∈ regular_decorators).

Definition not_regular (i : string) : bool :=
  bool_decide (i ∉ regular_decorators).

(** Of a list of decorator names, those that are not standard ones, in
    the order of the list: the candidates of the operator. *)
Definition candidates (ids : list string) : list string :=
  filter (fun i => not_regular i = true) ids.

(** Of a list of decorator names, the standard ones, in the order of the
    list. *)
Definition regulars (ids : list string) : list string :=
  filter (fun i => is_regular i = true) ids.

Section Visitor.

Context {Body Visited : Type}.

(** [Operator.visit_mutation_site(node, num_mutations)] of the base
    class, whose code is elsewhere. *)
Variable visit_mutation_site : FunctionDef Body -> Z -> Visited.
(** How the visitor hands back a node it leaves alone. *)
Variable unchanged : FunctionDef Body -> Visited.

Definition visit_FunctionDef (node : FunctionDef Body) : result Visited :=
  rbind (select not_regular (decorator_list node)) (fun decorator_candidates =>
  match decorator_candidates with
  | _ :: _ =>
      ok (visit_mutation_site node (Z.of_nat (length decorator_candidates)))
  | [] => ok (unchanged node)
  end).

End Visitor.

Definition mutate {Body : Type} (node : FunctionDef Body) (idx : Z)
    : result (FunctionDef Body) :=
  rbind (select not_regular (decorator_list node)) (fun decorator_candidates =>
  rbind (delitem decorator_candidates idx) (fun decorator_candidates =>
  rbind (select is_regular (decorator_list node)) (fun regular =>
  let modified_decorator := decorator_candidates ++ regular in
  ok {| name := name node;
        args := args node;
        body := body node;
        decorator_list := modified_decorator |}))).

End RemoveDecorator.

(** ** The operator classes as they are declared

    For each operator class of the sources, the names its [class]
    statement binds, in the order of the statement, with the kind of each
    member and the parameters of each method. *)

Module catalog.

Inductive operator_class : Type :=
| NoOp
| ZeroIterationForLoop
| VariableInserter
| VariableReplacer
| RemoveDecorator.

(** The kinds of members: a method, a method whose body yields (a
    generator), a class method, a static method and a class attribute. *)
Inductive member : Type :=
| method (params : list string)
| generator (params : list string)
| classmethod (params : list string)
| staticmethod (params : list string)
| attribute.

Definition declared (c : operator_class) : list (string * member) :=
  match c with
  | NoOp =>
      [ ("mutation_positions", generator ["self"; "node"]);
        ("mutate", method ["self"; "node"; "index"]);
        ("examples", classmethod ["cls"]) ]
  | ZeroIterationForLoop =>
      [ ("mutation_positions", generator ["self"; "node"]);
        ("mutate", method ["self"; "node"; "index"]);
        ("examples", classmethod ["cls"]) ]
  | VariableInserter =>
      [ ("__init__", method ["self"; "cause_variable"; "effect_variable"]);
        ("mutation_positions", generator ["self"; "node"]);
        ("mutate", method ["self"; "node"; "index"]);
        ("_get_cause_and_effect_nodes_from_suite_node",
           method ["self"; "suite_node"]);
        ("_flatten_expr", generator ["self"; "expr"]);
        ("_flatten_comparison", generator ["self"; "conditional"]);
        ("_add_causes_to_suite", method ["self"; "node"]);
        ("_add_cause_to_node", method ["self"; "arith_expr_node"]);
        ("_get_causes_from_expr_node", method ["self"; "expr_node"]);
        ("_flatten_expr", generator ["self"; "expr"]);
        ("_iterate_col", staticmethod ["position_tuple"]);
        ("examples", classmethod ["cls"]) ]
  | VariableReplacer =>
      [ ("__init__", method ["self"; "cause_variable"; "effect_variable"]);
        ("mutation_positions", generator ["self"; "node"]);
        ("mutate", method ["self"; "node"; "index"]);
        ("_replace_causes_in_suite", method ["self"; "node"]);
        ("_get_cause_and_effect_nodes_from_suite_node",
           method ["self"; "suite_node"]);
        ("_get_causes_from_expr_node", method ["self"; "expr_node"]);
        ("_flatten_expr", generator ["self"; "expr"]);
        ("_flatten_comparison", generator ["self"; "conditional"]);
        ("_replace_named_variable_in_expr",
           method ["self"; "node"; "variable_name"]);
        ("examples", classmethod ["cls"]) ]
  | RemoveDecorator =>
      [ ("regular_decorators", attribute);
        ("visit_FunctionDef", method ["self"; "node"]);
        ("mutate", method ["self"; "node"; "idx"]) ]
  end.

(** The namespace of the class: a later binding of a name replaces an
    earlier one. *)
Definition namespace (c : operator_class) : gmap string member :=
  foldl (fun ns b => <[b.1 := b.2]> ns) ∅ (declared c).

(** The three members of the operator interface, each of the kind and
    with the parameters the engine calls it with. *)
Definition is_method_of (arity : nat) (m : option member) : bool :=
  match m with
  | Some (method params) => bool_decide (length params = arity)
  | _ => false
  end.

Definition is_generator_of (arity : nat) (m : option member) : bool :=
  match m with
  | Some (generator params) => bool_decide (length params = arity)
  | _ => false
  end.

Definition is_classmethod (m : option member) : bool :=
  match m with
  | Some (classmethod _) | Some (staticmethod _) => true
  | _ => false
  end.

Definition exposes_interface (c : operator_class) : bool :=
  is_generator_of 2 (namespace c !! "mutation_positions")
  && is_method_of 3 (namespace c !! "mutate")
  && is_classmethod (namespace c !! "examples").

Definition all_classes : list operator_class :=
  [NoOp; ZeroIterationForLoop; VariableInserter; VariableReplacer;
   RemoveDecorator].

End catalog.

(** ** The test executor and the recorded outcome

    Modelled from the spec: the sources hold neither the test executor nor
    [cosmic_ray.mutating.mutate_and_test]; the types and functions of this
    module follow the data model (section 3) and the execution protocol
    (sections 4.2 and 4.3) of the specification. *)

Module engine.

Import Py.

(** The status of a work item (section 3 of the specification). *)
Inductive status : Type := PENDING | RUNNING | COMPLETE | TIMED_OUT | ERRORED.

(** The result of running the tests against a mutated artifact. *)
Record TestOutcome : Type := {
  survived : bool;
  output : string;
  duration : Z;
  exit_code : Z
}.

(** What the scheduler records for a work item. *)
Record WorkResult : Type := {
  outcome : TestOutcome;
  terminal : status
}.

(** What the spawned test process would do if it were left alone: exit
    after some time with an exit code, crash, or never finish. *)
Inductive test_process : Type :=
| exits (after code : Z) (out : string)
| crashes (after : Z) (out : string)
| hangs.

(** The test process runs longer than the timeout allows. *)
Definition exceeds (p : test_process) (timeout : Z) : bool :=
  match p with
  | exits after _ _ | crashes after _ => timeout <? after
  | hangs => true
  end.

(** Modelled from the spec: the test executor and the outcome recorded by
    the scheduler.  The functions that do this work
    ([cosmic_ray.mutating.mutate_and_test] and what it calls) are not among
    the sources; the definition follows sections 4.2 (step 4) and 4.3: on
    normal completion the outcome has [survived = (tests passed)]; on
    timeout the process is terminated and the outcome has
    [survived = true] and the status [TIMED_OUT]; on a crash the status is
    [ERRORED] and the raw output is kept.  The specification fixes
    neither the exit code of a terminated process nor [survived] of a crash;
    the model records [-1] and [false]. *)
Definition execute (p : test_process) (timeout : Z) : WorkResult :=
  if exceeds p timeout then
    {| outcome := {| survived := true; output := EmptyString;
                     duration := timeout; exit_code := -1 |};
       terminal := TIMED_OUT |}
  else
    match p with
    | exits after code out =>
        {| outcome := {| survived := (code =? 0); output := out;
                         duration := after; exit_code := code |};
           terminal := COMPLETE |}
    | crashes after out =>
        {| outcome := {| survived := false; output := out;
                         duration := after; exit_code := -1 |};
           terminal := ERRORED |}
    | hangs =>
        {| outcome := {| survived := true; output := EmptyString;
                         duration := timeout; exit_code := -1 |};
           terminal := TIMED_OUT |}
    end.

Section MutateAndTest.

Context {Artifact Mutation : Type}.

(** The source under test, the mutant applier ([None] when the site is
    not found) and the behaviour of the test command on an artifact. *)
Variable source : Artifact.
Variable apply_mutation : Artifact -> Mutation -> option Artifact.
Variable test_process_of : Artifact -> string -> test_process.

Definition apply_all (muts : list Mutation) : option Artifact :=
  foldl (fun a m => a ≫= fun a => apply_mutation a m) (Some source) muts.

(** Modelled from the spec: [mutate_and_test], whose code is not among
    the sources, after the per-item protocol of section 4.2 (steps 2 to
    4): apply the mutations to a copy of the source; a failure to apply
    them is recorded as [ERRORED] and not raised; otherwise run the test
    command under the timeout and record what [execute] reports. *)
Definition mutate_and_test (muts : list Mutation) (test_command : string)
    (timeout : Z) : result WorkResult :=
  match apply_all muts with
  | None =>
      ok {| outcome := {| survived := false; output := "SiteNotFound";
                          duration := 0; exit_code := -1 |};
            terminal := ERRORED |}
  | Some mutant => ok (execute (test_process_of mutant test_command) timeout)
  end.

End MutateAndTest.

(** The mutant applier for one operator: the engine calls the operator's
    [mutate] at the site, with the index of the variant; an exception of
    the operator is a failure to apply the mutation. *)
Definition apply_operator {Node : Type} (op : Operator Node)
    (node : Node) (variant_index : Z) : option Node :=
  match op_mutate node variant_index with
  | inr mutated => Some mutated
  | inl _ => None
  end.

End engine.

(** ** [cosmic_ray/operators/variable_inserter.py] and
    [variable_replacer.py]

    The two classes carry the same four helper methods, word for word:
    [_flatten_expr], [_flatten_comparison], [_get_causes_from_expr_node]
    and [_get_cause_and_effect_nodes_from_suite_node].  They are embedded
    once, in the module [causes]. *)

Module causes.

Import Py parso.

(** Python's [TypeError], raised by a [for] loop over an object that is
    not iterable. *)
Definition TypeError (msg : string) : exception :=
  Raised ("TypeError: " +:+ msg).

(** [leaf.value]; an inner node has no such attribute. *)
Definition value (n : node) : result string :=
  match n with
  | Leaf _ v _ _ _ => ok v
  | BaseNode _ _ => raise (AttributeError "value")
  end.

(** [isinstance(node, Leaf)] *)
Definition is_Leaf (n : node) : bool :=
  match n with
  | Leaf _ _ _ _ _ => true
  | BaseNode _ _ => false
  end.

(** A leaf whose text is the given name. *)
Definition named (variable_name : string) (n : node) : bool :=
  match n with
  | Leaf _ v _ _ _ => bool_decide (v = variable_name)
  | BaseNode _ _ => false
  end.

(** A child of a suite that holds no [if] statement: a leaf (a newline),
    an expression statement, a node such as [simple_stmt] with at least one
    child, or a node of a class that the loops pass over. *)
Definition plain_child (child_node : node) : bool :=
  match child_node with
  | BaseNode IfStmt _ => false
  | BaseNode (PythonNode _) [] => false
  | _ => true
  end.

(** The expression node that the first loop collects for such a child. *)
Definition collected (child_node : node) : option node :=
  match child_node with
  | BaseNode ExprStmt _ => Some child_node
  | BaseNode (PythonNode _) (first :: _) => Some first
  | _ => None
  end.

(** One turn of the loop of [_flatten_expr], for one item.  For an inner
    node, [item.children] is flattened in turn.  A leaf has no [children],
    so the leaf itself is handed to the recursive call; the [for] loop of
    that call raises [TypeError], a leaf not being iterable, and the
    handler yields the leaf. *)
Fixpoint flatten_item (item : node) : list node :=
  match item with
  | Leaf _ _ _ _ _ => [item]
  | BaseNode _ cs =>
      (fix flatten_all (cs : list node) : list node :=
         match cs with
         | [] => []
         | c :: cs' => flatten_item c ++ flatten_all cs'
         end) cs
  end.

(** [_flatten_expr(expr)] for a list of nodes, run to its end. *)
Fixpoint _flatten_expr (expr : list node) : list node :=
  match expr with
  | [] => []
  | item :: rest => flatten_item item ++ _flatten_expr rest
  end.

(** One turn of the loop of [_flatten_comparison], for one child: the
    same two cases. *)
Fixpoint flatten_child (child_node : node) : list node :=
  match child_node with
  | Leaf _ _ _ _ _ => [child_node]
  | BaseNode _ cs =>
      (fix flatten_all (cs : list node) : list node :=
         match cs with
         | [] => []
         | c :: cs' => flatten_child c ++ flatten_all cs'
         end) cs
  end.

Fixpoint flatten_children (to_iterate : list node) : list node :=
  match to_iterate with
  | [] => []
  | child_node :: rest => flatten_child child_node ++ flatten_children rest
  end.

(** [_flatten_comparison(conditional)], run to its end.  The argument is
    a node or a list of nodes: of an inner node the children are iterated,
    a list is iterated as it is, and a leaf is not iterable. *)
Definition _flatten_comparison (conditional : node + list node)
    : result (list node) :=
  match conditional with
  | inl (BaseNode _ cs) => ok (flatten_children cs)
  | inl (Leaf _ _ _ _ _) => raise (TypeError "object is not iterable")
  | inr to_iterate => ok (flatten_children to_iterate)
  end.

(** [x == text] for a node [x] of the tree: a keyword or an operator leaf
    of [parso] compares equal to its own text; any other node is equal to
    no text. *)
Definition equals_text (x : node) (text : string) : bool :=
  match x with
  | Leaf type v _ _ _ =>
      (bool_decide (type = "keyword") || bool_decide (type = "operator"))
      && bool_decide (v = text)
  | BaseNode _ _ => false
  end.

(** [text in nodes] *)
Definition text_in (text : string) (nodes : list node) : bool :=
  existsb (fun x => equals_text x text) nodes.

(** [[x.value for x in nodes]] *)
Fixpoint values (nodes : list node) : result (list string) :=
  match nodes with
  | [] => ok []
  | x :: rest =>
      rbind (value x) (fun v =>
      rbind (values rest) (fun vs => ok (v :: vs)))
  end.

Section Suite.

(** [ExprStmt.get_rhs] and [ExprStmt.get_defined_names] of [parso]: the
    right-hand side of an expression statement and the names it
    defines. *)
Variable get_rhs : node -> result node.
Variable get_defined_names : node -> result (list node).

(** [expr_node.get_rhs()]: only an expression statement has the method. *)
Definition call_get_rhs (expr_node : node) : result node :=
  match expr_node with
  | BaseNode ExprStmt _ => get_rhs expr_node
  | _ => raise (AttributeError "get_rhs")
  end.

(** [expr_node.get_defined_names()], reached for expression statements
    only, after [get_rhs]. *)
Definition call_get_defined_names (expr_node : node) : result (list node) :=
  match expr_node with
  | BaseNode ExprStmt _ => get_defined_names expr_node
  | _ => raise (AttributeError "get_defined_names")
  end.

Definition _get_causes_from_expr_node (expr_node : node)
    : result (list node) :=
  rbind (call_get_rhs expr_node) (fun rhs_node =>
  rbind (children rhs_node) (fun rhs =>
  ok (_flatten_expr rhs))).

(** The second loop of [_get_cause_and_effect_nodes_from_suite_node]. *)
Fixpoint for_expr_nodes (expr_nodes causes effects : list node)
    : result (list node * list node) :=
  match expr_nodes with
  | [] => ok (causes, effects)
  | expr_node :: rest =>
      rbind (_get_causes_from_expr_node expr_node) (fun found =>
      rbind (call_get_defined_names expr_node) (fun defined =>
      for_expr_nodes rest (causes ++ found) (effects ++ defined)))
  end.

(** [_get_cause_and_effect_nodes_from_suite_node(suite_node)]: the first
    loop goes through the children, and through the children of every
    [if] statement among them; the second goes through the expression
    nodes that the first has collected. *)
Fixpoint _get_cause_and_effect_nodes_from_suite_node (suite_node : node)
    : result (list node * list node) :=
  match suite_node with
  | Leaf _ _ _ _ _ => raise (AttributeError "children")
  | BaseNode _ cs =>
      rbind
        ((fix for_child (cs causes effects expr_nodes : list node)
              {struct cs} : result (list node * list node * list node) :=
            match cs with
            | [] => ok (causes, effects, expr_nodes)
            | child_node :: rest =>
                match child_node with
                | BaseNode ExprStmt _ =>
                    for_child rest causes effects (expr_nodes ++ [child_node])
                | BaseNode (PythonNode _) gcs =>
                    rbind (getitem gcs 0) (fun first =>
                    for_child rest causes effects (expr_nodes ++ [first]))
                | BaseNode IfStmt gcs =>
                    rbind
                      ((fix for_grandchild (gcs causes effects : list node)
                            {struct gcs} : result (list node * list node) :=
                          match gcs with
                          | [] => ok (causes, effects)
                          | grandchild_node :: more =>
                              match grandchild_node with
                              | BaseNode (PythonNode type) _ =>
                                  if bool_decide (type = "suite") then
                                    rbind
                                      (_get_cause_and_effect_nodes_from_suite_node
                                         grandchild_node)
                                      (fun gc =>
                                         for_grandchild more
                                           (causes ++ gc.1) (effects ++ gc.2))
                                  else if bool_decide (type = "comparison") then
                                    rbind
                                      (_flatten_comparison (inl grandchild_node))
                                      (fun gc_comparison_causes =>
                                         for_grandchild more
                                           (causes ++ gc_comparison_causes)
                                           effects)
                                  else for_grandchild more causes effects
                              | _ => for_grandchild more causes effects
                              end
                          end) gcs causes effects)
                      (fun found =>
                         for_child rest found.1 found.2 expr_nodes)
                | _ => for_child rest causes effects expr_nodes
                end
            end) cs [] [] [])
        (fun found => for_expr_nodes found.2 found.1.1 found.1.2)
  end.

(** The two loops over the children, as functions of their own: the loop
    over the children of an [if] statement and the first loop of the
    method. *)
Fixpoint for_grandchild (gcs causes effects : list node)
    : result (list node * list node) :=
  match gcs with
  | [] => ok (causes, effects)
  | grandchild_node :: more =>
      match grandchild_node with
      | BaseNode (PythonNode type) _ =>
          if bool_decide (type = "suite") then
            rbind (_get_cause_and_effect_nodes_from_suite_node grandchild_node)
              (fun gc => for_grandchild more (causes ++ gc.1) (effects ++ gc.2))
          else if bool_decide (type = "comparison") then
            rbind (_flatten_comparison (inl grandchild_node))
              (fun gc_comparison_causes =>
                 for_grandchild more (causes ++ gc_comparison_causes) effects)
          else for_grandchild more causes effects
      | _ => for_grandchild more causes effects
      end
  end.

Fixpoint for_child (cs causes effects expr_nodes : list node)
    : result (list node * list node * list node) :=
  match cs with
  | [] => ok (causes, effects, expr_nodes)
  | child_node :: rest =>
      match child_node with
      | BaseNode ExprStmt _ =>
          for_child rest causes effects (expr_nodes ++ [child_node])
      | BaseNode (PythonNode _) gcs =>
          rbind (getitem gcs 0) (fun first =>
          for_child rest causes effects (expr_nodes ++ [first]))
      | BaseNode IfStmt gcs =>
          rbind (for_grandchild gcs causes effects) (fun found =>
          for_child rest found.1 found.2 expr_nodes)
      | _ => for_child rest causes effects expr_nodes
      end
  end.

(** What the two [mutation_positions] share: the test of the node and of
    its parent, and the names of the causes and of the effects of the
    suite.  [None] when the node is no candidate: it is not a suite, its
    parent is no [if] statement, or the [if] statement has an [else]. *)
Definition named_causes_and_effects (parent : option node) (n : node)
    : result (option (list string * list string)) :=
  match n, parent with
  | BaseNode (PythonNode type) _, Some (BaseNode IfStmt siblings) =>
      if bool_decide (type = "suite") then
        if negb (text_in "else" siblings) then
          rbind (_get_cause_and_effect_nodes_from_suite_node n) (fun found =>
          rbind (values found.1) (fun named_causes =>
          rbind (values found.2) (fun named_effects =>
          ok (Some (named_causes, named_effects)))))
        else ok None
      else ok None
  | _, _ => ok None
  end.

End Suite.

End causes.

(** *** [cosmic_ray/operators/variable_inserter.py] *)

Module VariableInserter.

Import Py parso.

Record operator : Type := {
  cause_variable : string;
  effect_variable : string
}.

(** What [random.choice(['+', '-'])] returns. *)
Inductive sign : Type := plus | minus.

Definition sign_text (s : sign) : string :=
  match s with plus => "+" | minus => "-" end.

Definition _flatten_expr : list node -> list node := causes._flatten_expr.

Definition _flatten_comparison : node + list node -> result (list node) :=
  causes._flatten_comparison.

(** [_iterate_col(position_tuple)]: the sums of the pairs of
    [zip(position_tuple, (0, 1))]. *)
Definition _iterate_col (position_tuple : position) : position :=
  (position_tuple.1 + 0, position_tuple.2 + 1).

Section Inserter.

Variable self : operator.

(** Where [parso] finds the end of a leaf that starts at a position and
    holds a text. *)
Variable leaf_end_pos : position -> string -> position.

Variable get_rhs : node -> result node.
Variable get_defined_names : node -> result (list node).

(** [_add_cause_to_node(arith_expr_node)], for the sign that
    [random.choice] draws. *)
Definition _add_cause_to_node (arith_operator : sign) (arith_expr_node : node)
    : result node :=
  rbind (end_pos arith_expr_node) (fun e =>
  let arith_operator_node_start_pos := _iterate_col e in
  let cause_node_start_pos := _iterate_col arith_operator_node_start_pos in
  let arith_operator_node :=
    Leaf "operator" (sign_text arith_operator) " "
      arith_operator_node_start_pos
      (leaf_end_pos arith_operator_node_start_pos (sign_text arith_operator)) in
  let cause_node :=
    Leaf "name" (cause_variable self) " " cause_node_start_pos
      (leaf_end_pos cause_node_start_pos (cause_variable self)) in
  ok (BaseNode (PythonNode "arith_expr")
        [arith_expr_node; arith_operator_node; cause_node])).

(** [mutation_positions(node)], run to its end; [parent] is
    [node.parent]. *)
Definition mutation_positions (parent : option node) (n : node)
    : result (list (position * position)) :=
  rbind (causes.named_causes_and_effects get_rhs get_defined_names parent n)
    (fun found =>
       match found with
       | None => ok []
       | Some (named_causes, named_effects) =>
           if bool_decide (effect_variable self ∈ named_effects)
              && bool_decide (cause_variable self ∉ named_causes)
           then rbind (span n) (fun site => ok [site])
           else ok []
       end).

End Inserter.

Section Mutate.

Variable self : operator.
Variable leaf_end_pos : position -> string -> position.
Variable get_rhs : node -> result node.

(** The signs that the successive calls of [random.choice(['+', '-'])]
    return. *)
Variable choice : nat -> sign.

(** The methods below rewrite the tree in place and return it.  Their
    models return the tree as it is after the call, with the count of the
    signs drawn so far.  When a method raises, the tree is left partly
    rewritten; the models give the exception only. *)

(** One turn of the second loop of [_add_causes_to_suite]:
    [expr_node.get_rhs()] with the cause added is assigned to
    [expr_node.children[2]]. *)
Definition add_cause_to_expr_node (expr_node : node) (drawn : nat)
    : result (node * nat) :=
  rbind (causes.call_get_rhs get_rhs expr_node) (fun rhs =>
  rbind (_add_cause_to_node self leaf_end_pos (choice drawn) rhs)
    (fun new_rhs =>
  match expr_node with
  | BaseNode cls cs =>
      rbind (setitem cs 2 new_rhs) (fun cs' => ok (BaseNode cls cs', S drawn))
  | Leaf _ _ _ _ _ => raise (AttributeError "children")
  end)).

(** The second loop of [_add_causes_to_suite].  The nodes it goes through
    were collected by the first loop, in the order of the children: a
    child that is an expression statement, or the first child of a child
    that is a [PythonNode].  Each is rewritten where it stands, so the loop
    is a second pass over the children. *)
Fixpoint for_expr_nodes (cs : list node) (drawn : nat)
    : result (list node * nat) :=
  match cs with
  | [] => ok ([], drawn)
  | child_node :: rest =>
      match child_node with
      | BaseNode ExprStmt _ =>
          rbind (add_cause_to_expr_node child_node drawn) (fun updated =>
          rbind (for_expr_nodes rest updated.2) (fun others =>
          ok (updated.1 :: others.1, others.2)))
      | BaseNode (PythonNode type) (first :: gcs) =>
          rbind (add_cause_to_expr_node first drawn) (fun updated =>
          rbind (for_expr_nodes rest updated.2) (fun others =>
          ok (BaseNode (PythonNode type) (updated.1 :: gcs) :: others.1,
              others.2)))
      | _ =>
          rbind (for_expr_nodes rest drawn) (fun others =>
          ok (child_node :: others.1, others.2))
      end
  end.

(** [_add_causes_to_suite(node)].  The first loop checks that every
    [PythonNode] among the children has a first child, and rewrites the
    [if] statements among them: the first child of a comparison gets the
    cause, a suite is rewritten by the method itself. *)
Fixpoint _add_causes_to_suite (n : node) (drawn : nat) : result (node * nat) :=
  match n with
  | Leaf _ _ _ _ _ => raise (AttributeError "children")
  | BaseNode cls cs =>
      rbind
        ((fix for_child (cs : list node) (drawn : nat) {struct cs}
              : result (list node * nat) :=
            match cs with
            | [] => ok ([], drawn)
            | child_node :: rest =>
                match child_node with
                | BaseNode ExprStmt _ =>
                    rbind (for_child rest drawn) (fun others =>
                    ok (child_node :: others.1, others.2))
                | BaseNode (PythonNode _) gcs =>
                    rbind (getitem gcs 0) (fun _ =>
                    rbind (for_child rest drawn) (fun others =>
                    ok (child_node :: others.1, others.2)))
                | BaseNode IfStmt gcs =>
                    rbind
                      ((fix for_grandchild (gcs : list node) (drawn : nat)
                            {struct gcs} : result (list node * nat) :=
                          match gcs with
                          | [] => ok ([], drawn)
                          | grandchild_node :: more =>
                              match grandchild_node with
                              | BaseNode (PythonNode type) ggcs =>
                                  if bool_decide (type = "comparison") then
                                    rbind (getitem ggcs 0) (fun arith_expr =>
                                    rbind
                                      (_add_cause_to_node self leaf_end_pos
                                         (choice drawn) arith_expr)
                                      (fun new_arith_expr =>
                                    rbind (setitem ggcs 0 new_arith_expr)
                                      (fun ggcs' =>
                                    rbind (for_grandchild more (S drawn))
                                      (fun others =>
                                    ok (BaseNode (PythonNode type) ggcs'
                                          :: others.1, others.2)))))
                                  else if bool_decide (type = "suite") then
                                    rbind
                                      (_add_causes_to_suite grandchild_node
                                         drawn)
                                      (fun updated =>
                                    rbind (for_grandchild more updated.2)
                                      (fun others =>
                                    ok (updated.1 :: others.1, others.2)))
                                  else
                                    rbind (for_grandchild more drawn)
                                      (fun others =>
                                    ok (grandchild_node :: others.1, others.2))
                              | _ =>
                                  rbind (for_grandchild more drawn)
                                    (fun others =>
                                  ok (grandchild_node :: others.1, others.2))
                              end
                          end) gcs drawn)
                      (fun updated =>
                    rbind (for_child rest updated.2) (fun others =>
                    ok (BaseNode IfStmt updated.1 :: others.1, others.2)))
                | _ =>
                    rbind (for_child rest drawn) (fun others =>
                    ok (child_node :: others.1, others.2))
                end
            end) cs drawn)
        (fun first_loop =>
           rbind (for_expr_nodes first_loop.1 first_loop.2) (fun updated =>
           ok (BaseNode cls updated.1, updated.2)))
  end.

(** The two loops over the children, as functions of their own. *)
Fixpoint for_grandchild (gcs : list node) (drawn : nat)
    : result (list node * nat) :=
  match gcs with
  | [] => ok ([], drawn)
  | grandchild_node :: more =>
      match grandchild_node with
      | BaseNode (PythonNode type) ggcs =>
          if bool_decide (type = "comparison") then
            rbind (getitem ggcs 0) (fun arith_expr =>
            rbind (_add_cause_to_node self leaf_end_pos (choice drawn)
                     arith_expr) (fun new_arith_expr =>
            rbind (setitem ggcs 0 new_arith_expr) (fun ggcs' =>
            rbind (for_grandchild more (S drawn)) (fun others =>
            ok (BaseNode (PythonNode type) ggcs' :: others.1, others.2)))))
          else if bool_decide (type = "suite") then
            rbind (_add_causes_to_suite grandchild_node drawn) (fun updated =>
            rbind (for_grandchild more updated.2) (fun others =>
            ok (updated.1 :: others.1, others.2)))
          else
            rbind (for_grandchild more drawn) (fun others =>
            ok (grandchild_node :: others.1, others.2))
      | _ =>
          rbind (for_grandchild more drawn) (fun others =>
          ok (grandchild_node :: others.1, others.2))
      end
  end.

Fixpoint for_child (cs : list node) (drawn : nat) : result (list node * nat) :=
  match cs with
  | [] => ok ([], drawn)
  | child_node :: rest =>
      match child_node with
      | BaseNode ExprStmt _ =>
          rbind (for_child rest drawn) (fun others =>
          ok (child_node :: others.1, others.2))
      | BaseNode (PythonNode _) gcs =>
          rbind (getitem gcs 0) (fun _ =>
          rbind (for_child rest drawn) (fun others =>
          ok (child_node :: others.1, others.2)))
      | BaseNode IfStmt gcs =>
          rbind (for_grandchild gcs drawn) (fun updated =>
          rbind (for_child rest updated.2) (fun others =>
          ok (BaseNode IfStmt updated.1 :: others.1, others.2)))
      | _ =>
          rbind (for_child rest drawn) (fun others =>
          ok (child_node :: others.1, others.2))
      end
  end.

(** [mutate(node, index)] *)
Definition mutate (n : node) (index : Z) (drawn : nat) : result (node * nat) :=
  match n with
  | BaseNode (PythonNode type) _ =>
      if bool_decide (type = "suite") then _add_causes_to_suite n drawn
      else raise AssertionError
  | _ => raise AssertionError
  end.

End Mutate.

End VariableInserter.

(** *** [cosmic_ray/operators/variable_replacer.py] *)

Module VariableReplacer.

Import Py parso.

(** [effect_variable] is [None] unless the constructor is given one. *)
Record operator : Type := {
  cause_variable : string;
  effect_variable : option string
}.

Definition _flatten_expr : list node -> list node := causes._flatten_expr.

Definition _flatten_comparison : node + list node -> result (list node) :=
  causes._flatten_comparison.

Section Replacer.

Variable self : operator.

Variable leaf_end_pos : position -> string -> position.

(** The numbers that the successive calls of [randint(-100, 100)]
    return. *)
Variable randint : nat -> Z.

Variable get_rhs : node -> result node.
Variable get_defined_names : node -> result (list node).

(** [Number(start_pos=node.start_pos, value=str(randint(-100, 100)),
    prefix=' ')], for the draw number [drawn]. *)
Definition number_leaf (start_pos : position) (drawn : nat) : node :=
  Leaf "number" (pretty (randint drawn)) " " start_pos
    (leaf_end_pos start_pos (pretty (randint drawn))).

(** [_replace_named_variable_in_expr(node, variable_name)]; [drawn]
    counts the random numbers drawn so far, and the count after the call
    is returned with the node.  An inner node is rewritten in place and
    returned: the model returns it as it is after the call.  What the
    method prints is left out. *)
Fixpoint _replace_named_variable_in_expr (n : node) (variable_name : string)
    (drawn : nat) : node * nat :=
  match n with
  | Leaf _ v _ start_pos _ =>
      if bool_decide (v = variable_name)
      then (number_leaf start_pos drawn, S drawn)
      else (n, drawn)
  | BaseNode cls cs =>
      let updated :=
        (fix for_child (cs : list node) (drawn : nat) : list node * nat :=
           match cs with
           | [] => ([], drawn)
           | child_node :: rest =>
               let first :=
                 _replace_named_variable_in_expr child_node variable_name
                   drawn in
               let others := for_child rest first.2 in
               (first.1 :: others.1, others.2)
           end) cs drawn in
      (BaseNode cls updated.1, updated.2)
  end.

(** The loop over the children, as a function of its own. *)
Fixpoint for_child (cs : list node) (variable_name : string) (drawn : nat)
    : list node * nat :=
  match cs with
  | [] => ([], drawn)
  | child_node :: rest =>
      let first :=
        _replace_named_variable_in_expr child_node variable_name drawn in
      let others := for_child rest variable_name first.2 in
      (first.1 :: others.1, others.2)
  end.

(** [x in named_effects] for the effect variable: [None] is equal to no
    name. *)
Definition effect_in (named_effects : list string) : bool :=
  match effect_variable self with
  | Some e => bool_decide (e ∈ named_effects)
  | None => false
  end.

(** [mutation_positions(node)], run to its end; [parent] is
    [node.parent].  What the method prints is left out. *)
Definition mutation_positions (parent : option node) (n : node)
    : result (list (position * position)) :=
  rbind (causes.named_causes_and_effects get_rhs get_defined_names parent n)
    (fun found =>
       match found with
       | None => ok []
       | Some (named_causes, named_effects) =>
           if effect_in named_effects
              && bool_decide (cause_variable self ∈ named_causes)
           then rbind (span n) (fun site => ok [site])
           else ok []
       end).

End Replacer.

Section Mutate.

Variable self : operator.
Variable leaf_end_pos : position -> string -> position.
Variable randint : nat -> Z.

(** The methods below rewrite the tree in place and return it.  Their
    models return the tree as it is after the call, with the count of the
    numbers drawn so far.  When a method raises, the tree is left partly
    rewritten; the models give the exception only.  What [mutate] prints
    is left out. *)

(** The children of a statement after [_replace_named_variable_in_expr]
    has been called on the node [rhs] that [get_rhs] returned.  A leaf is
    not touched by the call.  An inner node is rewritten in place: it stands
    where [get_rhs] found it, as the last child or inside the annotation
    that is the last child. *)
Definition rhs_rewritten (cs : list node) (rhs new_rhs : node) : list node :=
  if causes.is_Leaf rhs then cs
  else
    match last cs with
    | Some (BaseNode (PythonNode type) acs) =>
        if bool_decide (type = "annassign") then
          let i := if bool_decide (length acs = 4%nat) then 3%nat else 1%nat in
          <[pred (length cs) :=
              BaseNode (PythonNode type) (<[i := new_rhs]> acs)]> cs
        else <[pred (length cs) := new_rhs]> cs
    | _ => <[pred (length cs) := new_rhs]> cs
    end.

(** One turn of the second loop of [_replace_causes_in_suite]:
    [expr_node.get_rhs()] with the cause replaced is assigned to
    [expr_node.children[2]]. *)
Definition replace_in_expr_node (expr_node : node) (drawn : nat)
    : result (node * nat) :=
  rbind (causes.call_get_rhs parso.get_rhs expr_node) (fun rhs =>
  let new_rhs :=
    _replace_named_variable_in_expr leaf_end_pos randint rhs
      (cause_variable self) drawn in
  match expr_node with
  | BaseNode cls cs =>
      rbind (setitem (rhs_rewritten cs rhs new_rhs.1) 2 new_rhs.1) (fun cs' =>
      ok (BaseNode cls cs', new_rhs.2))
  | Leaf _ _ _ _ _ => raise (AttributeError "children")
  end).

(** The second loop of [_replace_causes_in_suite].  The nodes it goes
    through were collected by the first loop, in the order of the
    children: a child that is an expression statement, or the first child
    of a child that is a [PythonNode].  Each is rewritten where it stands,
    so the loop is a second pass over the children. *)
Fixpoint suite_for_expr_nodes (cs : list node) (drawn : nat)
    : result (list node * nat) :=
  match cs with
  | [] => ok ([], drawn)
  | child_node :: rest =>
      match child_node with
      | BaseNode ExprStmt _ =>
          rbind (replace_in_expr_node child_node drawn) (fun updated =>
          rbind (suite_for_expr_nodes rest updated.2) (fun others =>
          ok (updated.1 :: others.1, others.2)))
      | BaseNode (PythonNode type) (first :: gcs) =>
          rbind (replace_in_expr_node first drawn) (fun updated =>
          rbind (suite_for_expr_nodes rest updated.2) (fun others =>
          ok (BaseNode (PythonNode type) (updated.1 :: gcs) :: others.1,
              others.2)))
      | _ =>
          rbind (suite_for_expr_nodes rest drawn) (fun others =>
          ok (child_node :: others.1, others.2))
      end
  end.

(** The loop over the children of an [if] statement: the cause is
    replaced in the first child of a comparison and in the whole of a
    suite. *)
Fixpoint suite_for_grandchild (gcs : list node) (drawn : nat)
    : result (list node * nat) :=
  match gcs with
  | [] => ok ([], drawn)
  | grandchild_node :: more =>
      match grandchild_node with
      | BaseNode (PythonNode type) ggcs =>
          if bool_decide (type = "comparison") then
            rbind (getitem ggcs 0) (fun arith_expr =>
            let new_arith_expr :=
              _replace_named_variable_in_expr leaf_end_pos randint arith_expr
                (cause_variable self) drawn in
            rbind (setitem ggcs 0 new_arith_expr.1) (fun ggcs' =>
            rbind (suite_for_grandchild more new_arith_expr.2) (fun others =>
            ok (BaseNode (PythonNode type) ggcs' :: others.1, others.2))))
          else if bool_decide (type = "suite") then
            let updated :=
              _replace_named_variable_in_expr leaf_end_pos randint
                grandchild_node (cause_variable self) drawn in
            rbind (suite_for_grandchild more updated.2) (fun others =>
            ok (updated.1 :: others.1, others.2))
          else
            rbind (suite_for_grandchild more drawn) (fun others =>
            ok (grandchild_node :: others.1, others.2))
      | _ =>
          rbind (suite_for_grandchild more drawn) (fun others =>
          ok (grandchild_node :: others.1, others.2))
      end
  end.

(** The first loop of [_replace_causes_in_suite]: it checks that every
    [PythonNode] among the children has a first child, and rewrites the
    [if] statements among them. *)
Fixpoint suite_for_child (cs : list node) (drawn : nat)
    : result (list node * nat) :=
  match cs with
  | [] => ok ([], drawn)
  | child_node :: rest =>
      match child_node with
      | BaseNode ExprStmt _ =>
          rbind (suite_for_child rest drawn) (fun others =>
          ok (child_node :: others.1, others.2))
      | BaseNode (PythonNode _) gcs =>
          rbind (getitem gcs 0) (fun _ =>
          rbind (suite_for_child rest drawn) (fun others =>
          ok (child_node :: others.1, others.2)))
      | BaseNode IfStmt gcs =>
          rbind (suite_for_grandchild gcs drawn) (fun updated =>
          rbind (suite_for_child rest updated.2) (fun others =>
          ok (BaseNode IfStmt updated.1 :: others.1, others.2)))
      | _ =>
          rbind (suite_for_child rest drawn) (fun others =>
          ok (child_node :: others.1, others.2))
      end
  end.

(** [_replace_causes_in_suite(node)] *)
Definition _replace_causes_in_suite (n : node) (drawn : nat)
    : result (node * nat) :=
  rbind (children n) (fun cs =>
  rbind (suite_for_child cs drawn) (fun first_loop =>
  rbind (suite_for_expr_nodes first_loop.1 first_loop.2) (fun updated =>
  match n with
  | BaseNode cls _ => ok (BaseNode cls updated.1, updated.2)
  | Leaf _ _ _ _ _ => raise (AttributeError "children")
  end))).

(** [mutate(node, index)] *)
Definition mutate (n : node) (index : Z) (drawn : nat) : result (node * nat) :=
  match n with
  | BaseNode (PythonNode type) _ =>
      if bool_decide (type = "suite") then _replace_causes_in_suite n drawn
      else raise AssertionError
  | _ => raise AssertionError
  end.

End Mutate.

End VariableReplacer.

(** ** Sample inputs

    Work items, collaborators and commands on which the statements of
    Part II are evaluated. *)

Module sample.

Import Py LocalDistributor.

Definition item (job : string) (muts : list string) : WorkItem string :=
  {| job_id := job; mutations := muts |}.

Definition first_item : WorkItem string := item "a1" ["NoOp"].
Definition second_item : WorkItem string := item "b2" ["ZeroIterationForLoop"].
Definition broken_item : WorkItem string := item "c3" ["broken"].

(** A [mutate_and_test] whose every test run returns the result [true]. *)
Definition passing (muts : list string) (test_command : string) (timeout : Z)
    : result bool :=
  ok true.

(** A [mutate_and_test] that raises when asked for the mutation
    ["broken"]. *)
Definition raising_on_broken (muts : list string) (test_command : string)
    (timeout : Z) : result bool :=
  if bool_decide ("broken" ∈ muts) then raise (Raised "mutation failed")
  else ok true.

(** A callback that returns. *)
Definition record (job : string) (res : bool) : result unit := ok tt.

(** The tree of the loop [for i in rang(1,2): pass], the source of the
    example that [ZeroIterationForLoop.examples] gives. *)
Definition for_loop_children : list parso.node :=
  [ parso.Leaf "keyword" "for" EmptyString (1, 0) (1, 3);
    parso.Leaf "name" "i" " " (1, 4) (1, 5);
    parso.Leaf "keyword" "in" " " (1, 6) (1, 8);
    parso.BaseNode (parso.PythonNode "atom_expr")
      [ parso.Leaf "name" "rang" " " (1, 9) (1, 13);
        parso.BaseNode (parso.PythonNode "trailer")
          [ parso.Leaf "operator" "(" EmptyString (1, 13) (1, 14);
            parso.BaseNode (parso.PythonNode "arglist")
              [ parso.Leaf "number" "1" EmptyString (1, 14) (1, 15);
                parso.Leaf "operator" "," EmptyString (1, 15) (1, 16);
                parso.Leaf "number" "2" EmptyString (1, 16) (1, 17) ];
            parso.Leaf "operator" ")" EmptyString (1, 17) (1, 18) ] ];
    parso.Leaf "operator" ":" EmptyString (1, 18) (1, 19);
    parso.Leaf "keyword" "pass" " " (1, 20) (1, 24) ].

Definition for_loop : parso.node :=
  parso.BaseNode parso.ForStmt for_loop_children.

(** A function with two decorators of its own between the standard ones. *)
Definition decorated : ast.FunctionDef unit :=
  {| ast.name := "bar";
     ast.args := [];
     ast.body := tt;
     ast.decorator_list :=
       [ast.Name "classmethod"; ast.Name "foo"; ast.Name "staticmethod";
        ast.Name "baz"] |}.




Definition well_formed : string := "pytest -x -t 5 tests".
Definition without_t : string := "pytest -x tests".

(** The tree that [parso] builds for the two lines [if c > 0:] and
    [    y = x + z], part by part. *)
Definition line_end : string := String (ascii_of_nat 10) EmptyString.

Definition sum : parso.node :=
  parso.BaseNode (parso.PythonNode "arith_expr")
    [ parso.Leaf "name" "x" " " (2, 8) (2, 9);
      parso.Leaf "operator" "+" " " (2, 10) (2, 11);
      parso.Leaf "name" "z" " " (2, 12) (2, 13) ].

Definition assignment : parso.node :=
  parso.BaseNode parso.ExprStmt
    [ parso.Leaf "name" "y" "    " (2, 4) (2, 5);
      parso.Leaf "operator" "=" " " (2, 6) (2, 7);
      sum ].

Definition suite : parso.node :=
  parso.BaseNode (parso.PythonNode "suite")
    [ parso.Leaf "newline" line_end EmptyString (1, 9) (2, 0);
      parso.BaseNode (parso.PythonNode "simple_stmt")
        [ assignment;
          parso.Leaf "newline" line_end EmptyString (2, 13) (3, 0) ] ].

Definition if_stmt : parso.node :=
  parso.BaseNode parso.IfStmt
    [ parso.Leaf "keyword" "if" EmptyString (1, 0) (1, 2);
      parso.BaseNode (parso.PythonNode "comparison")
        [ parso.Leaf "name" "c" " " (1, 3) (1, 4);
          parso.Leaf "operator" ">" " " (1, 5) (1, 6);
          parso.Leaf "number" "0" " " (1, 7) (1, 8) ];
      parso.Leaf "operator" ":" EmptyString (1, 8) (1, 9);
      suite ].

(** The suite of the line [    pass] in the place of the assignment. *)
Definition pass_suite : parso.node :=
  parso.BaseNode (parso.PythonNode "suite")
    [ parso.Leaf "newline" line_end EmptyString (1, 9) (2, 0);
      parso.BaseNode (parso.PythonNode "simple_stmt")
        [ parso.Leaf "keyword" "pass" "    " (2, 4) (2, 8);
          parso.Leaf "newline" line_end EmptyString (2, 8) (3, 0) ] ].

(** [get_defined_names] of [parso] on a statement [target = value] whose
    target is a single name: that name. *)
Definition first_child (expr_node : parso.node) : result (list parso.node) :=
  rbind (parso.children expr_node) (fun cs =>
  rbind (getitem cs 0) (fun target => ok [target])).

(** Where a leaf ends whose text stays on its line. *)
Definition same_line (start_pos : parso.position) (text : string)
    : parso.position :=
  (start_pos.1, start_pos.2 + Z.of_nat (String.length text)).

(** The operators with the cause [x] and the effect [y], and an inserter
    of the cause [j]. *)
Definition inserter_of_x : VariableInserter.operator :=
  {| VariableInserter.cause_variable := "x";
     VariableInserter.effect_variable := "y" |}.

Definition inserter_of_j : VariableInserter.operator :=
  {| VariableInserter.cause_variable := "j";
     VariableInserter.effect_variable := "y" |}.

Definition replacer_of_x : VariableReplacer.operator :=
  {| VariableReplacer.cause_variable := "x";
     VariableReplacer.effect_variable := Some "y" |}.

(** The replacer as the first of [VariableReplacer.examples] builds it:
    with the cause only. *)
Definition replacer_without_effect : VariableReplacer.operator :=
  {| VariableReplacer.cause_variable := "x";
     VariableReplacer.effect_variable := None |}.

(** A [randint] that returns ten at every call. *)
Definition ten (drawn : nat) : Z := 10.

(** A [random.choice] that returns the plus sign at every call. *)
Definition always_plus (drawn : nat) : VariableInserter.sign :=
  VariableInserter.plus.

(** The children of the statement [a = b = x + z], with the sum of the
    second line as its right-hand side. *)
Definition chained : list parso.node :=
  [ parso.Leaf "name" "a" "    " (2, 0) (2, 1);
    parso.Leaf "operator" "=" " " (2, 2) (2, 3);
    parso.Leaf "name" "b" " " (2, 4) (2, 5);
    parso.Leaf "operator" "=" " " (2, 6) (2, 7);
    sum ].

End sample.

(* ===================================================================== *)
(** * Part II: properties *)
(* ===================================================================== *)

(** ** Python lists *)

Module PyFacts.

Import Py.

Lemma list_index_absent (x : string) (l : list string) :
  x ∉ l -> list_index x l = raise (ValueError ("'" +:+ x +:+ "' is not in list")).
Proof.
  induction l as [|y l IH]; intros Hx; simpl; [reflexivity|].
  apply not_elem_of_cons in Hx as [Hne Hl].
  destruct (decide (y = x)) as [->|_]; [contradiction|].
  rewrite (IH Hl). reflexivity.
Qed.

Lemma list_index_present (x : string) (l : list string) :
  x ∈ l ->
  exists i : nat, list_index x l = ok (Z.of_nat i) /\ l !! i = Some x
                  /\ x ∉ take i l.
Proof.
  induction l as [|y l IH]; intros Hx; [by apply elem_of_nil in Hx|].
  simpl. destruct (decide (y = x)) as [->|Hne].
  - exists 0%nat. split; [reflexivity|]. split; [reflexivity|].
    simpl. apply not_elem_of_nil.
  - apply elem_of_cons in Hx as [->|Hx]; [contradiction|].
    destruct (IH Hx) as (i & Hi & Hl & Hfirst).
    exists (S i). rewrite Hi. simpl. split.
    + unfold ok. f_equal. lia.
    + split; [exact Hl|].
      apply not_elem_of_cons. split; [congruence | exact Hfirst].
Qed.

Lemma norm_index_nat {A : Type} (l : list A) (i : nat) :
  (i < length l)%nat -> norm_index l (Z.of_nat i) = Some i.
Proof.
  intros Hi. unfold norm_index.
  destruct (Z.ltb_spec (Z.of_nat i) 0) as [?|_]; [lia|].
  destruct (Z.leb_spec 0 (Z.of_nat i)) as [_|?]; [|lia].
  destruct (Z.ltb_spec (Z.of_nat i) (Z.of_nat (length l))) as [_|?]; [|lia].
  simpl. by rewrite Nat2Z.id.
Qed.

Lemma getitem_nat {A : Type} (l : list A) (i : nat) (x : A) :
  l !! i = Some x -> getitem l (Z.of_nat i) = ok x.
Proof.
  intros Hx. unfold getitem.
  rewrite norm_index_nat by (by eapply lookup_lt_Some).
  by rewrite Hx.
Qed.

Lemma setitem_nat {A : Type} (l : list A) (i : nat) (x : A) :
  (i < length l)%nat -> setitem l (Z.of_nat i) x = ok (<[i := x]> l).
Proof. intros Hi. unfold setitem. by rewrite norm_index_nat. Qed.

Lemma delitem_nat {A : Type} (l : list A) (i : nat) :
  (i < length l)%nat -> delitem l (Z.of_nat i) = ok (delete i l).
Proof. intros Hi. unfold delitem. by rewrite norm_index_nat. Qed.

End PyFacts.

(** ** Strings *)

Module StringFacts.

Lemma append_cons (c : ascii) (a b : string) :
  String c a +:+ b = String c (a +:+ b).
Proof. reflexivity. Qed.

Lemma append_nil (b : string) : EmptyString +:+ b = b.
Proof. reflexivity. Qed.

Lemma length_append (a b : string) :
  String.length (a +:+ b) = (String.length a + String.length b)%nat.
Proof.
  induction a as [|c a IH]; [reflexivity|].
  rewrite append_cons. simpl. by rewrite IH.
Qed.

Lemma append_assoc (a b c : string) : (a +:+ b) +:+ c = a +:+ (b +:+ c).
Proof.
  induction a as [|x a IH]; [reflexivity|].
  rewrite !append_cons. by rewrite IH.
Qed.

Lemma append_inj_l (s a b : string) : s +:+ a = s +:+ b -> a = b.
Proof.
  induction s as [|c s IH]; intros H; [exact H|].
  rewrite !append_cons in H. injection H as H. by apply IH.
Qed.

Lemma append_inj_r (s a b : string) : a +:+ s = b +:+ s -> a = b.
Proof.
  revert b. induction a as [|c a IH]; intros [|d b] H.
  - reflexivity.
  - apply (f_equal String.length) in H.
    rewrite !length_append in H. simpl in H. lia.
  - apply (f_equal String.length) in H.
    rewrite !length_append in H. simpl in H. lia.
  - rewrite !append_cons in H. injection H as -> H. f_equal. by apply IH.
Qed.

End StringFacts.

(** ** The lexer *)

Module ShlexFacts.

Import Py shlex.

Lemma append_empty_r (s : string) : s +:+ EmptyString = s.
Proof.
  induction s as [|c s IH]; [reflexivity|].
  by rewrite StringFacts.append_cons, IH.
Qed.

Lemma snoc_append (token : string) (c : ascii) (rest : string) :
  snoc token c +:+ rest = token +:+ String c rest.
Proof. unfold snoc. by rewrite StringFacts.append_assoc. Qed.

Lemma plain_append (a b : string) : plain (a +:+ b) = plain a && plain b.
Proof.
  induction a as [|c a IH]; [reflexivity|].
  rewrite StringFacts.append_cons. simpl. rewrite IH.
  by rewrite andb_assoc.
Qed.

Lemma plain_char_classes (c : ascii) :
  plain_char c = true ->
  is_whitespace c = false /\ is_quote c = false /\ is_escape c = false.
Proof.
  unfold plain_char. intros H.
  apply andb_prop in H as [H Hescape]. apply andb_prop in H as [Hws Hquote].
  by rewrite <- !negb_true_iff.
Qed.

(** Inside a word, plain characters are added to the token. *)
Lemma lex_word_plain (p token : string) (quoted : bool) (esc : state) :
  plain p = true ->
  lex in_word token quoted esc p = ok (emitted (token +:+ p) quoted).
Proof.
  revert token. induction p as [|c p IH]; intros token Hp.
  - simpl. by rewrite append_empty_r.
  - simpl in Hp. apply andb_prop in Hp as [Hc Hp].
    destruct (plain_char_classes c Hc) as (Hws & Hq & He).
    cbn [lex]. rewrite Hws, Hq, He.
    rewrite (IH _ Hp). by rewrite snoc_append.
Qed.

(** After whitespace, a plain word is one token. *)
Lemma lex_whitespace_plain (p : string) (quoted : bool) (esc : state) :
  plain p = true -> p <> EmptyString ->
  lex in_whitespace EmptyString quoted esc p = ok [p].
Proof.
  destruct p as [|c p]; intros Hp Hne; [done|].
  simpl in Hp. apply andb_prop in Hp as [Hc Hp].
  destruct (plain_char_classes c Hc) as (Hws & Hq & He).
  cbn [lex]. rewrite Hws, Hq, He.
  rewrite (lex_word_plain p _ _ _ Hp).
  by rewrite StringFacts.append_cons, StringFacts.append_nil.
Qed.

(** A plain word added after a space to a text that splits is one more
    token at the end. *)
Lemma lex_append_plain (p : string) :
  plain p = true -> p <> EmptyString ->
  forall (input : string) (st : state) (token : string) (quoted : bool)
         (esc : state) (toks : list string),
    lex st token quoted esc input = inr toks ->
    lex st token quoted esc (input +:+ " " +:+ p) = inr (toks ++ [p]).
Proof.
  intros Hp Hne. induction input as [|c input IH];
    intros st token quoted esc toks Hlex.
  - rewrite StringFacts.append_nil.
    change (" " +:+ p) with (String " "%char p).
    assert (toks = emitted token quoted
            /\ (st = in_whitespace \/ st = in_word)) as [-> Hst].
    { destruct st; simpl in Hlex; try discriminate;
        injection Hlex as <-; auto. }
    assert (lex st token quoted esc (String " "%char p)
            = if negb (bool_decide (token = EmptyString)) || quoted
              then rbind (lex in_whitespace EmptyString false in_whitespace p)
                     (fun toks => ok (token :: toks))
              else lex in_whitespace token quoted esc p) as ->.
    { by destruct Hst as [-> | ->]. }
    unfold emitted. case_bool_decide as Htok; destruct quoted;
      cbn [negb orb andb].
    + by rewrite (lex_whitespace_plain p _ _ Hp Hne).
    + subst token. by rewrite (lex_whitespace_plain p _ _ Hp Hne).
    + by rewrite (lex_whitespace_plain p _ _ Hp Hne).
    + by rewrite (lex_whitespace_plain p _ _ Hp Hne).
  - rewrite StringFacts.append_cons. cbn [lex] in *.
    destruct st.
    + destruct (is_whitespace c).
      * destruct (negb (bool_decide (token = EmptyString)) || quoted).
        -- destruct (lex in_whitespace EmptyString false in_whitespace input)
             as [e|toks'] eqn:Hrest; [discriminate|].
           cbn [rbind] in Hlex. injection Hlex as <-.
           by rewrite (IH _ _ _ _ _ Hrest).
        -- by apply IH.
      * destruct (is_escape c); [by apply IH|].
        destruct (is_quote c); by apply IH.
    + destruct (is_whitespace c).
      * destruct (negb (bool_decide (token = EmptyString)) || quoted).
        -- destruct (lex in_whitespace EmptyString false in_whitespace input)
             as [e|toks'] eqn:Hrest; [discriminate|].
           cbn [rbind] in Hlex. injection Hlex as <-.
           by rewrite (IH _ _ _ _ _ Hrest).
        -- by apply IH.
      * destruct (is_quote c); [by apply IH|].
        destruct (is_escape c); by apply IH.
    + destruct (bool_decide (c = q)); [by apply IH|].
      destruct (is_escape c && is_escapedquote q); by apply IH.
    + by apply IH.
Qed.

Lemma split_append_plain (input p : string) (toks : list string) :
  plain p = true -> p <> EmptyString ->
  split input = inr toks ->
  split (input +:+ " " +:+ p) = inr (toks ++ [p]).
Proof. intros Hp Hne. by apply lex_append_plain. Qed.

End ShlexFacts.

(** ** The local distributor *)

Module LocalDistributorFacts.

Import Py LocalDistributor.

Section Run.

Context {Mutation Timeout Config WorkResult : Type}.
Variable mutate_and_test :
  list Mutation -> string -> Timeout -> result WorkResult.
Variable test_command : string.
Variable timeout : Timeout.
Variable cfg : Config.
Variable on_task_complete : string -> WorkResult -> result unit.

Local Abbreviation process ws :=
  (_process mutate_and_test ws test_command timeout cfg on_task_complete).
Local Abbreviation body :=
  (loop_body mutate_and_test test_command timeout on_task_complete).
Local Abbreviation test_of w n :=
  (mutate_and_test (mutations w) (command_for test_command n w) timeout).
Local Abbreviation called w n :=
  (mutate_and_test_called (WorkResult := WorkResult)
     (mutations w) (command_for test_command n w) timeout).
Local Abbreviation seq_run :=
  (sequential mutate_and_test test_command timeout on_task_complete).
Local Abbreviation all_return :=
  (LocalDistributor.all_return mutate_and_test test_command timeout
     on_task_complete).

(** *** The loop body *)

Lemma loop_body_malformed (w : WorkItem Mutation) (e : exception) :
  n_tests_of test_command = inl e -> body w = ([], inl e).
Proof.
  unfold n_tests_of, loop_body. intros H.
  destruct (shlex.split test_command) as [e1|toks]; simpl in *.
  { by injection H as ->. }
  destruct (list_index "-t" toks) as [e2|i]; simpl in *.
  { by injection H as ->. }
  by rewrite H.
Qed.

Lemma loop_body_parsed (w : WorkItem Mutation) (n : string) :
  n_tests_of test_command = inr n ->
  body w =
    match test_of w n with
    | inl e => ([called w n], inl e)
    | inr r =>
        ([called w n; on_task_complete_called (job_id w) r],
         on_task_complete (job_id w) r)
    end.
Proof.
  unfold n_tests_of, loop_body, command_for. intros H.
  destruct (shlex.split test_command) as [e1|toks]; simpl in *; [done|].
  destruct (list_index "-t" toks) as [e2|i]; simpl in *; [done|].
  rewrite H. simpl.
  destruct (mutate_and_test _ _ _) as [e|r]; simpl; [done|].
  by destruct (on_task_complete _ _).
Qed.

Lemma process_cons (w : WorkItem Mutation) (ws : list (WorkItem Mutation)) :
  process (w :: ws) = bind (body w) (fun _ => process ws).
Proof. reflexivity. Qed.

(** *** Every run is a sequential run *)

Lemma process_sequential (ws : list (WorkItem Mutation)) :
  seq_run ws (process ws).1 (process ws).2.
Proof.
  induction ws as [|w ws IH]; [constructor|].
  rewrite process_cons.
  destruct (n_tests_of test_command) as [e|n] eqn:Hn.
  { rewrite (loop_body_malformed w e Hn). simpl. by constructor. }
  rewrite (loop_body_parsed w n Hn).
  destruct (test_of w n) as [e|r] eqn:Ht; simpl.
  { by eapply seq_test_raised. }
  destruct (on_task_complete (job_id w) r) as [e|[]] eqn:Hc; simpl.
  { by eapply seq_callback_raised. }
  destruct (process ws) as [tr out]; simpl in *.
  by eapply seq_next.
Qed.

Lemma sequential_prefix ws tr out :
  seq_run ws tr out -> completed_jobs tr `prefix_of` (job_id <$> ws).
Proof.
  induction 1; simpl.
  - done.
  - apply prefix_nil.
  - apply prefix_nil.
  - unfold completed_jobs; simpl. apply prefix_cons, prefix_nil.
  - unfold completed_jobs in *; simpl. by apply prefix_cons.
Qed.

Lemma sequential_returned ws tr :
  seq_run ws tr (inr tt) ->
  completed_jobs tr = job_id <$> ws /\ length (dispatched tr) = length ws.
Proof.
  remember (inr tt) as out eqn:Hout. induction 1; try discriminate.
  - done.
  - destruct (IHsequential Hout) as [IHc IHd].
    unfold completed_jobs in *; simpl. split; [by f_equal | by f_equal].
Qed.

Lemma sequential_all_return n ws tr out :
  n_tests_of test_command = inr n -> all_return n ws ->
  seq_run ws tr out -> out = inr tt.
Proof.
  intros Hn Hall. induction 1 as [|w ws e He|w ws n' e Hn' Ht
    |w ws n' r e Hn' Ht Hc|w ws n' r tr out Hn' Ht Hc Hrest IH].
  - done.
  - congruence.
  - assert (n' = n) as -> by congruence.
    destruct (Hall w) as (r & Hr & _); [left|]. congruence.
  - assert (n' = n) as -> by congruence.
    destruct (Hall w) as (r' & Hr & Hc'); [left|].
    assert (r' = r) as -> by congruence. congruence.
  - apply IH. intros w' Hw'. apply Hall. by right.
Qed.


(** *** Runs that are cut short and runs that go on *)

Lemma bind_assoc {A B C : Type} (m : run Mutation Timeout WorkResult A)
    (f : A -> run Mutation Timeout WorkResult B)
    (g : B -> run Mutation Timeout WorkResult C) :
  bind (bind m f) g = bind m (fun a => bind (f a) g).
Proof.
  destruct m as [tr [e|a]]; simpl; [reflexivity|].
  destruct (f a) as [tr1 [e|b]]; simpl; [reflexivity|].
  destruct (g b) as [tr2 out]. by rewrite app_assoc.
Qed.

Lemma process_app (ws1 ws2 : list (WorkItem Mutation)) :
  process (ws1 ++ ws2) = bind (process ws1) (fun _ => process ws2).
Proof.
  unfold _process. induction ws1 as [|w ws1 IH]; simpl.
  - by destruct (for_each _ ws2).
  - rewrite IH. by rewrite bind_assoc.
Qed.

Lemma process_all_return (n : string) (ws : list (WorkItem Mutation)) :
  n_tests_of test_command = inr n -> all_return n ws ->
  (process ws).2 = inr tt.
Proof.
  intros Hn Hall.
  eapply sequential_all_return; [exact Hn | exact Hall |].
  apply process_sequential.
Qed.


(** *** The callback contract *)


(** *** A command without ['-t'] *)

(** Claim C2, as amended.  When the test command splits into tokens none
    of which is ['-t'], no work item is dispatched: the trace of the run is
    empty, so [mutate_and_test] is never awaited and the callback is never
    called.  With at least one work item the run raises the [ValueError]
    of [list.index] while it handles the first one; with no work item the
    loop body never runs and the run returns normally. *)
Theorem malformed_command_dispatches_nothing
    (ws : list (WorkItem Mutation)) (toks : list string) :
  shlex.split test_command = inr toks ->
  "-t" ∉ toks ->
  (process ws).1 = []
  /\ (ws <> [] -> (process ws).2 = inl (ValueError "'-t' is not in list"))
  /\ (ws = [] -> (process ws).2 = inr tt).
Proof.
  intros Hsplit Hno.
  assert (n_tests_of test_command = inl (ValueError "'-t' is not in list"))
    as Hn.
  { unfold n_tests_of. rewrite Hsplit. simpl.
    by rewrite (PyFacts.list_index_absent _ _ Hno). }
  destruct ws as [|w ws].
  - split; [reflexivity|]. split; [done | reflexivity].
  - rewrite process_cons, (loop_body_malformed w _ Hn). simpl.
    split; [reflexivity|]. split; [reflexivity | done].
Qed.

(** *** Exceptions are not contained *)

(** Claim C3, as amended.  Let the test command be well formed and let
    the work items before [w] be handled without an exception.  A failure
    that [mutate_and_test] reports in the result it returns for [w] is
    handed to the callback and the run goes on with the work items after
    [w].  An exception raised for [w], by [mutate_and_test] or by the
    callback, is not caught: it ends the run; the work items before [w]
    have had their callback, and for the work items after [w] neither a
    test nor a callback takes place. *)
Theorem exception_ends_the_run
    (before after : list (WorkItem Mutation)) (w : WorkItem Mutation)
    (n : string) :
  n_tests_of test_command = inr n ->
  all_return n before ->
  (forall e, test_of w n = inl e ->
     process (before ++ w :: after)
     = ((process before).1 ++ [called w n], inl e)
     /\ completed_jobs (process (before ++ w :: after)).1
        = job_id <$> before)
  /\ (forall r e, test_of w n = inr r ->
        on_task_complete (job_id w) r = inl e ->
        process (before ++ w :: after)
        = ((process before).1
             ++ [called w n; on_task_complete_called (job_id w) r], inl e))
  /\ (forall r, test_of w n = inr r ->
        on_task_complete (job_id w) r = inr tt ->
        process (before ++ w :: after)
        = ((process before).1
             ++ [called w n; on_task_complete_called (job_id w) r]
             ++ (process after).1,
           (process after).2)).
Proof.
  intros Hn Hall.
  pose proof (process_all_return n before Hn Hall) as Hout.
  pose proof (process_sequential before) as Hseq. rewrite Hout in Hseq.
  destruct (sequential_returned _ _ Hseq) as [Hjobs _].
  rewrite process_app, process_cons, (loop_body_parsed w n Hn).
  destruct (process before) as [tr out]; simpl in *. subst out.
  split; [|split].
  - intros e He. rewrite He. simpl. split; [reflexivity|].
    unfold completed_jobs, callbacks in *.
    rewrite omap_app. simpl. by rewrite app_nil_r.
  - intros r e Hr Hc. rewrite Hr, Hc. reflexivity.
  - intros r Hr Hc. rewrite Hr, Hc. simpl.
    by destruct (process after).
Qed.

(** *** The order of a run *)

(** Claim C4, as amended.  The work items are handled one at a time, in
    the order of [pending_work]: every run is a sequential run, in which
    the test of a work item is awaited and its callback is called before
    the next work item is started.  The job ids passed to the callback are
    therefore an initial part of the submission order, and the whole of it,
    in the same order, when the run returns; it returns when the command is
    well formed and every work item is handled without an exception. *)
Theorem processes_in_submission_order (ws : list (WorkItem Mutation)) :
  seq_run ws (process ws).1 (process ws).2
  /\ completed_jobs (process ws).1 `prefix_of` (job_id <$> ws)
  /\ ((process ws).2 = inr tt ->
      completed_jobs (process ws).1 = job_id <$> ws)
  /\ (forall n, n_tests_of test_command = inr n -> all_return n ws ->
      (process ws).2 = inr tt
      /\ completed_jobs (process ws).1 = job_id <$> ws).
Proof.
  pose proof (process_sequential ws) as Hseq.
  split; [exact Hseq|]. split; [by eapply sequential_prefix|].
  assert ((process ws).2 = inr tt ->
          completed_jobs (process ws).1 = job_id <$> ws) as Hret.
  { intros Hout. rewrite Hout in Hseq.
    by destruct (sequential_returned _ _ Hseq). }
  split; [exact Hret|].
  intros n Hn Hall.
  pose proof (process_all_return n ws Hn Hall) as Hout. auto.
Qed.


End Run.

(** *** The command as the test runner reads it *)

Lemma output_option_path (n job : string) :
  output_option n job = " -o " +:+ output_path n job.
Proof. reflexivity. Qed.

Lemma output_path_plain (n job : string) :
  shlex.plain n = true -> shlex.plain job = true ->
  shlex.plain (output_path n job) = true /\ output_path n job <> EmptyString.
Proof.
  intros Hn Hjob. split; [|done].
  unfold output_path. rewrite !ShlexFacts.plain_append, Hn, Hjob.
  reflexivity.
Qed.

(** Claim C5, as amended.  Let the test command split into the tokens
    [toks], with the token [n] after the first ['-t'], and let [n] and the
    job ids of two work items be plain words: they hold no whitespace, no
    quote and no backslash.  For each of the two work items the loop body
    hands to [mutate_and_test] the test command followed by
    [ -o tn/job.json]; split the way [_process] splits the test command,
    that command gives the tokens of the test command, then ['-o'], then
    the path [tn/job.json]; and when the job ids differ, so do the two
    paths. *)
Theorem distinct_jobs_get_distinct_output_paths
    {Mutation Timeout WorkResult : Type}
    (mutate_and_test : list Mutation -> string -> Timeout -> result WorkResult)
    (test_command : string) (timeout : Timeout)
    (on_task_complete : string -> WorkResult -> result unit)
    (toks : list string) (n : string) (w1 w2 : WorkItem Mutation) :
  shlex.split test_command = inr toks ->
  n_tests_of test_command = inr n ->
  shlex.plain n = true ->
  shlex.plain (job_id w1) = true ->
  shlex.plain (job_id w2) = true ->
  job_id w1 <> job_id w2 ->
  dispatched
    (loop_body mutate_and_test test_command timeout on_task_complete w1).1
  = [test_command +:+ " -o " +:+ "t" +:+ n +:+ "/" +:+ job_id w1 +:+ ".json"]
  /\ dispatched
       (loop_body mutate_and_test test_command timeout on_task_complete w2).1
     = [test_command +:+ " -o " +:+ "t" +:+ n +:+ "/" +:+ job_id w2
          +:+ ".json"]
  /\ shlex.split
       (test_command +:+ " -o " +:+ "t" +:+ n +:+ "/" +:+ job_id w1
          +:+ ".json")
     = inr (toks ++ ["-o"; "t" +:+ n +:+ "/" +:+ job_id w1 +:+ ".json"])
  /\ shlex.split
       (test_command +:+ " -o " +:+ "t" +:+ n +:+ "/" +:+ job_id w2
          +:+ ".json")
     = inr (toks ++ ["-o"; "t" +:+ n +:+ "/" +:+ job_id w2 +:+ ".json"])
  /\ "t" +:+ n +:+ "/" +:+ job_id w1 +:+ ".json"
     <> "t" +:+ n +:+ "/" +:+ job_id w2 +:+ ".json".
Proof.
  intros Hsplit Hn Hplain H1 H2 Hne.
  assert (forall w : WorkItem Mutation,
            dispatched
              (loop_body mutate_and_test test_command timeout
                 on_task_complete w).1
            = [test_command +:+ " -o " +:+ "t" +:+ n +:+ "/" +:+ job_id w
                 +:+ ".json"]) as Hsent.
  { intros w. rewrite (loop_body_parsed _ _ _ _ w n Hn).
    by destruct (mutate_and_test _ _ _). }
  assert (forall w : WorkItem Mutation,
            shlex.plain (job_id w) = true ->
            shlex.split
              (test_command +:+ " -o " +:+ "t" +:+ n +:+ "/" +:+ job_id w
                 +:+ ".json")
            = inr (toks ++ ["-o"; "t" +:+ n +:+ "/" +:+ job_id w
                                    +:+ ".json"])) as Hread.
  { intros w Hw.
    destruct (output_path_plain n (job_id w) Hplain Hw) as [Hpath Hfull].
    change ("t" +:+ n +:+ "/" +:+ job_id w +:+ ".json")
      with (output_path n (job_id w)).
    change (" -o " +:+ output_path n (job_id w))
      with (" " +:+ "-o" +:+ " " +:+ output_path n (job_id w)).
    rewrite <- !StringFacts.append_assoc.
    rewrite (StringFacts.append_assoc _ " " (output_path n (job_id w))).
    rewrite (ShlexFacts.split_append_plain _ _ (toks ++ ["-o"]) Hpath Hfull).
    - by rewrite <- app_assoc.
    - rewrite StringFacts.append_assoc.
      by apply ShlexFacts.split_append_plain. }
  split; [apply Hsent|]. split; [apply Hsent|].
  split; [by apply Hread|]. split; [by apply Hread|].
  intros Heq. apply Hne.
  apply StringFacts.append_inj_l in Heq.
  apply StringFacts.append_inj_l in Heq.
  apply StringFacts.append_inj_l in Heq.
  by apply StringFacts.append_inj_r in Heq.
Qed.

(** When the token after ['-t'] and the job id are plain words, a test
    runner that splits the command it is given the way [_process] splits
    the test command finds the tokens of the test command followed by
    [-o] and the output path of the job; for two plain job ids that differ,
    the paths differ. *)
Theorem dispatched_command_ends_with_output_path
    {Mutation : Type} (test_command n : string) (toks : list string)
    (w1 w2 : WorkItem Mutation) :
  shlex.split test_command = inr toks ->
  shlex.plain n = true ->
  shlex.plain (job_id w1) = true ->
  shlex.plain (job_id w2) = true ->
  shlex.split (command_for test_command n w1)
  = inr (toks ++ ["-o"; output_path n (job_id w1)])
  /\ shlex.split (command_for test_command n w2)
     = inr (toks ++ ["-o"; output_path n (job_id w2)])
  /\ (job_id w1 <> job_id w2 ->
      output_path n (job_id w1) <> output_path n (job_id w2)).
Proof.
  intros Hsplit Hn H1 H2.
  assert (forall w : WorkItem Mutation,
            shlex.plain (job_id w) = true ->
            shlex.split (command_for test_command n w)
            = inr (toks ++ ["-o"; output_path n (job_id w)])) as Hcmd.
  { intros w Hw. unfold command_for. rewrite output_option_path.
    destruct (output_path_plain n (job_id w) Hn Hw) as [Hplain Hne].
    change (" -o " +:+ output_path n (job_id w))
      with (" " +:+ "-o" +:+ " " +:+ output_path n (job_id w)).
    rewrite <- !StringFacts.append_assoc.
    rewrite (StringFacts.append_assoc _ " " (output_path n (job_id w))).
    rewrite (ShlexFacts.split_append_plain _ _ (toks ++ ["-o"]) Hplain Hne).
    - by rewrite <- app_assoc.
    - rewrite StringFacts.append_assoc.
      by apply ShlexFacts.split_append_plain. }
  split; [by apply Hcmd|]. split; [by apply Hcmd|].
  intros Hne Heq. apply Hne. unfold output_path in Heq.
  apply StringFacts.append_inj_l in Heq.
  apply StringFacts.append_inj_l in Heq.
  apply StringFacts.append_inj_l in Heq.
  by apply StringFacts.append_inj_r in Heq.
Qed.

(** When ['-t'] is the last token of the command, the subscript after it
    is out of range: with a work item to handle the run raises
    [IndexError] before anything is dispatched. *)
Theorem missing_value_after_t
    {Mutation Timeout Config WorkResult : Type}
    (mutate_and_test : list Mutation -> string -> Timeout -> result WorkResult)
    (test_command : string) (timeout : Timeout) (cfg : Config)
    (on_task_complete : string -> WorkResult -> result unit)
    (toks : list string) (w : WorkItem Mutation)
    (ws : list (WorkItem Mutation)) :
  shlex.split test_command = inr (toks ++ ["-t"]) ->
  "-t" ∉ toks ->
  _process mutate_and_test (w :: ws) test_command timeout cfg on_task_complete
  = ([], inl (IndexError "list index out of range")).
Proof.
  intros Hsplit Hno.
  assert (n_tests_of test_command
          = inl (IndexError "list index out of range")) as Hn.
  { unfold n_tests_of. rewrite Hsplit. cbn [rbind].
    destruct (PyFacts.list_index_present "-t" (toks ++ ["-t"]))
      as (i & Hi & Hlook & Hfirst).
    { apply elem_of_app. right. left. }
    assert (i = length toks) as ->.
    { destruct (decide (i < length toks)%nat) as [Hlt|Hge].
      - rewrite lookup_app_l in Hlook by done.
        exfalso. apply Hno. by eapply list_elem_of_lookup_2.
      - apply lookup_lt_Some in Hlook. rewrite length_app in Hlook.
        simpl in Hlook. lia. }
    rewrite Hi. cbn [rbind]. unfold getitem, norm_index.
    rewrite length_app. simpl.
    destruct (Z.ltb_spec (Z.of_nat (length toks) + 1) 0) as [?|_]; [lia|].
    destruct (Z.leb_spec 0 (Z.of_nat (length toks) + 1)) as [_|?]; [|lia].
    destruct (Z.ltb_spec (Z.of_nat (length toks) + 1)
                (Z.of_nat (length toks + 1))) as [?|_]; [lia|].
    reflexivity. }
  rewrite process_cons, (loop_body_malformed _ _ _ _ w _ Hn).
  reflexivity.
Qed.

(** *** The statements on sample runs *)

Import sample.

Lemma dispatched_command_ends_with_output_path_witness :
  shlex.split (command_for well_formed "5" first_item)
  = inr ["pytest"; "-x"; "-t"; "5"; "tests"; "-o"; "t5/a1.json"].
Proof.
  destruct (dispatched_command_ends_with_output_path well_formed "5"
              ["pytest"; "-x"; "-t"; "5"; "tests"] first_item second_item
              eq_refl eq_refl eq_refl eq_refl)
    as (Hfirst & _ & _).
  exact Hfirst.
Defined.

Lemma missing_value_after_t_witness :
  _process passing [first_item; second_item] "pytest tests -t" 10 tt record
  = ([], inl (IndexError "list index out of range")).
Proof.
  apply (missing_value_after_t passing "pytest tests -t" 10 tt record
           ["pytest"; "tests"] first_item [second_item] eq_refl).
  apply (bool_decide_unpack _). vm_compute. exact I.
Defined.



Lemma malformed_command_dispatches_nothing_witness :
  shlex.split without_t = inr ["pytest"; "-x"; "tests"]
  /\ (_process passing [first_item; second_item] without_t 10 tt record).1
     = []
  /\ (_process passing [first_item; second_item] without_t 10 tt record).2
     = inl (ValueError "'-t' is not in list").
Proof.
  assert (shlex.split without_t = inr ["pytest"; "-x"; "tests"]) as Hs
    by reflexivity.
  assert ("-t" ∉ ["pytest"; "-x"; "tests"]) as Hno.
  { apply (bool_decide_unpack _). vm_compute. exact I. }
  destruct (malformed_command_dispatches_nothing passing without_t 10 tt
              record [first_item; second_item] _ Hs Hno)
    as (Htr & Hraise & _).
  split; [exact Hs|]. split; [exact Htr|]. by apply Hraise.
Defined.

(** Claim C2 as the specification states it fails when no work item is
    pending: the command has no ['-t'], and yet the run returns normally,
    with no error of any kind. *)
Lemma malformed_command_with_no_work_returns :
  n_tests_of without_t = inl (ValueError "'-t' is not in list")
  /\ _process passing [] without_t 10 tt record = ([], inr tt).
Proof.
  split; reflexivity.
Qed.

Lemma exception_ends_the_run_witness :
  _process raising_on_broken [first_item; broken_item; second_item]
    well_formed 10 tt record
  = ([mutate_and_test_called ["NoOp"] "pytest -x -t 5 tests -o t5/a1.json" 10;
      on_task_complete_called "a1" true;
      mutate_and_test_called ["broken"] "pytest -x -t 5 tests -o t5/c3.json"
        10],
     inl (Raised "mutation failed")).
Proof.
  assert (n_tests_of well_formed = inr "5") as Hn by reflexivity.
  assert (all_return raising_on_broken well_formed 10 record "5"
            [first_item]) as Hall.
  { intros w Hw. apply list_elem_of_singleton in Hw as ->.
    exists true. split; reflexivity. }
  destruct (exception_ends_the_run raising_on_broken well_formed 10 tt record
              [first_item] [second_item] broken_item "5" Hn Hall)
    as (Hraise & _).
  destruct (Hraise (Raised "mutation failed") eq_refl) as [Hrun _].
  exact Hrun.
Defined.

(** Claim C3 as the specification states it fails when [mutate_and_test]
    raises: the error raised for the first work item ends the run, and the
    work item after it is neither tested nor reported to the callback. *)
Lemma raised_error_stops_the_later_items :
  second_item ∈ [broken_item; second_item]
  /\ (_process raising_on_broken [broken_item; second_item] well_formed 10 tt
        record).2
     = inl (Raised "mutation failed")
  /\ dispatched
       (_process raising_on_broken [broken_item; second_item] well_formed 10
          tt record).1
     = ["pytest -x -t 5 tests -o t5/c3.json"]
  /\ completed_jobs
       (_process raising_on_broken [broken_item; second_item] well_formed 10
          tt record).1
     = [].
Proof.
  split; [right; left|]. repeat split; reflexivity.
Qed.

Lemma processes_in_submission_order_witness :
  completed_jobs
    (_process passing [second_item; first_item] well_formed 10 tt record).1
  = ["b2"; "a1"].
Proof.
  destruct (processes_in_submission_order passing well_formed 10 tt record
              [second_item; first_item])
    as (_ & _ & Hreturned & _).
  apply Hreturned. reflexivity.
Defined.

Lemma distinct_jobs_get_distinct_output_paths_witness :
  dispatched (loop_body passing well_formed 10 record first_item).1
  = ["pytest -x -t 5 tests -o t5/a1.json"]
  /\ shlex.split "pytest -x -t 5 tests -o t5/a1.json"
     = inr ["pytest"; "-x"; "-t"; "5"; "tests"; "-o"; "t5/a1.json"]
  /\ shlex.split "pytest -x -t 5 tests -o t5/b2.json"
     = inr ["pytest"; "-x"; "-t"; "5"; "tests"; "-o"; "t5/b2.json"]
  /\ "t5/a1.json" <> "t5/b2.json".
Proof.
  assert (job_id first_item <> job_id second_item) as Hne by discriminate.
  destruct (distinct_jobs_get_distinct_output_paths passing well_formed 10
              record ["pytest"; "-x"; "-t"; "5"; "tests"] "5" first_item
              second_item eq_refl eq_refl eq_refl eq_refl eq_refl Hne)
    as (Hsent & _ & Hread1 & Hread2 & Hpaths).
  split; [exact Hsent|]. split; [exact Hread1|]. split; [exact Hread2|].
  exact Hpaths.
Defined.

(** Claim C5 as the specification states it fails where the option is
    read back, because it is appended as raw text.  The job ids ["a b"]
    and ["a c"] differ, and the argument that follows ['-o'] in the two
    commands is ["t5/a"] for both.  The job ids ["ab"], ["a\b"] and
    ["a'b'"] differ, and the argument that follows ['-o'] is ["t5/ab.json"]
    for the three.  With the command [pytest -t '5 6' tests] the token read
    after ['-t'] is ["5 6"], and the argument that follows ['-o'] is ["t5"]
    for the distinct job ids ["a1"] and ["b2"].  With a command without
    ['-t'] no command is handed to [mutate_and_test], so that no work item
    is given a path. *)
Lemma output_path_is_appended_unquoted :
  (job_id (item "a b" ["NoOp"]) <> job_id (item "a c" ["NoOp"])
   /\ dispatched
        (_process passing [item "a b" ["NoOp"]; item "a c" ["NoOp"]]
           well_formed 10 tt record).1
      = ["pytest -x -t 5 tests -o t5/a b.json";
         "pytest -x -t 5 tests -o t5/a c.json"]
   /\ shlex.split "pytest -x -t 5 tests -o t5/a b.json"
      = inr ["pytest"; "-x"; "-t"; "5"; "tests"; "-o"; "t5/a"; "b.json"]
   /\ shlex.split "pytest -x -t 5 tests -o t5/a c.json"
      = inr ["pytest"; "-x"; "-t"; "5"; "tests"; "-o"; "t5/a"; "c.json"])
  /\ (NoDup ["ab"; "a\b"; "a'b'"]
      /\ dispatched
           (_process passing
              [item "ab" ["NoOp"]; item "a\b" ["NoOp"]; item "a'b'" ["NoOp"]]
              well_formed 10 tt record).1
         = ["pytest -x -t 5 tests -o t5/ab.json";
            "pytest -x -t 5 tests -o t5/a\b.json";
            "pytest -x -t 5 tests -o t5/a'b'.json"]
      /\ shlex.split "pytest -x -t 5 tests -o t5/ab.json"
         = inr ["pytest"; "-x"; "-t"; "5"; "tests"; "-o"; "t5/ab.json"]
      /\ shlex.split "pytest -x -t 5 tests -o t5/a\b.json"
         = inr ["pytest"; "-x"; "-t"; "5"; "tests"; "-o"; "t5/ab.json"]
      /\ shlex.split "pytest -x -t 5 tests -o t5/a'b'.json"
         = inr ["pytest"; "-x"; "-t"; "5"; "tests"; "-o"; "t5/ab.json"])
  /\ (job_id first_item <> job_id second_item
      /\ n_tests_of "pytest -t '5 6' tests" = inr "5 6"
      /\ dispatched
           (_process passing [first_item; second_item]
              "pytest -t '5 6' tests" 10 tt record).1
         = ["pytest -t '5 6' tests -o t5 6/a1.json";
            "pytest -t '5 6' tests -o t5 6/b2.json"]
      /\ shlex.split "pytest -t '5 6' tests -o t5 6/a1.json"
         = inr ["pytest"; "-t"; "5 6"; "tests"; "-o"; "t5"; "6/a1.json"]
      /\ shlex.split "pytest -t '5 6' tests -o t5 6/b2.json"
         = inr ["pytest"; "-t"; "5 6"; "tests"; "-o"; "t5"; "6/b2.json"])
  /\ dispatched
       (_process passing [first_item; second_item] without_t 10 tt record).1
     = [].
Proof.
  split; [|split; [|split]].
  - split; [discriminate|]. repeat split; reflexivity.
  - split; [apply (bool_decide_unpack _); vm_compute; exact I|].
    repeat split; reflexivity.
  - split; [discriminate|]. repeat split; reflexivity.
  - reflexivity.
Qed.

(** Claim C4 as the specification states it fails on a run that is cut
    short.  With a test that raises for the second of three work items, the
    callback has been called for the first job only: the sequence of its
    calls is not the submission order of the three job ids. *)
Lemma callbacks_stop_short_of_the_submission_order :
  job_id <$> [first_item; broken_item; second_item] = ["a1"; "c3"; "b2"]
  /\ completed_jobs
       (_process raising_on_broken [first_item; broken_item; second_item]
          well_formed 10 tt record).1
     = ["a1"]
  /\ completed_jobs
       (_process raising_on_broken [first_item; broken_item; second_item]
          well_formed 10 tt record).1
     <> job_id <$> [first_item; broken_item; second_item].
Proof.
  split; [reflexivity|]. split; [reflexivity|]. discriminate.
Qed.

End LocalDistributorFacts.

(** ** The operators *)

Module OperatorFacts.

Import Py parso.

(** *** The no-op operator *)

Lemma apply_all_no_op (source : parso.node) (variants : list Z) :
  engine.apply_all source (engine.apply_operator NoOp.operator) variants
  = Some source.
Proof.
  unfold engine.apply_all.
  induction variants as [|v variants IH]; [reflexivity|].
  simpl. exact IH.
Qed.

(** Claim C6.  [NoOp.mutate] returns the node it is given, whatever the
    node and the index; the code of the mutated tree is the code of the
    original; and when the test command passes on the original, a work
    item whose mutations are all no-ops is recorded with
    [survived = true], as a complete run when the tests finish within the
    timeout. *)
Theorem no_op_mutate_is_identity (node : parso.node) (index : Z) :
  NoOp.mutate node index = ok node
  /\ (forall mutated,
        NoOp.mutate node index = ok mutated ->
        get_code mutated = get_code node)
  /\ (forall (tests : parso.node -> string -> engine.test_process)
             (variants : list Z) (test_command : string)
             (timeout after : Z) (out : string),
        tests node test_command = engine.exits after 0 out ->
        exists res,
          engine.mutate_and_test node (engine.apply_operator NoOp.operator)
            tests variants test_command timeout = ok res
          /\ engine.survived (engine.outcome res) = true
          /\ (after <= timeout -> engine.terminal res = engine.COMPLETE)).
Proof.
  split; [reflexivity|]. split.
  - intros mutated H. injection H as <-. reflexivity.
  - intros tests variants test_command timeout after out Hpass.
    unfold engine.mutate_and_test. rewrite apply_all_no_op, Hpass.
    eexists. split; [reflexivity|].
    unfold engine.execute, engine.exceeds.
    destruct (Z.ltb_spec timeout after) as [Hlong|Hshort]; simpl.
    + split; [reflexivity | lia].
    + split; reflexivity.
Qed.

Lemma no_op_mutate_is_identity_witness :
  exists res,
    engine.mutate_and_test sample.for_loop
      (engine.apply_operator NoOp.operator)
      (fun _ _ => engine.exits 3 0 "ok") [0; 0] sample.well_formed 10
    = ok res
    /\ engine.survived (engine.outcome res) = true.
Proof.
  destruct (no_op_mutate_is_identity sample.for_loop 0) as (_ & _ & Hsurvives).
  destruct (Hsurvives (fun _ _ => engine.exits 3 0 "ok") [0; 0]
              sample.well_formed 10 3 "ok" eq_refl)
    as (res & Hres & Hsurvived & _).
  exists res. split; [exact Hres | exact Hsurvived].
Defined.

(** *** The zero-iteration operator *)

Lemma zero_iteration_short_loop (cs : list node) :
  (length cs <= 3)%nat ->
  ZeroIterationForLoop.mutate (BaseNode ForStmt cs) 0
  = raise (IndexError "list assignment index out of range").
Proof.
  intros Hlen. unfold ZeroIterationForLoop.mutate, setitem, norm_index.
  simpl.
  destruct (Z.ltb_spec 3 (Z.of_nat (length cs))) as [?|_]; [lia|].
  reflexivity.
Qed.

(** Claim C9.  For a [ForStmt] whose fourth child is [expr],
    [mutation_positions] yields one site, the span of [expr]; for a node
    that is not a [ForStmt] it yields none.  [mutate] with index [0]
    returns the [ForStmt] whose fourth child is the tree of [" []"] and
    whose other children, the loop target and the loop body among them,
    are the children of the original at the same places. *)
Theorem zero_iteration_changes_only_the_iterable
    (cs : list node) (expr : node) (site : position * position) :
  cs !! 3%nat = Some expr ->
  span expr = ok site ->
  ZeroIterationForLoop.mutation_positions (BaseNode ForStmt cs) = ok [site]
  /\ (forall other,
        is_ForStmt other = false ->
        ZeroIterationForLoop.mutation_positions other = ok [])
  /\ exists cs',
       ZeroIterationForLoop.mutate (BaseNode ForStmt cs) 0
       = ok (BaseNode ForStmt cs')
       /\ cs' !! 3%nat = Some parse_empty_list
       /\ get_code parse_empty_list = " []"
       /\ length cs' = length cs
       /\ (forall i, i <> 3%nat -> cs' !! i = cs !! i).
Proof.
  intros Hexpr Hsite.
  assert (3 < length cs)%nat as Hlen by (by eapply lookup_lt_Some).
  split; [|split].
  - unfold ZeroIterationForLoop.mutation_positions. simpl.
    pose proof (PyFacts.getitem_nat cs 3 expr Hexpr) as Hget.
    change (Z.of_nat 3) with 3 in Hget. rewrite Hget. simpl.
    unfold span in Hsite.
    destruct (start_pos expr) as [e|s]; simpl in *; [done|].
    destruct (end_pos expr) as [e|e']; simpl in *; [done|].
    by injection Hsite as <-.
  - intros other Hother.
    unfold ZeroIterationForLoop.mutation_positions. by rewrite Hother.
  - exists (<[3%nat := parse_empty_list]> cs).
    split; [|split; [|split; [|split]]].
    + unfold ZeroIterationForLoop.mutate. simpl.
      pose proof (PyFacts.setitem_nat cs 3 parse_empty_list Hlen) as Hset.
      change (Z.of_nat 3) with 3 in Hset. by rewrite Hset.
    + by apply list_lookup_insert_eq.
    + reflexivity.
    + apply length_insert.
    + intros i Hi. by apply list_lookup_insert_ne.
Qed.

Lemma zero_iteration_changes_only_the_iterable_witness :
  ZeroIterationForLoop.mutation_positions sample.for_loop
  = ok [((1, 9), (1, 18))]
  /\ exists cs',
       ZeroIterationForLoop.mutate sample.for_loop 0
       = ok (BaseNode ForStmt cs')
       /\ cs' !! 3%nat = Some parse_empty_list
       /\ cs' !! 1%nat = sample.for_loop_children !! 1%nat
       /\ cs' !! 5%nat = sample.for_loop_children !! 5%nat.
Proof.
  destruct (zero_iteration_changes_only_the_iterable sample.for_loop_children
              _ ((1, 9), (1, 18)) eq_refl eq_refl)
    as (Hsites & _ & cs' & Hmut & Hnew & _ & _ & Hframe).
  split; [exact Hsites|].
  exists cs'. split; [exact Hmut|]. split; [exact Hnew|].
  split; apply Hframe; lia.
Defined.

(** The example of [ZeroIterationForLoop.examples]: the mutated loop
    reads [for i in []: pass]. *)
Lemma zero_iteration_example :
  ZeroIterationForLoop.examples
  = [(get_code sample.for_loop, "for i in []: pass")]
  /\ (fun r => match r with inr n => get_code n | inl _ => EmptyString end)
       (ZeroIterationForLoop.mutate sample.for_loop 0)
     = "for i in []: pass".
Proof. split; reflexivity. Qed.

(** The two assertions of [ZeroIterationForLoop.mutate]: an index other
    than [0], or a node that is not a [ForStmt], is refused with an
    [AssertionError]. *)
Theorem zero_iteration_asserts (node : parso.node) (index : Z) :
  index <> 0 \/ is_ForStmt node = false ->
  ZeroIterationForLoop.mutate node index = raise AssertionError.
Proof.
  intros H. unfold ZeroIterationForLoop.mutate.
  destruct (Z.eqb_spec index 0) as [->|Hne]; simpl.
  - destruct H as [H|H]; [done|]. by rewrite H.
  - reflexivity.
Qed.

Lemma zero_iteration_asserts_witness :
  ZeroIterationForLoop.mutate sample.for_loop 1 = raise AssertionError.
Proof.
  apply (zero_iteration_asserts sample.for_loop 1). left. lia.
Defined.

(** *** The decorator remover *)

Import ast.

Lemma select_names (keep : string -> bool) (ids : list string) :
  RemoveDecorator.select keep (Name <$> ids)
  = ok (Name <$> filter (fun i => keep i = true) ids).
Proof.
  induction ids as [|i ids IH]; [reflexivity|].
  rewrite fmap_cons. cbn [RemoveDecorator.select id rbind]. rewrite IH.
  unfold rbind, ok. rewrite filter_cons.
  destruct (keep i) eqn:Hkeep.
  - by rewrite decide_True.
  - by rewrite decide_False.
Qed.


Lemma not_regular_false (i : string) :
  RemoveDecorator.not_regular i = false <-> RemoveDecorator.is_regular i = true.
Proof.
  unfold RemoveDecorator.not_regular, RemoveDecorator.is_regular.
  repeat case_bool_decide; split; intros ?; try done; try discriminate.
Qed.










(** The sites that [visit_FunctionDef] announces are the indices that
    [mutate] accepts: a function with [n >= 1] candidates is announced
    with the count [n], a function with none is handed back as it is, and
    [mutate] raises [IndexError] for an index outside [-n <= idx < n]. *)
Theorem remove_decorator_sites
    {Body Visited : Type}
    (visit_mutation_site : FunctionDef Body -> Z -> Visited)
    (unchanged : FunctionDef Body -> Visited)
    (node : FunctionDef Body) (ids : list string) :
  decorator_list node = Name <$> ids ->
  RemoveDecorator.visit_FunctionDef visit_mutation_site unchanged node
  = ok (match RemoveDecorator.candidates ids with
        | [] => unchanged node
        | _ :: _ =>
            visit_mutation_site node
              (Z.of_nat (length (RemoveDecorator.candidates ids)))
        end)
  /\ (forall idx,
        idx < - Z.of_nat (length (RemoveDecorator.candidates ids))
        \/ Z.of_nat (length (RemoveDecorator.candidates ids)) <= idx ->
        RemoveDecorator.mutate node idx
        = raise (IndexError "list assignment index out of range")).
Proof.
  intros Hids. split.
  - unfold RemoveDecorator.visit_FunctionDef.
    rewrite Hids, select_names. cbn [rbind ok].
    change (filter (fun i => RemoveDecorator.not_regular i = true) ids)
      with (RemoveDecorator.candidates ids).
    destruct (RemoveDecorator.candidates ids) as [|i cands]; [reflexivity|].
    rewrite fmap_cons. cbn [length]. by rewrite length_fmap.
  - intros idx Hidx. unfold RemoveDecorator.mutate.
    rewrite Hids, select_names. cbn [rbind ok].
    change (filter (fun i => RemoveDecorator.not_regular i = true) ids)
      with (RemoveDecorator.candidates ids).
    unfold delitem, norm_index. rewrite length_fmap.
    destruct (Z.ltb_spec idx 0) as [Hneg|Hpos].
    + destruct (Z.leb_spec 0
                  (idx + Z.of_nat (length (RemoveDecorator.candidates ids))))
        as [Hlo|Hlo]; [|reflexivity].
      destruct (Z.ltb_spec
                  (idx + Z.of_nat (length (RemoveDecorator.candidates ids)))
                  (Z.of_nat (length (RemoveDecorator.candidates ids))))
        as [Hhi|Hhi]; [lia | reflexivity].
    + destruct (Z.leb_spec 0 idx) as [Hlo|Hlo]; [|reflexivity].
      destruct (Z.ltb_spec idx
                  (Z.of_nat (length (RemoveDecorator.candidates ids))))
        as [Hhi|Hhi]; [lia | reflexivity].
Qed.

Lemma remove_decorator_sites_witness :
  RemoveDecorator.visit_FunctionDef (fun _ n => n) (fun _ => 0)
    sample.decorated
  = ok 2.
Proof.
  destruct (remove_decorator_sites (fun _ n => n) (fun _ => 0)
              sample.decorated
              ["classmethod"; "foo"; "staticmethod"; "baz"] eq_refl)
    as [Hvisit _].
  exact Hvisit.
Defined.

End OperatorFacts.

(** ** Timeouts *)

Module TimeoutFacts.

Import Py LocalDistributor.

Section Timeout.

Context {Artifact Mutation Config : Type}.
Variable source : Artifact.
Variable apply_mutation : Artifact -> Mutation -> option Artifact.
Variable test_process_of : Artifact -> string -> engine.test_process.
Variable test_command : string.
Variable timeout : Z.
Variable cfg : Config.
Variable on_task_complete : string -> engine.WorkResult -> result unit.

Local Abbreviation mutate_and_test :=
  (engine.mutate_and_test source apply_mutation test_process_of).
Local Abbreviation process ws :=
  (_process mutate_and_test ws test_command timeout cfg on_task_complete).




End Timeout.

Import sample.


End TimeoutFacts.

(** ** More on the runs of the local distributor *)

Module LocalRunFacts.

Import Py LocalDistributor.

(** The token that decides the output directory is the one after the
    first ['-t'] of the command, whatever follows it: a later ['-t'] is
    not looked at. *)
Theorem first_t_token_is_read
    (test_command n : string) (before rest : list string) :
  shlex.split test_command = inr (before ++ "-t" :: n :: rest) ->
  "-t" ∉ before ->
  n_tests_of test_command = inr n.
Proof.
  intros Hsplit Hno. unfold n_tests_of. rewrite Hsplit. cbn [rbind].
  destruct (PyFacts.list_index_present "-t" (before ++ "-t" :: n :: rest))
    as (i & Hi & Hlook & Hfirst).
  { apply elem_of_app. right. left. }
  assert (i = length before) as ->.
  { destruct (Nat.lt_trichotomy i (length before)) as [Hlt|[Heq|Hgt]].
    - rewrite lookup_app_l in Hlook by done.
      exfalso. apply Hno. by eapply list_elem_of_lookup_2.
    - exact Heq.
    - exfalso. apply Hfirst.
      apply (list_elem_of_lookup_2 _ (length before)).
      rewrite lookup_take_lt by done.
      by rewrite list_lookup_middle. }
  rewrite Hi. cbn [rbind ok].
  replace (Z.of_nat (length before) + 1) with (Z.of_nat (S (length before)))
    by lia.
  apply PyFacts.getitem_nat.
  rewrite lookup_app_r by lia.
  by replace (S (length before) - length before)%nat with 1%nat by lia.
Qed.

Lemma first_t_token_is_read_witness :
  n_tests_of "pytest -t 5 tests -t 7" = inr "5".
Proof.
  apply (first_t_token_is_read "pytest -t 5 tests -t 7" "5" ["pytest"]
           ["tests"; "-t"; "7"] eq_refl).
  apply (bool_decide_unpack _). vm_compute. exact I.
Defined.

Section Counting.

Context {Mutation Timeout Config WorkResult : Type}.
Variable mutate_and_test :
  list Mutation -> string -> Timeout -> result WorkResult.
Variable test_command : string.
Variable timeout : Timeout.
Variable cfg : Config.
Variable on_task_complete : string -> WorkResult -> result unit.

Local Abbreviation process ws :=
  (_process mutate_and_test ws test_command timeout cfg on_task_complete).

Lemma sequential_counts ws tr out :
  sequential mutate_and_test test_command timeout on_task_complete ws tr out ->
  (length (dispatched tr) <= length ws)%nat
  /\ (length (completed_jobs tr) <= length (dispatched tr))%nat
  /\ (length (dispatched tr) <= S (length (completed_jobs tr)))%nat
  /\ length tr = (length (dispatched tr) + length (completed_jobs tr))%nat.
Proof.
  unfold completed_jobs.
  induction 1 as [|w ws e He|w ws n e Hn Ht
    |w ws n r e Hn Ht Hc|w ws n r tr out Hn Ht Hc Hrest IH];
    simpl in *; rewrite ?length_fmap in *; simpl; lia.
Qed.

(** A run never tests more work items than it was given, never calls the
    callback before a test, and is never more than one test ahead of the
    callbacks; its trace holds nothing but these tests and callbacks.  A
    run that returns has tested every work item once and reported every
    one once. *)
Theorem run_never_outpaces_the_work (ws : list (WorkItem Mutation)) :
  (length (dispatched (process ws).1) <= length ws)%nat
  /\ (length (completed_jobs (process ws).1)
      <= length (dispatched (process ws).1))%nat
  /\ (length (dispatched (process ws).1)
      <= S (length (completed_jobs (process ws).1)))%nat
  /\ length (process ws).1
     = (length (dispatched (process ws).1)
        + length (completed_jobs (process ws).1))%nat
  /\ ((process ws).2 = inr tt ->
      length (dispatched (process ws).1) = length ws
      /\ length (completed_jobs (process ws).1) = length ws).
Proof.
  pose proof (LocalDistributorFacts.process_sequential mutate_and_test
                test_command timeout cfg on_task_complete ws) as Hseq.
  destruct (sequential_counts _ _ _ Hseq) as (H1 & H2 & H3 & H4).
  repeat (split; [done|]).
  intros Hout. rewrite Hout in Hseq.
  destruct (LocalDistributorFacts.sequential_returned _ _ _ _ _ _ Hseq)
    as [Hjobs Hlen].
  split; [exact Hlen|]. by rewrite Hjobs, length_fmap.
Qed.

(** Running a list of work items in two parts, one after the other, has
    the effect of running the whole list at once: when the run of the
    first part returns, the run of the whole list leaves the trace of the
    first part followed by the trace of the second and ends as the second
    does; when the run of the first part raises, the rest is never
    started. *)
Theorem run_of_two_parts (ws1 ws2 : list (WorkItem Mutation)) :
  ((process ws1).2 = inr tt ->
   process (ws1 ++ ws2)
   = ((process ws1).1 ++ (process ws2).1, (process ws2).2))
  /\ (forall e, (process ws1).2 = inl e ->
        process (ws1 ++ ws2) = ((process ws1).1, inl e)).
Proof.
  rewrite LocalDistributorFacts.process_app.
  destruct (process ws1) as [tr1 [e1|[]]]; simpl.
  - split; [discriminate|]. intros e He. by injection He as <-.
  - split; [|discriminate]. intros _. by destruct (process ws2).
Qed.

End Counting.

Import sample.

Lemma run_of_two_parts_witness :
  _process passing [first_item; second_item] well_formed 10 tt record
  = ((_process passing [first_item] well_formed 10 tt record).1
       ++ (_process passing [second_item] well_formed 10 tt record).1,
     inr tt).
Proof.
  destruct (run_of_two_parts passing well_formed 10 tt record
              [first_item] [second_item]) as [Hreturns _].
  exact (Hreturns eq_refl).
Defined.

End LocalRunFacts.

(** ** More on the operators *)

Module OperatorEdgeFacts.

Import Py parso ast.

(** *** The decorator remover at the edges *)

Lemma delitem_from_the_end {A : Type} (l : list A) (i : Z) :
  - Z.of_nat (length l) <= i < 0 ->
  delitem l i = ok (delete (Z.to_nat (i + Z.of_nat (length l))) l).
Proof.
  intros [Hlo Hhi]. unfold delitem, norm_index.
  destruct (Z.ltb_spec i 0) as [_|?]; [|lia].
  destruct (Z.leb_spec 0 (i + Z.of_nat (length l))) as [_|?]; [|lia].
  destruct (Z.ltb_spec (i + Z.of_nat (length l)) (Z.of_nat (length l)))
    as [_|?]; [|lia].
  reflexivity.
Qed.

Lemma mutate_of_names {Body : Type} (node : FunctionDef Body)
    (ids : list string) (idx : Z) :
  decorator_list node = Name <$> ids ->
  RemoveDecorator.mutate node idx
  = rbind (delitem (Name <$> RemoveDecorator.candidates ids) idx)
      (fun kept =>
         ok {| name := name node; args := args node; body := body node;
               decorator_list :=
                 kept ++ (Name <$> RemoveDecorator.regulars ids) |}).
Proof.
  intros Hids. unfold RemoveDecorator.mutate.
  rewrite Hids, !OperatorFacts.select_names. cbn [rbind ok].
  change (filter (fun i => RemoveDecorator.not_regular i = true) ids)
    with (RemoveDecorator.candidates ids).
  change (filter (fun i => RemoveDecorator.is_regular i = true) ids)
    with (RemoveDecorator.regulars ids).
  by destruct (delitem _ idx).
Qed.

(** A negative index counts from the end of the candidates, as Python's
    [del] does: with [n] candidates and [-n <= idx < 0], [mutate] removes
    the candidate at [idx + n], so that [-1] removes the last one. *)
Theorem remove_decorator_counts_from_the_end
    {Body : Type} (node : FunctionDef Body) (ids : list string) (idx : Z) :
  decorator_list node = Name <$> ids ->
  - Z.of_nat (length (RemoveDecorator.candidates ids)) <= idx < 0 ->
  RemoveDecorator.mutate node idx
  = ok {| name := name node; args := args node; body := body node;
          decorator_list :=
            Name <$>
              (delete
                 (Z.to_nat
                    (idx + Z.of_nat (length (RemoveDecorator.candidates ids))))
                 (RemoveDecorator.candidates ids)
               ++ RemoveDecorator.regulars ids) |}.
Proof.
  intros Hids Hidx. rewrite (mutate_of_names node ids idx Hids).
  rewrite delitem_from_the_end by (by rewrite length_fmap).
  cbn [rbind ok]. by rewrite length_fmap, fmap_app, list_fmap_delete.
Qed.

Lemma remove_decorator_counts_from_the_end_witness :
  RemoveDecorator.mutate sample.decorated (-1)
  = ok {| name := "bar"; args := []; body := tt;
          decorator_list :=
            [Name "foo"; Name "classmethod"; Name "staticmethod"] |}.
Proof.
  rewrite (remove_decorator_counts_from_the_end sample.decorated
             ["classmethod"; "foo"; "staticmethod"; "baz"] (-1) eq_refl).
  - vm_compute. reflexivity.
  - vm_compute. split; [intros H; discriminate H | reflexivity].
Defined.

Lemma select_stops_at (keep : string -> bool) (ids : list string)
    (d : expr) (rest : list expr) :
  id d = raise (AttributeError "id") ->
  RemoveDecorator.select keep ((Name <$> ids) ++ d :: rest)
  = raise (AttributeError "id").
Proof.
  intros Hd. induction ids as [|i ids IH].
  - simpl. by rewrite Hd.
  - rewrite fmap_cons. cbn [app RemoveDecorator.select id rbind ok].
    by rewrite IH.
Qed.

(** A decorator that is not a bare name, such as a call [@foo(1)] or a
    dotted name [@a.b], has no [id]: on a function that carries one, both
    [visit_FunctionDef] and [mutate] raise [AttributeError], whatever the
    index and whatever the other decorators are. *)
Theorem remove_decorator_needs_bare_names
    {Body Visited : Type}
    (visit_mutation_site : FunctionDef Body -> Z -> Visited)
    (unchanged : FunctionDef Body -> Visited)
    (node : FunctionDef Body) (ids : list string) (d : expr)
    (rest : list expr) (idx : Z) :
  decorator_list node = (Name <$> ids) ++ d :: rest ->
  (forall i, d <> Name i) ->
  RemoveDecorator.mutate node idx = raise (AttributeError "id")
  /\ RemoveDecorator.visit_FunctionDef visit_mutation_site unchanged node
     = raise (AttributeError "id").
Proof.
  intros Hlist Hd.
  assert (id d = raise (AttributeError "id")) as Hid.
  { destruct d as [i| |]; [by destruct (Hd i)|reflexivity|reflexivity]. }
  split.
  - unfold RemoveDecorator.mutate.
    by rewrite Hlist, (select_stops_at _ ids d rest Hid).
  - unfold RemoveDecorator.visit_FunctionDef.
    by rewrite Hlist, (select_stops_at _ ids d rest Hid).
Qed.

Lemma remove_decorator_needs_bare_names_witness :
  RemoveDecorator.mutate
    {| name := "view"; args := []; body := tt;
       decorator_list :=
         [Name "staticmethod"; Call (Name "route") []; Name "foo"] |} 0
  = raise (AttributeError "id").
Proof.
  apply (remove_decorator_needs_bare_names (fun _ n => n) (fun _ => 0)
           {| name := "view"; args := []; body := tt;
              decorator_list :=
                [Name "staticmethod"; Call (Name "route") []; Name "foo"] |}
           ["staticmethod"] (Call (Name "route") []) [Name "foo"] 0 eq_refl).
  intros i. discriminate.
Defined.

Lemma regulars_complement (ids : list string) :
  filter (fun i => ~ RemoveDecorator.not_regular i = true) ids
  = RemoveDecorator.regulars ids.
Proof.
  apply list_filter_iff. intros i.
  rewrite <- OperatorFacts.not_regular_false.
  by destruct (RemoveDecorator.not_regular i).
Qed.

(** [mutate] drops one decorator and moves the others without losing or
    doubling any: the new decorator list, with the removed candidate put
    back, is a rearrangement of the old list. *)
Theorem remove_decorator_keeps_the_others
    {Body : Type} (node : FunctionDef Body) (ids : list string) (idx : Z)
    (removed : string) :
  decorator_list node = Name <$> ids ->
  0 <= idx ->
  RemoveDecorator.candidates ids !! Z.to_nat idx = Some removed ->
  exists node',
    RemoveDecorator.mutate node idx = ok node'
    /\ Name removed :: decorator_list node' ≡ₚ decorator_list node.
Proof.
  intros Hids Hidx Hremoved.
  rewrite (mutate_of_names node ids idx Hids).
  pose proof (lookup_lt_Some _ _ _ Hremoved) as Hlt.
  pose proof (PyFacts.delitem_nat (Name <$> RemoveDecorator.candidates ids)
                (Z.to_nat idx)) as Hdel.
  rewrite Z2Nat.id in Hdel by done.
  rewrite Hdel by (by rewrite length_fmap). cbn [rbind ok].
  eexists. split; [reflexivity|]. cbn [decorator_list].
  rewrite Hids, <- list_fmap_delete, <- fmap_app, <- fmap_cons.
  apply fmap_Permutation.
  transitivity (RemoveDecorator.candidates ids
                  ++ RemoveDecorator.regulars ids).
  - rewrite app_comm_cons. apply Permutation_app_tail.
    symmetry. by apply delete_Permutation.
  - rewrite <- regulars_complement.
    apply (filter_app_complement
             (fun i => RemoveDecorator.not_regular i = true)).
Qed.

Lemma remove_decorator_keeps_the_others_witness :
  exists node',
    RemoveDecorator.mutate sample.decorated 0 = ok node'
    /\ Name "foo" :: decorator_list node' ≡ₚ decorator_list sample.decorated.
Proof.
  apply (remove_decorator_keeps_the_others sample.decorated
           ["classmethod"; "foo"; "staticmethod"; "baz"] 0 "foo" eq_refl).
  - lia.
  - reflexivity.
Defined.

(** *** The zero-iteration operator, applied again *)

Lemma get_code_app (c1 c2 c3 : node_class) (l1 l2 : list node) :
  get_code (BaseNode c1 (l1 ++ l2))
  = get_code (BaseNode c2 l1) +:+ get_code (BaseNode c3 l2).
Proof.
  induction l1 as [|x l1 IH]; [reflexivity|].
  cbn [get_code app] in *. by rewrite IH, StringFacts.append_assoc.
Qed.

(** The mutation is idempotent and keeps the text around the iterable:
    when [mutate] succeeds on a loop, applying it to the result changes
    nothing more; the code of the result is the code of the first three
    children, then [" []"], then the code of the children after the
    iterable; and the result is again a site of the operator. *)
Theorem zero_iteration_is_idempotent (cs : list node) (mutated : node) :
  ZeroIterationForLoop.mutate (BaseNode ForStmt cs) 0 = ok mutated ->
  ZeroIterationForLoop.mutate mutated 0 = ok mutated
  /\ get_code mutated
     = get_code (BaseNode ForStmt (take 3 cs)) +:+ " []"
         +:+ get_code (BaseNode ForStmt (drop 4 cs))
  /\ ZeroIterationForLoop.mutation_positions mutated
     = ok [((1, 1), (1, 3))].
Proof.
  intros Hmut.
  destruct (decide (length cs <= 3)%nat) as [Hshort|Hlong].
  { rewrite (OperatorFacts.zero_iteration_short_loop cs Hshort) in Hmut.
    discriminate. }
  assert (3 < length cs)%nat as Hlen by lia.
  pose proof (PyFacts.setitem_nat cs 3 parse_empty_list Hlen) as Hset.
  change (Z.of_nat 3) with 3 in Hset.
  unfold ZeroIterationForLoop.mutate in Hmut. simpl in Hmut.
  rewrite Hset in Hmut. cbn [rbind ok] in Hmut. injection Hmut as <-.
  assert (3 < length (<[3%nat := parse_empty_list]> cs))%nat as Hlen'
    by (by rewrite length_insert).
  split; [|split].
  - unfold ZeroIterationForLoop.mutate. simpl.
    pose proof (PyFacts.setitem_nat _ 3 parse_empty_list Hlen') as Hset'.
    change (Z.of_nat 3) with 3 in Hset'. rewrite Hset'. cbn [rbind ok].
    by rewrite list_insert_insert_eq.
  - rewrite insert_take_drop by done.
    rewrite (get_code_app ForStmt ForStmt ForStmt).
    change (parse_empty_list :: drop 4 cs)
      with ([parse_empty_list] ++ drop 4 cs).
    by rewrite (get_code_app ForStmt ForStmt ForStmt).
  - unfold ZeroIterationForLoop.mutation_positions. simpl.
    pose proof (PyFacts.getitem_nat (<[3%nat := parse_empty_list]> cs) 3
                  parse_empty_list) as Hget.
    change (Z.of_nat 3) with 3 in Hget.
    rewrite Hget by (by apply list_lookup_insert_eq). reflexivity.
Qed.

Lemma zero_iteration_is_idempotent_witness :
  exists mutated,
    ZeroIterationForLoop.mutate sample.for_loop 0 = ok mutated
    /\ ZeroIterationForLoop.mutate mutated 0 = ok mutated
    /\ get_code mutated = "for i in []: pass".
Proof.
  eexists. split; [reflexivity|].
  destruct (zero_iteration_is_idempotent sample.for_loop_children _ eq_refl)
    as (Hagain & Hcode & _).
  split; [exact Hagain|]. rewrite Hcode. reflexivity.
Defined.

End OperatorEdgeFacts.

(** ** The variable operators *)

Module VariableFacts.

Import Py parso causes.

(** Induction on the tree, with the property at hand for every child of
    an inner node. *)
Lemma node_induction (P : node -> Prop) :
  (forall type v prefix s e, P (Leaf type v prefix s e)) ->
  (forall cls cs, Forall P cs -> P (BaseNode cls cs)) ->
  forall n, P n.
Proof.
  intros Hleaf Hnode. fix IH 1. intros [type v prefix s e|cls cs].
  - apply Hleaf.
  - apply Hnode. induction cs as [|c cs IHcs]; constructor.
    + apply IH.
    + exact IHcs.
Qed.

(** *** Flattening *)

Lemma flatten_item_node (cls : node_class) (cs : list node) :
  flatten_item (BaseNode cls cs) = _flatten_expr cs.
Proof.
  induction cs as [|c cs IH]; [reflexivity|].
  cbn [flatten_item _flatten_expr] in *. by rewrite IH.
Qed.

Lemma flatten_child_node (cls : node_class) (cs : list node) :
  flatten_child (BaseNode cls cs) = flatten_children cs.
Proof.
  induction cs as [|c cs IH]; [reflexivity|].
  cbn [flatten_child flatten_children] in *. by rewrite IH.
Qed.

Lemma flatten_expr_app (a b : list node) :
  _flatten_expr (a ++ b) = _flatten_expr a ++ _flatten_expr b.
Proof.
  induction a as [|x a IH]; [reflexivity|].
  cbn [app _flatten_expr]. by rewrite IH, app_assoc.
Qed.

Lemma flatten_child_item (n : node) : flatten_child n = flatten_item n.
Proof.
  induction n as [type v prefix s e|cls cs IH] using node_induction;
    [reflexivity|].
  rewrite flatten_child_node, flatten_item_node.
  induction IH as [|c cs Hc Hcs IHcs]; [reflexivity|].
  cbn [flatten_children _flatten_expr]. by rewrite Hc, IHcs.
Qed.

Lemma flatten_children_expr (l : list node) :
  flatten_children l = _flatten_expr l.
Proof.
  induction l as [|c l IH]; [reflexivity|].
  cbn [flatten_children _flatten_expr]. by rewrite flatten_child_item, IH.
Qed.

Lemma flatten_item_leaves (n : node) :
  Forall (fun x => is_Leaf x = true) (flatten_item n).
Proof.
  induction n as [type v prefix s e|cls cs IH] using node_induction.
  - by repeat constructor.
  - rewrite flatten_item_node.
    induction IH as [|c cs Hc Hcs IHcs]; [constructor|].
    cbn [_flatten_expr]. by apply Forall_app.
Qed.

Lemma flatten_expr_leaves (l : list node) :
  Forall (fun x => is_Leaf x = true) (_flatten_expr l).
Proof.
  induction l as [|c l IH]; [constructor|].
  cbn [_flatten_expr]. apply Forall_app. split; [|exact IH].
  apply flatten_item_leaves.
Qed.

Lemma flatten_of_leaves (l : list node) :
  Forall (fun x => is_Leaf x = true) l -> _flatten_expr l = l.
Proof.
  induction 1 as [|x l Hx Hl IH]; [reflexivity|].
  cbn [_flatten_expr]. rewrite IH. by destruct x.
Qed.

Lemma get_code_cons (cls : node_class) (c : node) (cs : list node) :
  get_code (BaseNode cls (c :: cs)) = get_code c +:+ get_code (BaseNode cls cs).
Proof. reflexivity. Qed.

Lemma flatten_item_code (cls : node_class) (n : node) :
  get_code (BaseNode cls (flatten_item n)) = get_code n.
Proof.
  induction n as [type v prefix s e|c cs IH] using node_induction.
  - cbn [flatten_item]. rewrite get_code_cons.
    apply ShlexFacts.append_empty_r.
  - rewrite flatten_item_node.
    induction IH as [|x cs Hx Hcs IHcs]; [reflexivity|].
    cbn [_flatten_expr].
    rewrite (OperatorEdgeFacts.get_code_app cls cls cls), Hx, IHcs.
    by rewrite get_code_cons.
Qed.

(** [_flatten_expr] yields leaves only, in the order of the text: the
    code of the flattened list is the code of the list it was given.
    Flattening a second time changes nothing, and flattening two lists one
    after the other flattens their concatenation. *)
Theorem flatten_yields_the_leaves_in_order
    (cls : node_class) (expr : list node) :
  Forall (fun x => is_Leaf x = true) (_flatten_expr expr)
  /\ get_code (BaseNode cls (_flatten_expr expr))
     = get_code (BaseNode cls expr)
  /\ _flatten_expr (_flatten_expr expr) = _flatten_expr expr
  /\ (forall more,
        _flatten_expr (expr ++ more)
        = _flatten_expr expr ++ _flatten_expr more).
Proof.
  split; [apply flatten_expr_leaves|]. split; [|split].
  - induction expr as [|c expr IH]; [reflexivity|].
    cbn [_flatten_expr].
    rewrite (OperatorEdgeFacts.get_code_app cls cls cls), IH.
    by rewrite flatten_item_code, get_code_cons.
  - apply flatten_of_leaves, flatten_expr_leaves.
  - apply flatten_expr_app.
Qed.

(** The two flatteners of the operators yield the same leaves:
    [_flatten_comparison] of an inner node is [_flatten_expr] of its
    children, and of a list it is [_flatten_expr] of the list.  Called on a
    leaf, [_flatten_comparison] raises [TypeError]. *)
Theorem flatten_comparison_agrees (conditional : node + list node) :
  _flatten_comparison conditional
  = match conditional with
    | inl (BaseNode _ cs) => ok (_flatten_expr cs)
    | inl (Leaf _ _ _ _ _) => raise (TypeError "object is not iterable")
    | inr l => ok (_flatten_expr l)
    end.
Proof.
  destruct conditional as [[type v prefix s e|cls cs]|l]; simpl.
  - reflexivity.
  - by rewrite flatten_children_expr.
  - by rewrite flatten_children_expr.
Qed.

(** *** Adding the cause *)

Lemma values_app (l l' : list node) (a b : list string) :
  values l = ok a -> values l' = ok b -> values (l ++ l') = ok (a ++ b).
Proof.
  revert a. induction l as [|x l IH]; intros a Ha Hb.
  - injection Ha as <-. exact Hb.
  - cbn [app values] in *.
    destruct (value x) as [err|v]; [discriminate|]. cbn [rbind ok] in *.
    destruct (values l) as [err|vs]; [discriminate|]. cbn [rbind ok] in *.
    injection Ha as <-. by rewrite (IH vs eq_refl Hb).
Qed.

Lemma values_of_leaves (l : list node) :
  Forall (fun x => is_Leaf x = true) l -> exists names, values l = ok names.
Proof.
  induction 1 as [|x l Hx Hl [names IH]]; [by exists []|].
  destruct x as [type v prefix s e|]; [|discriminate].
  exists (v :: names). cbn [values value rbind ok]. by rewrite IH.
Qed.

Lemma values_named (l : list node) (names : list string) (v : string) :
  values l = ok names ->
  Exists (fun x => named v x = true) l ->
  v ∈ names.
Proof.
  revert names. induction l as [|x l IH]; intros names Hvalues Hex.
  - by apply Exists_nil in Hex.
  - cbn [values] in Hvalues.
    destruct (value x) as [err|w] eqn:Hx; [discriminate|].
    cbn [rbind] in Hvalues.
    destruct (values l) as [err|ws]; [discriminate|].
    cbn [rbind ok] in Hvalues. injection Hvalues as <-.
    apply Exists_cons in Hex as [Hhere|Hlater].
    + destruct x as [type u prefix s e|]; [|discriminate].
      cbn [named] in Hhere. apply bool_decide_eq_true in Hhere.
      injection Hx as <-. subst. left.
    + right. by apply IH.
Qed.

Lemma values_not_named (l : list node) (names : list string) (v : string) :
  values l = ok names ->
  Forall (fun x => named v x = false) l ->
  v ∉ names.
Proof.
  revert names. induction l as [|x l IH]; intros names Hvalues Hall.
  - injection Hvalues as <-. apply not_elem_of_nil.
  - cbn [values] in Hvalues.
    destruct (value x) as [err|w] eqn:Hx; [discriminate|].
    cbn [rbind] in Hvalues.
    destruct (values l) as [err|ws]; [discriminate|].
    cbn [rbind ok] in Hvalues. injection Hvalues as <-.
    apply Forall_cons in Hall as [Hhere Hlater].
    apply not_elem_of_cons. split; [|by apply IH].
    destruct x as [type u prefix s e|]; [|discriminate].
    cbn [named] in Hhere. apply bool_decide_eq_false in Hhere.
    injection Hx as <-. congruence.
Qed.

Section AddCause.

Variable self : VariableInserter.operator.
Variable leaf_end_pos : position -> string -> position.

Local Abbreviation add_cause :=
  (VariableInserter._add_cause_to_node self leaf_end_pos).

(** [_add_cause_to_node] wraps the node it is given: the new node has the
    old one as its first child, followed by the sign and by the cause
    variable, each after one space.  So the code of the new node is the
    code of the old one followed by the sign and the cause; its leaves are
    the leaves of the old one followed by the two new ones; the sign is
    recorded one column after the end of the old node and the cause two
    columns after it; and an expression statement that has the new node as
    its right-hand side counts the cause variable among its causes. *)
Theorem add_cause_appends_the_cause
    (arith_operator : VariableInserter.sign) (n : node) (e : position) :
  end_pos n = ok e ->
  exists sign_node cause_node,
    add_cause arith_operator n
    = ok (BaseNode (PythonNode "arith_expr") [n; sign_node; cause_node])
    /\ get_code (BaseNode (PythonNode "arith_expr") [n; sign_node; cause_node])
       = get_code n +:+ " " +:+ VariableInserter.sign_text arith_operator
           +:+ " " +:+ VariableInserter.cause_variable self
    /\ _flatten_expr [BaseNode (PythonNode "arith_expr")
                        [n; sign_node; cause_node]]
       = _flatten_expr [n] ++ [sign_node; cause_node]
    /\ values [sign_node; cause_node]
       = ok [VariableInserter.sign_text arith_operator;
             VariableInserter.cause_variable self]
    /\ start_pos sign_node = ok (e.1, e.2 + 1)
    /\ start_pos cause_node = ok (e.1, e.2 + 2)
    /\ (forall (get_rhs : node -> result node) (cs : list node),
          get_rhs (BaseNode ExprStmt cs)
          = ok (BaseNode (PythonNode "arith_expr")
                  [n; sign_node; cause_node]) ->
          exists found names,
            _get_causes_from_expr_node get_rhs (BaseNode ExprStmt cs)
            = ok found
            /\ values found = ok names
            /\ VariableInserter.cause_variable self ∈ names).
Proof.
  intros He. unfold VariableInserter._add_cause_to_node. rewrite He.
  cbn [rbind ok]. eexists _, _. split; [reflexivity|].
  assert (forall a b : node,
            _flatten_expr [BaseNode (PythonNode "arith_expr") [n; a; b]]
            = _flatten_expr [n] ++ flatten_item a ++ flatten_item b)
    as Hflat.
  { intros a b. cbn [_flatten_expr]. rewrite flatten_item_node.
    cbn [_flatten_expr]. by rewrite !app_nil_r. }
  split; [|split; [|split; [|split; [|split]]]].
  - cbn [get_code]. rewrite !ShlexFacts.append_empty_r.
    by rewrite !StringFacts.append_assoc.
  - by rewrite Hflat.
  - reflexivity.
  - cbn [start_pos]. unfold VariableInserter._iterate_col, ok.
    do 2 f_equal; lia.
  - cbn [start_pos]. unfold VariableInserter._iterate_col, ok.
    cbn [fst snd]. do 2 f_equal; lia.
  - intros get_rhs cs Hrhs. unfold _get_causes_from_expr_node.
    cbn [call_get_rhs]. rewrite Hrhs. cbn [rbind ok children].
    destruct (values_of_leaves _ (flatten_expr_leaves [n])) as [names Hnames].
    eexists _, (names ++ [VariableInserter.sign_text arith_operator;
                          VariableInserter.cause_variable self]).
    split; [reflexivity|].
    change [n; ?a; ?b] with ([n] ++ [a; b]).
    rewrite flatten_expr_app.
    split; [by apply values_app|].
    apply elem_of_app. right. right. left.
Qed.

End AddCause.

Lemma add_cause_appends_the_cause_witness :
  exists new_node,
    VariableInserter._add_cause_to_node sample.inserter_of_j sample.same_line
      VariableInserter.plus sample.sum = ok new_node
    /\ get_code new_node = " x + z + j".
Proof.
  destruct (add_cause_appends_the_cause sample.inserter_of_j sample.same_line
              VariableInserter.plus sample.sum (2, 13) eq_refl)
    as (sign_node & cause_node & Hrun & Hcode & _).
  eexists. split; [exact Hrun|]. rewrite Hcode. reflexivity.
Defined.

(** *** Replacing the cause *)

Section Replace.

Variable leaf_end_pos : position -> string -> position.
Variable randint : nat -> Z.

Local Abbreviation replace :=
  (VariableReplacer._replace_named_variable_in_expr leaf_end_pos randint).
Local Abbreviation replace_each :=
  (VariableReplacer.for_child leaf_end_pos randint).
Local Abbreviation number_leaf :=
  (VariableReplacer.number_leaf leaf_end_pos randint).

Lemma replace_node (cls : node_class) (cs : list node) (v : string) (d : nat) :
  replace (BaseNode cls cs) v d
  = (BaseNode cls (replace_each cs v d).1, (replace_each cs v d).2).
Proof.
  cbn [VariableReplacer._replace_named_variable_in_expr].
  match goal with
  | |- (BaseNode cls (?f cs d).1, _) = _ =>
      assert (forall l k, f l k = replace_each l v k) as ->; [|reflexivity]
  end.
  induction l as [|c l IH]; intros k; [reflexivity|].
  cbn [VariableReplacer.for_child]. by rewrite IH.
Qed.

Lemma replace_each_cons (c : node) (cs : list node) (v : string) (d : nat) :
  replace_each (c :: cs) v d
  = ((replace c v d).1 :: (replace_each cs v (replace c v d).2).1,
     (replace_each cs v (replace c v d).2).2).
Proof. reflexivity. Qed.

(** The occurrences of a name among the leaves of a node. *)
Local Abbreviation occurrences v n :=
  (filter (fun x => named v x = true) (flatten_item n)).

Lemma replace_each_draws (cs : list node) (v : string) :
  Forall (fun c => forall d,
            (replace c v d).2
            = (d + length (occurrences v c))%nat) cs ->
  forall d,
    (replace_each cs v d).2
    = (d + length (filter (fun x => named v x = true) (_flatten_expr cs)))%nat.
Proof.
  induction 1 as [|c cs Hc Hcs IH]; intros d.
  - cbn. lia.
  - rewrite replace_each_cons. cbn [snd _flatten_expr].
    rewrite IH, Hc, filter_app, length_app. lia.
Qed.

Lemma replace_draws (n : node) (v : string) (d : nat) :
  (replace n v d).2 = (d + length (occurrences v n))%nat.
Proof.
  revert d. induction n as [type w prefix s e|cls cs IH] using node_induction;
    intros d.
  - cbn [VariableReplacer._replace_named_variable_in_expr flatten_item].
    rewrite filter_cons, filter_nil. cbn [named].
    destruct (bool_decide (w = v)) eqn:E;
      [rewrite decide_True by done|rewrite decide_False by done];
      cbn; lia.
  - rewrite replace_node, flatten_item_node. cbn [snd].
    by apply replace_each_draws.
Qed.

Lemma replace_each_absent (cs : list node) (v : string) :
  Forall (fun c => Forall (fun x => named v x = false) (flatten_item c) ->
                   forall d, replace c v d = (c, d)) cs ->
  Forall (fun x => named v x = false) (_flatten_expr cs) ->
  forall d, replace_each cs v d = (cs, d).
Proof.
  induction 1 as [|c cs Hc Hcs IH]; intros Habsent d; [reflexivity|].
  cbn [_flatten_expr] in Habsent. apply Forall_app in Habsent as [Hfirst Hrest].
  rewrite replace_each_cons, (Hc Hfirst). cbn [fst snd]. by rewrite (IH Hrest).
Qed.

(** A node in which the name does not occur comes back as it is, and no
    number is drawn. *)
Lemma replace_absent (n : node) (v : string) (d : nat) :
  Forall (fun x => named v x = false) (flatten_item n) ->
  replace n v d = (n, d).
Proof.
  revert d. induction n as [type w prefix s e|cls cs IH] using node_induction;
    intros d Habsent.
  - cbn [flatten_item] in Habsent.
    apply (proj1 (Forall_singleton _ _)) in Habsent. cbn [named] in Habsent.
    cbn [VariableReplacer._replace_named_variable_in_expr].
    by rewrite Habsent.
  - rewrite flatten_item_node in Habsent. rewrite replace_node.
    rewrite replace_each_absent; [reflexivity| |exact Habsent].
    eapply Forall_impl; [exact IH|]. intros c Hc Habs k. by apply Hc.
Qed.

Lemma replace_each_leaves (cs : list node) (v : string) :
  Forall (fun c => forall d,
            Forall2 (fun old new =>
                       if named v old
                       then exists k p,
                              (d <= k < (replace c v d).2)%nat
                              /\ start_pos old = ok p
                              /\ new = number_leaf p k
                       else new = old)
              (flatten_item c) (flatten_item (replace c v d).1)) cs ->
  forall d,
    Forall2 (fun old new =>
               if named v old
               then exists k p,
                      (d <= k < (replace_each cs v d).2)%nat
                      /\ start_pos old = ok p
                      /\ new = number_leaf p k
               else new = old)
      (_flatten_expr cs) (_flatten_expr (replace_each cs v d).1).
Proof.
  induction 1 as [|c cs Hc Hcs IH]; intros d; [constructor|].
  rewrite replace_each_cons. cbn [fst snd _flatten_expr].
  pose proof (replace_draws c v d) as Hfirst.
  assert (forall l k, (k <= (replace_each l v k).2)%nat) as Hmono.
  { intros l k. rewrite replace_each_draws; [lia|].
    apply Forall_forall. intros x _ j.
    apply replace_draws. }
  pose proof (Hmono cs (replace c v d).2) as Hrest.
  apply Forall2_app.
  - eapply Forall2_impl; [apply Hc|]. intros old new. cbn beta.
    destruct (named v old); [|done].
    intros (k & p & Hk & Hp & ->). exists k, p. split; [lia|done].
  - eapply Forall2_impl; [apply IH|]. intros old new. cbn beta.
    destruct (named v old); [|done].
    intros (k & p & Hk & Hp & ->). exists k, p. split; [lia|done].
Qed.

Lemma replace_leaves (n : node) (v : string) (d : nat) :
  Forall2 (fun old new =>
             if named v old
             then exists k p,
                    (d <= k < (replace n v d).2)%nat
                    /\ start_pos old = ok p
                    /\ new = number_leaf p k
             else new = old)
    (flatten_item n) (flatten_item (replace n v d).1).
Proof.
  revert d. induction n as [type w prefix s e|cls cs IH] using node_induction;
    intros d.
  - cbn [VariableReplacer._replace_named_variable_in_expr flatten_item named].
    destruct (bool_decide (w = v)) eqn:E; cbn [fst snd flatten_item];
      repeat constructor; cbn [named]; rewrite E; [|done].
    exists d, s. split; [lia|done].
  - rewrite replace_node, !flatten_item_node. cbn [fst snd].
    by apply replace_each_leaves.
Qed.

(** [_replace_named_variable_in_expr] draws one random number for every
    leaf of the node that holds the name, and none besides; a node in
    which the name does not occur comes back as it is. *)
Theorem replacement_draws_once_per_occurrence
    (n : node) (v : string) (d : nat) :
  (replace n v d).2 = (d + length (occurrences v n))%nat
  /\ (Forall (fun x => named v x = false) (flatten_item n) ->
      replace n v d = (n, d)).
Proof. split; [apply replace_draws|apply replace_absent]. Qed.

(** Leaf by leaf, the node that [_replace_named_variable_in_expr] returns
    is the node it was given: a leaf that does not hold the name is kept
    as it is, and a leaf that holds it has become a number leaf at the same
    start position, after one space, with the text of one of the numbers
    drawn during the call. *)
Theorem replacement_changes_only_the_occurrences
    (n : node) (v : string) (d : nat) :
  Forall2 (fun old new =>
             if named v old
             then exists k p,
                    (d <= k < (replace n v d).2)%nat
                    /\ start_pos old = ok p
                    /\ new = number_leaf p k
             else new = old)
    (flatten_item n) (flatten_item (replace n v d).1).
Proof. apply replace_leaves. Qed.

Lemma replace_fresh (n : node) (v : string) (d : nat) :
  (forall k, pretty (randint k) <> v) ->
  Forall (fun x => named v x = false) (flatten_item (replace n v d).1).
Proof.
  intros Hfresh. pose proof (replace_leaves n v d) as Hleaves.
  induction Hleaves as [|old new olds news Hone Hall IH]; constructor;
    [|exact IH].
  destruct (named v old) eqn:E; [|by subst].
  destruct Hone as (k & p & _ & _ & ->). cbn [named].
  apply bool_decide_eq_false. apply Hfresh.
Qed.

(** The replacement turns no node into an annotation. *)
Lemma node_type_replace (n : node) (v : string) (d : nat) :
  node_type n <> "annassign" -> node_type (replace n v d).1 <> "annassign".
Proof.
  destruct n as [type w prefix s e|cls cs].
  - cbn [VariableReplacer._replace_named_variable_in_expr].
    destruct (bool_decide (w = v)); [discriminate|done].
  - by rewrite replace_node.
Qed.

(** When no number that is drawn reads as the name, the name is gone from
    the node that comes back, and replacing it once more changes nothing
    and draws nothing. *)
Theorem replacement_removes_the_name (n : node) (v : string) (d : nat) :
  (forall k, pretty (randint k) <> v) ->
  Forall (fun x => named v x = false) (flatten_item (replace n v d).1)
  /\ forall d', replace (replace n v d).1 v d' = ((replace n v d).1, d').
Proof.
  intros Hfresh. pose proof (replace_fresh n v d Hfresh) as Hgone.
  split; [exact Hgone|]. intros d'. by apply replace_absent.
Qed.

End Replace.

Lemma replacement_removes_the_name_witness :
  (forall k, pretty (sample.ten k) <> "x")
  /\ Forall (fun x => named "x" x = false)
       (flatten_item
          (VariableReplacer._replace_named_variable_in_expr sample.same_line
             sample.ten sample.sum "x" 0).1).
Proof.
  assert (forall k, pretty (sample.ten k) <> "x") as Hfresh.
  { intros k. vm_compute. discriminate. }
  split; [exact Hfresh|].
  apply (replacement_removes_the_name sample.same_line sample.ten sample.sum
           "x" 0 Hfresh).
Defined.

(** *** The sites of the two operators *)

Section Positions.

Variable get_rhs : node -> result node.
Variable get_defined_names : node -> result (list node).

Local Abbreviation suite_nodes :=
  (_get_cause_and_effect_nodes_from_suite_node get_rhs get_defined_names).
Local Abbreviation gathered :=
  (named_causes_and_effects get_rhs get_defined_names).
Local Abbreviation inserter_sites self :=
  (VariableInserter.mutation_positions self get_rhs get_defined_names).
Local Abbreviation replacer_sites self :=
  (VariableReplacer.mutation_positions self get_rhs get_defined_names).

(** The method in terms of its two loops. *)
Lemma suite_nodes_loops (cls : node_class) (cs : list node) :
  suite_nodes (BaseNode cls cs)
  = rbind (for_child get_rhs get_defined_names cs [] [] [])
      (fun found =>
         for_expr_nodes get_rhs get_defined_names found.2 found.1.1 found.1.2).
Proof. reflexivity. Qed.

(** The first loop either raises or hands every collected expression node
    to the second loop, after those it was given. *)
Lemma for_child_collects (cs causes effects expr_nodes : list node) :
  (exists err,
     for_child get_rhs get_defined_names cs causes effects expr_nodes
     = raise err)
  \/ (exists causes' effects',
        for_child get_rhs get_defined_names cs causes effects expr_nodes
        = ok (causes', effects', expr_nodes ++ omap collected cs)).
Proof.
  revert causes effects expr_nodes.
  induction cs as [|child cs IH]; intros causes effects expr_nodes.
  - right. exists causes, effects. by rewrite app_nil_r.
  - cbn [for_child].
    destruct child as [type v prefix s e|[| | | |type] gcs];
      cbn [omap collected]; try apply IH.
    + destruct (for_grandchild _ _ _ _ _) as [err|found];
        [left; by exists err|]. cbn [rbind]. apply IH.
    + destruct (IH causes effects (expr_nodes ++ [BaseNode ExprStmt gcs]))
        as [Herr|(a & b & Hok)]; [by left|].
      right. exists a, b. by rewrite Hok, <- app_assoc.
    + destruct gcs as [|first gcs].
      * left. by eexists.
      * change (getitem (first :: gcs) 0) with (@ok node first).
        cbn [rbind ok].
        destruct (IH causes effects (expr_nodes ++ [first]))
          as [Herr|(a & b & Hok)]; [by left|].
        right. exists a, b. by rewrite Hok, <- app_assoc.
Qed.

(** The first loop of the gathering on children without an [if]
    statement: nothing is gathered yet, and every statement is
    collected. *)
Lemma for_child_plain (cs causes effects expr_nodes : list node) :
  Forall (fun c => plain_child c = true) cs ->
  for_child get_rhs get_defined_names cs causes effects expr_nodes
  = ok (causes, effects, expr_nodes ++ omap collected cs).
Proof.
  intros Hplain. revert expr_nodes.
  induction Hplain as [|child cs Hchild Hcs IH]; intros expr_nodes.
  - by rewrite app_nil_r.
  - cbn [for_child].
    destruct child as [|[| | | |type] gcs]; try discriminate;
      cbn [omap collected]; try apply IH.
    + by rewrite IH, <- app_assoc.
    + destruct gcs as [|first gcs]; [discriminate|].
      change (getitem (first :: gcs) 0) with (@ok node first).
      cbn [rbind ok]. by rewrite IH, <- app_assoc.
Qed.

(** The second loop raises when it meets an expression node whose
    right-hand side is no inner node. *)
Lemma for_expr_nodes_raises (stmts causes effects : list node) (e : node) :
  e ∈ stmts ->
  (forall cls rcs, call_get_rhs get_rhs e <> ok (BaseNode cls rcs)) ->
  exists err,
    for_expr_nodes get_rhs get_defined_names stmts causes effects = raise err.
Proof.
  intros Hin Hrhs. revert causes effects.
  induction Hin as [e stmts|e other stmts Hin IH]; intros causes effects;
    cbn [for_expr_nodes]; unfold _get_causes_from_expr_node.
  - destruct (call_get_rhs get_rhs e) as [err|[type v prefix s p|cls rcs]].
    + by exists err.
    + by eexists.
    + by destruct (Hrhs cls rcs).
  - destruct (call_get_rhs get_rhs other) as [err|rhs]; [by exists err|].
    cbn [rbind]. destruct (children rhs) as [err|rcs]; [by exists err|].
    cbn [rbind ok].
    destruct (call_get_defined_names get_defined_names other) as [err|defined];
      [by exists err|].
    cbn [rbind]. apply IH. exact Hrhs.
Qed.

(** Both [mutation_positions] raise on the suite of an [if] without
    [else] as soon as one statement of the suite is not an expression
    statement with an inner node on its right-hand side. *)
Theorem other_statement_in_the_suite_raises
    (ins : VariableInserter.operator) (rep : VariableReplacer.operator)
    (cs siblings : list node) (e : node) :
  text_in "else" siblings = false ->
  e ∈ omap collected cs ->
  (forall cls rcs, call_get_rhs get_rhs e <> ok (BaseNode cls rcs)) ->
  exists err,
    inserter_sites ins (Some (BaseNode IfStmt siblings))
      (BaseNode (PythonNode "suite") cs) = raise err
    /\ replacer_sites rep (Some (BaseNode IfStmt siblings))
         (BaseNode (PythonNode "suite") cs) = raise err.
Proof.
  intros Helse Hin Hrhs.
  assert (exists err, suite_nodes (BaseNode (PythonNode "suite") cs) = raise err)
    as [err Herr].
  { rewrite suite_nodes_loops.
    destruct (for_child_collects cs [] [] []) as [[err ->]|(a & b & ->)];
      [by exists err|].
    cbn [rbind ok fst snd app]. by apply for_expr_nodes_raises with e. }
  exists err.
  unfold VariableInserter.mutation_positions,
    VariableReplacer.mutation_positions, named_causes_and_effects.
  rewrite Helse. cbn [bool_decide negb]. rewrite Herr.
  split; reflexivity.
Qed.

(** No node is a site of both operators when they are built for the same
    cause. *)
Theorem inserter_and_replacer_share_no_site
    (ins : VariableInserter.operator) (rep : VariableReplacer.operator)
    (parent : option node) (n : node)
    (found found' : list (position * position)) :
  VariableReplacer.cause_variable rep = VariableInserter.cause_variable ins ->
  inserter_sites ins parent n = ok found ->
  replacer_sites rep parent n = ok found' ->
  found = [] \/ found' = [].
Proof.
  unfold VariableInserter.mutation_positions,
    VariableReplacer.mutation_positions.
  intros -> Hins Hrep.
  destruct (gathered parent n) as [err|[[named_causes named_effects]|]];
    [discriminate| |left; by injection Hins].
  cbn [rbind] in *.
  destruct (bool_decide
              (VariableInserter.cause_variable ins ∈ named_causes)) eqn:E.
  - left. apply bool_decide_eq_true in E.
    rewrite (bool_decide_eq_false_2
               (VariableInserter.cause_variable ins ∉ named_causes))
      in Hins by (intros Hno; by apply Hno).
    rewrite andb_false_r in Hins. by injection Hins.
  - right. rewrite andb_false_r in Hrep. by injection Hrep.
Qed.

(** A suite that defines the effect is a site of exactly one of the two
    operators: of the replacer when the cause is among its causes, of the
    inserter when it is not. *)
Theorem suite_of_the_effect_is_a_site_of_one
    (ins : VariableInserter.operator) (rep : VariableReplacer.operator)
    (parent : option node) (n : node)
    (named_causes named_effects : list string) (site : position * position) :
  VariableReplacer.cause_variable rep = VariableInserter.cause_variable ins ->
  VariableReplacer.effect_variable rep
  = Some (VariableInserter.effect_variable ins) ->
  gathered parent n = ok (Some (named_causes, named_effects)) ->
  VariableInserter.effect_variable ins ∈ named_effects ->
  span n = ok site ->
  if bool_decide (VariableInserter.cause_variable ins ∈ named_causes)
  then inserter_sites ins parent n = ok []
       /\ replacer_sites rep parent n = ok [site]
  else inserter_sites ins parent n = ok [site]
       /\ replacer_sites rep parent n = ok [].
Proof.
  unfold VariableInserter.mutation_positions,
    VariableReplacer.mutation_positions, VariableReplacer.effect_in.
  intros -> -> -> Heffect ->. cbn [rbind ok].
  rewrite (bool_decide_eq_true_2 _ Heffect). cbn [andb].
  destruct (bool_decide
              (VariableInserter.cause_variable ins ∈ named_causes)) eqn:E.
  - apply bool_decide_eq_true in E.
    rewrite (bool_decide_eq_false_2
               (VariableInserter.cause_variable ins ∉ named_causes))
      by (intros Hno; by apply Hno).
    by split.
  - apply bool_decide_eq_false in E.
    rewrite (bool_decide_eq_true_2
               (VariableInserter.cause_variable ins ∉ named_causes) E).
    by split.
Qed.

(** A replacer that is built without an effect variable has no site: its
    [mutation_positions] gathers the causes and the effects, raises when
    that raises, and yields nothing. *)
Theorem replacer_without_effect_has_no_site
    (rep : VariableReplacer.operator) (parent : option node) (n : node) :
  VariableReplacer.effect_variable rep = None ->
  replacer_sites rep parent n = ok []
  \/ exists err, gathered parent n = raise err
                 /\ replacer_sites rep parent n = raise err.
Proof.
  unfold VariableReplacer.mutation_positions, VariableReplacer.effect_in.
  intros ->.
  destruct (gathered parent n) as [err|[[named_causes named_effects]|]];
    [right; by exists err|by left|by left].
Qed.

(** *** Every cause is a leaf *)

Lemma for_expr_nodes_leaves (stmts causes effects causes' effects' : list node) :
  Forall (fun x => is_Leaf x = true) causes ->
  for_expr_nodes get_rhs get_defined_names stmts causes effects
  = ok (causes', effects') ->
  Forall (fun x => is_Leaf x = true) causes'.
Proof.
  revert causes effects. induction stmts as [|stmt stmts IH];
    intros causes effects Hleaves Hrun; cbn [for_expr_nodes] in Hrun.
  - by injection Hrun as <- <-.
  - unfold _get_causes_from_expr_node in Hrun.
    destruct (call_get_rhs get_rhs stmt) as [err|rhs]; [discriminate|].
    cbn [rbind] in Hrun. destruct (children rhs) as [err|rcs]; [discriminate|].
    cbn [rbind ok] in Hrun.
    destruct (call_get_defined_names get_defined_names stmt) as [err|defined];
      [discriminate|].
    cbn [rbind] in Hrun. eapply IH; [|exact Hrun].
    apply Forall_app. split; [exact Hleaves|apply flatten_expr_leaves].
Qed.

Lemma for_grandchild_leaves (gcs causes effects causes' effects' : list node) :
  Forall (fun g => forall found,
            suite_nodes g = ok found ->
            Forall (fun x => is_Leaf x = true) found.1) gcs ->
  Forall (fun x => is_Leaf x = true) causes ->
  for_grandchild get_rhs get_defined_names gcs causes effects
  = ok (causes', effects') ->
  Forall (fun x => is_Leaf x = true) causes'.
Proof.
  intros Hgcs. revert causes effects.
  induction Hgcs as [|gc gcs Hgc Hgcs IH]; intros causes effects Hleaves Hrun;
    cbn [for_grandchild] in Hrun.
  - by injection Hrun as <- <-.
  - destruct gc as [|[| | | |type] ggcs]; try (by eapply IH).
    destruct (bool_decide (type = "suite"));
      [|destruct (bool_decide (type = "comparison")); [|by eapply IH]].
    + destruct (suite_nodes (BaseNode (PythonNode type) ggcs))
        as [err|found] eqn:Hfound; [discriminate|].
      cbn [rbind] in Hrun. eapply IH; [|exact Hrun].
      apply Forall_app. split; [exact Hleaves|by apply Hgc].
    + cbn [_flatten_comparison rbind ok] in Hrun.
      eapply IH; [|exact Hrun].
      apply Forall_app. split; [exact Hleaves|].
      rewrite flatten_children_expr. apply flatten_expr_leaves.
Qed.

Lemma for_child_leaves
    (cs causes effects expr_nodes causes' effects' expr_nodes' : list node) :
  Forall (fun child =>
            forall gcs, child = BaseNode IfStmt gcs ->
              Forall (fun g => forall found,
                        suite_nodes g = ok found ->
                        Forall (fun x => is_Leaf x = true) found.1) gcs) cs ->
  Forall (fun x => is_Leaf x = true) causes ->
  for_child get_rhs get_defined_names cs causes effects expr_nodes
  = ok (causes', effects', expr_nodes') ->
  Forall (fun x => is_Leaf x = true) causes'.
Proof.
  intros Hcs. revert causes effects expr_nodes.
  induction Hcs as [|child cs Hchild Hcs IH];
    intros causes effects expr_nodes Hleaves Hrun; cbn [for_child] in Hrun.
  - by injection Hrun as <- <- <-.
  - destruct child as [|[| | | |type] gcs]; try (by eapply IH).
    + destruct (for_grandchild get_rhs get_defined_names gcs causes effects)
        as [err|[found_causes found_effects]] eqn:Hfound; [discriminate|].
      cbn [rbind] in Hrun. eapply IH; [|exact Hrun].
      cbn [fst]. eapply for_grandchild_leaves; [|exact Hleaves|exact Hfound].
      by apply Hchild.
    + destruct (getitem gcs 0) as [err|first]; [discriminate|].
      cbn [rbind] in Hrun. by eapply IH.
Qed.

Lemma suite_nodes_leaves (n : node) :
  (forall found, suite_nodes n = ok found ->
                 Forall (fun x => is_Leaf x = true) found.1)
  /\ (forall cls cs, n = BaseNode cls cs ->
        Forall (fun g => forall found,
                  suite_nodes g = ok found ->
                  Forall (fun x => is_Leaf x = true) found.1) cs).
Proof.
  induction n as [type v prefix s e|cls cs IH] using node_induction.
  - split; [discriminate|discriminate].
  - assert (Forall (fun g => forall found,
                      suite_nodes g = ok found ->
                      Forall (fun x => is_Leaf x = true) found.1) cs)
      as Hchildren.
    { eapply Forall_impl; [exact IH|]. by intros g [Hg _]. }
    split; [|by intros ? ? [= <- <-]].
    intros [causes effects]. rewrite suite_nodes_loops.
    destruct (for_child get_rhs get_defined_names cs [] [] [])
      as [err|[[first_causes first_effects] stmts]] eqn:Hfirst;
      [discriminate|].
    cbn [rbind fst snd]. intros Hsecond.
    eapply for_expr_nodes_leaves; [|exact Hsecond].
    eapply for_child_leaves; [|constructor|exact Hfirst].
    eapply Forall_impl; [exact IH|]. intros child [_ Hchild] gcs ->.
    by eapply Hchild.
Qed.

(** Whatever the suite, each cause that is gathered from it is a leaf: so
    reading the [value] of every cause, as both [mutation_positions] do,
    returns the names of the causes. *)
Theorem gathered_causes_are_leaves (n : node) (causes effects : list node) :
  suite_nodes n = ok (causes, effects) ->
  Forall (fun x => is_Leaf x = true) causes
  /\ exists named_causes, values causes = ok named_causes.
Proof.
  intros Hrun.
  assert (Forall (fun x => is_Leaf x = true) causes) as Hleaves.
  { by apply (proj1 (suite_nodes_leaves n) (causes, effects)). }
  split; [exact Hleaves|]. by apply values_of_leaves.
Qed.

End Positions.

Lemma other_statement_in_the_suite_raises_witness :
  exists err,
    VariableInserter.mutation_positions sample.inserter_of_x parso.get_rhs
      sample.first_child
      (Some (BaseNode IfStmt [Leaf "keyword" "if" EmptyString (1, 0) (1, 2);
                              sample.pass_suite]))
      sample.pass_suite = raise err
    /\ VariableReplacer.mutation_positions sample.replacer_of_x
         parso.get_rhs sample.first_child
         (Some (BaseNode IfStmt [Leaf "keyword" "if" EmptyString (1, 0) (1, 2);
                                 sample.pass_suite]))
         sample.pass_suite = raise err.
Proof.
  apply (other_statement_in_the_suite_raises parso.get_rhs
           sample.first_child sample.inserter_of_x sample.replacer_of_x _ _
           (Leaf "keyword" "pass" "    " (2, 4) (2, 8))).
  - reflexivity.
  - cbn. left.
  - intros cls rcs. vm_compute. discriminate.
Defined.

Lemma inserter_and_replacer_share_no_site_witness :
  ([] : list (position * position)) = [] \/ [((1, 9), (3, 0))] = [].
Proof.
  apply (inserter_and_replacer_share_no_site parso.get_rhs
           sample.first_child sample.inserter_of_x sample.replacer_of_x
           (Some sample.if_stmt) sample.suite);
    [reflexivity|vm_compute; reflexivity|vm_compute; reflexivity].
Defined.

Lemma suite_of_the_effect_is_a_site_of_one_witness :
  VariableInserter.mutation_positions sample.inserter_of_x parso.get_rhs
    sample.first_child (Some sample.if_stmt) sample.suite = ok []
  /\ VariableReplacer.mutation_positions sample.replacer_of_x
       parso.get_rhs sample.first_child (Some sample.if_stmt) sample.suite
     = ok [((1, 9), (3, 0))].
Proof.
  apply (suite_of_the_effect_is_a_site_of_one parso.get_rhs
           sample.first_child sample.inserter_of_x sample.replacer_of_x
           (Some sample.if_stmt) sample.suite ["x"; "+"; "z"] ["y"]
           ((1, 9), (3, 0)));
    [reflexivity|reflexivity|vm_compute; reflexivity| |vm_compute; reflexivity].
  apply (bool_decide_unpack _). vm_compute. exact I.
Defined.

Lemma replacer_without_effect_has_no_site_witness :
  VariableReplacer.mutation_positions sample.replacer_without_effect
    parso.get_rhs sample.first_child (Some sample.if_stmt) sample.suite
  = ok []
  \/ exists err,
       named_causes_and_effects parso.get_rhs sample.first_child
         (Some sample.if_stmt) sample.suite = raise err
       /\ VariableReplacer.mutation_positions sample.replacer_without_effect
            parso.get_rhs sample.first_child (Some sample.if_stmt)
            sample.suite = raise err.
Proof.
  apply (replacer_without_effect_has_no_site parso.get_rhs
           sample.first_child sample.replacer_without_effect
           (Some sample.if_stmt) sample.suite).
  reflexivity.
Defined.

Lemma gathered_causes_are_leaves_witness :
  Forall (fun x => is_Leaf x = true)
    [Leaf "name" "x" " " (2, 8) (2, 9);
     Leaf "operator" "+" " " (2, 10) (2, 11);
     Leaf "name" "z" " " (2, 12) (2, 13)]
  /\ exists named_causes,
       values [Leaf "name" "x" " " (2, 8) (2, 9);
               Leaf "operator" "+" " " (2, 10) (2, 11);
               Leaf "name" "z" " " (2, 12) (2, 13)] = ok named_causes.
Proof.
  apply (gathered_causes_are_leaves parso.get_rhs sample.first_child
           sample.suite _ [Leaf "name" "y" "    " (2, 4) (2, 5)]).
  vm_compute. reflexivity.
Defined.

(** *** The mutation of the inserter *)

Section InserterMutate.

Variable self : VariableInserter.operator.
Variable leaf_end_pos : position -> string -> position.
Variable get_rhs : node -> result node.
Variable choice : nat -> VariableInserter.sign.

Local Abbreviation add_cause drawn :=
  (VariableInserter._add_cause_to_node self leaf_end_pos (choice drawn)).
Local Abbreviation add_cause_to_expr_node :=
  (VariableInserter.add_cause_to_expr_node self leaf_end_pos get_rhs choice).
Local Abbreviation second_loop :=
  (VariableInserter.for_expr_nodes self leaf_end_pos get_rhs choice).
Local Abbreviation first_loop :=
  (VariableInserter.for_child self leaf_end_pos get_rhs choice).
Local Abbreviation add_causes_to_suite :=
  (VariableInserter._add_causes_to_suite self leaf_end_pos get_rhs choice).
Local Abbreviation inserter_mutate :=
  (VariableInserter.mutate self leaf_end_pos get_rhs choice).

(** The method in terms of its two loops. *)
Lemma add_causes_loops (cls : node_class) (cs : list node) (d : nat) :
  add_causes_to_suite (BaseNode cls cs) d
  = rbind (first_loop cs d) (fun first =>
    rbind (second_loop first.1 first.2) (fun updated =>
    ok (BaseNode cls updated.1, updated.2))).
Proof. reflexivity. Qed.

(** On children without an [if] statement the first loop changes nothing
    and draws nothing. *)
Lemma first_loop_plain (cs : list node) (d : nat) :
  Forall (fun c => plain_child c = true) cs -> first_loop cs d = ok (cs, d).
Proof.
  induction 1 as [|child cs Hchild Hcs IH]; [reflexivity|].
  cbn [VariableInserter.for_child].
  destruct child as [|[| | | |type] gcs]; try discriminate;
    try (by rewrite IH).
  destruct gcs as [|first gcs]; [discriminate|].
  change (getitem (first :: gcs) 0) with (@ok node first).
  cbn [rbind ok]. by rewrite IH.
Qed.

Lemma add_cause_to_statement (cs : list node) (rhs : node) (e : position)
    (d : nat) :
  get_rhs (BaseNode ExprStmt cs) = ok rhs ->
  end_pos rhs = ok e ->
  exists new_rhs,
    add_cause d rhs = ok new_rhs
    /\ add_cause_to_expr_node (BaseNode ExprStmt cs) d
       = if bool_decide (2 < length cs)%nat
         then ok (BaseNode ExprStmt (<[2%nat := new_rhs]> cs), S d)
         else raise (IndexError "list assignment index out of range").
Proof.
  intros Hrhs He.
  unfold VariableInserter.add_cause_to_expr_node. cbn [call_get_rhs].
  rewrite Hrhs. cbn [rbind ok].
  unfold VariableInserter._add_cause_to_node at 1 2. rewrite He.
  cbn [rbind ok]. eexists. split; [reflexivity|].
  unfold setitem, norm_index. cbn [Z.ltb Z.compare Z.leb andb].
  case_bool_decide as Hlen.
  - rewrite (proj2 (Z.ltb_lt _ _)) by lia. reflexivity.
  - rewrite (proj2 (Z.ltb_ge _ _)) by lia. reflexivity.
Qed.

(** The second loop on the lines of a suite: a leaf is kept, and a line
    that starts with a statement of three children gets the cause added to
    the third. *)
Lemma second_loop_lines (cs : list node) (d : nat) :
  Forall (fun child =>
            is_Leaf child = true
            \/ exists type target op rhs rest e,
                 child = BaseNode (PythonNode type)
                           (BaseNode ExprStmt [target; op; rhs] :: rest)
                 /\ get_rhs (BaseNode ExprStmt [target; op; rhs]) = ok rhs
                 /\ end_pos rhs = ok e) cs ->
  exists cs',
    second_loop cs d
    = ok (cs', (d + length (filter (fun c => is_Leaf c = false) cs))%nat)
    /\ Forall2 (fun old new =>
                  (is_Leaf old = true /\ new = old)
                  \/ exists type target op rhs rest new_rhs k,
                       old = BaseNode (PythonNode type)
                               (BaseNode ExprStmt [target; op; rhs] :: rest)
                       /\ new = BaseNode (PythonNode type)
                                  (BaseNode ExprStmt [target; op; new_rhs]
                                     :: rest)
                       /\ (d <= k < d + length
                                        (filter (fun c => is_Leaf c = false)
                                           cs))%nat
                       /\ add_cause k rhs = ok new_rhs) cs cs'.
Proof.
  intros Hlines. revert d.
  induction Hlines as [|child cs Hchild Hcs IH]; intros d.
  - exists []. split; [|constructor]. cbn. do 2 f_equal. lia.
  - destruct Hchild
      as [Hleaf|(type & target & op & rhs & rest & e & -> & Hrhs & He)].
    + destruct child as [type v prefix s e|]; [|discriminate].
      destruct (IH d) as (cs' & Hrun & Hall).
      exists (Leaf type v prefix s e :: cs').
      cbn [VariableInserter.for_expr_nodes].
      rewrite Hrun. cbn [rbind ok fst snd]. rewrite filter_cons_False by done.
      split; [reflexivity|]. constructor; [by left|exact Hall].
    + destruct (add_cause_to_statement [target; op; rhs] rhs e d Hrhs He)
        as (new_rhs & Hnew & Hstmt).
      destruct (IH (S d)) as (cs' & Hrun & Hall).
      exists (BaseNode (PythonNode type)
                (BaseNode ExprStmt [target; op; new_rhs] :: rest) :: cs').
      cbn [VariableInserter.for_expr_nodes]. rewrite Hstmt.
      cbn [bool_decide decide_rel length]. 
      rewrite (bool_decide_eq_true_2 _) by (cbn; lia).
      cbn [rbind ok fst snd]. rewrite Hrun. cbn [rbind ok fst snd].
      rewrite filter_cons_True by done. cbn [length].
      split; [do 2 f_equal; lia|].
      constructor.
      * right. exists type, target, op, rhs, rest, new_rhs, d.
        repeat split; try done; lia.
      * eapply Forall2_impl; [exact Hall|]. intros old new. cbn beta.
        intros [Hkept|(t & a & b & c & r & n & k & -> & -> & Hk & Hadd)];
          [by left|].
        right. exists t, a, b, c, r, n, k. repeat split; try done; lia.
Qed.

(** [VariableInserter.mutate] asserts that the node is a suite. *)
Theorem inserter_mutates_suites_only (n : node) (index : Z) (d : nat) :
  (forall cs, n <> BaseNode (PythonNode "suite") cs) ->
  inserter_mutate n index d = raise AssertionError.
Proof.
  intros Hno. unfold VariableInserter.mutate.
  destruct n as [|[| | | |type] cs]; try reflexivity.
  case_bool_decide as Htype; [|reflexivity]. subst type.
  by destruct (Hno cs).
Qed.

(** The second loop of [_add_causes_to_suite] assigns the new right-hand
    side to the third child of the statement, wherever [get_rhs] has found
    the old one: a statement of fewer than three children (an annotated
    assignment) makes the method raise [IndexError], and in a statement of
    more than three (a chained assignment) the third child is overwritten
    while every other child, the last one too, stays as it was. *)
Theorem new_right_hand_side_is_the_third_child
    (cs : list node) (rhs : node) (e : position) (d : nat) :
  get_rhs (BaseNode ExprStmt cs) = ok rhs ->
  end_pos rhs = ok e ->
  exists new_rhs,
    add_cause d rhs = ok new_rhs
    /\ ((length cs <= 2)%nat ->
        add_cause_to_expr_node (BaseNode ExprStmt cs) d
        = raise (IndexError "list assignment index out of range"))
    /\ ((2 < length cs)%nat ->
        exists cs',
          add_cause_to_expr_node (BaseNode ExprStmt cs) d
          = ok (BaseNode ExprStmt cs', S d)
          /\ cs' !! 2%nat = Some new_rhs
          /\ length cs' = length cs
          /\ forall i, i <> 2%nat -> cs' !! i = cs !! i).
Proof.
  intros Hrhs He.
  destruct (add_cause_to_statement cs rhs e d Hrhs He)
    as (new_rhs & Hnew & Hstmt).
  exists new_rhs. split; [exact Hnew|]. split.
  - intros Hshort. rewrite Hstmt.
    by rewrite (bool_decide_eq_false_2 _) by lia.
  - intros Hlong. exists (<[2%nat := new_rhs]> cs). rewrite Hstmt.
    rewrite (bool_decide_eq_true_2 _) by lia.
    split; [reflexivity|]. split; [by apply list_lookup_insert_eq|].
    split; [apply length_insert|].
    intros i Hi. by apply list_lookup_insert_ne.
Qed.

(** In a suite whose lines are assignments of three children, [mutate]
    adds the cause to the right-hand side of every line, with one sign
    drawn for each, and changes nothing else. *)
Theorem inserter_rewrites_every_line (cs : list node) (index : Z) (d : nat) :
  Forall (fun child =>
            is_Leaf child = true
            \/ exists type target op rhs rest e,
                 child = BaseNode (PythonNode type)
                           (BaseNode ExprStmt [target; op; rhs] :: rest)
                 /\ get_rhs (BaseNode ExprStmt [target; op; rhs]) = ok rhs
                 /\ end_pos rhs = ok e) cs ->
  exists cs',
    inserter_mutate (BaseNode (PythonNode "suite") cs) index d
    = ok (BaseNode (PythonNode "suite") cs',
          (d + length (filter (fun c => is_Leaf c = false) cs))%nat)
    /\ Forall2 (fun old new =>
                  (is_Leaf old = true /\ new = old)
                  \/ exists type target op rhs rest new_rhs k,
                       old = BaseNode (PythonNode type)
                               (BaseNode ExprStmt [target; op; rhs] :: rest)
                       /\ new = BaseNode (PythonNode type)
                                  (BaseNode ExprStmt [target; op; new_rhs]
                                     :: rest)
                       /\ (d <= k < d + length
                                        (filter (fun c => is_Leaf c = false)
                                           cs))%nat
                       /\ add_cause k rhs = ok new_rhs) cs cs'.
Proof.
  intros Hlines.
  destruct (second_loop_lines cs d Hlines) as (cs' & Hrun & Hall).
  exists cs'. split; [|exact Hall].
  unfold VariableInserter.mutate. cbn [bool_decide decide_rel].
  rewrite (bool_decide_eq_true_2 _ eq_refl), add_causes_loops.
  rewrite first_loop_plain.
  - cbn [rbind ok fst snd]. by rewrite Hrun.
  - eapply Forall_impl; [exact Hlines|]. intros child.
    intros [Hleaf|(type & target & op & rhs & rest & e & -> & _)];
      [by destruct child|reflexivity].
Qed.

(** The second loop of the gathering on statements that carry the cause
    at the end of their right-hand side. *)
Lemma for_expr_nodes_with_cause
    (get_defined_names : node -> result (list node))
    (stmts causes effects causes' effects' : list node) :
  (forall target op rcs,
     get_rhs (BaseNode ExprStmt
                [target; op; BaseNode (PythonNode "arith_expr") rcs])
     = ok (BaseNode (PythonNode "arith_expr") rcs)) ->
  Forall (fun stmt =>
            exists target op rhs k new_rhs,
              stmt = BaseNode ExprStmt [target; op; new_rhs]
              /\ add_cause k rhs = ok new_rhs) stmts ->
  Exists (fun x => named (VariableInserter.cause_variable self) x = true)
    causes
  \/ effects = [] ->
  for_expr_nodes get_rhs get_defined_names stmts causes effects
  = ok (causes', effects') ->
  Exists (fun x => named (VariableInserter.cause_variable self) x = true)
    causes'
  \/ effects' = [].
Proof.
  intros Hrhs Hstmts. revert causes effects.
  induction Hstmts as [|stmt stmts Hstmt Hstmts IH];
    intros causes effects Hinv Hrun; cbn [for_expr_nodes] in Hrun.
  - by injection Hrun as <- <-.
  - destruct Hstmt as (target & op & rhs & k & new_rhs & -> & Hnew).
    unfold VariableInserter._add_cause_to_node in Hnew.
    destruct (end_pos rhs) as [err|e]; [discriminate|].
    cbn [rbind ok] in Hnew. injection Hnew as <-.
    unfold _get_causes_from_expr_node in Hrun. cbn [call_get_rhs] in Hrun.
    rewrite Hrhs in Hrun. cbn [rbind ok children] in Hrun.
    destruct (call_get_defined_names _ _) as [err|defined]; [discriminate|].
    cbn [rbind] in Hrun. eapply IH; [|exact Hrun].
    left. apply Exists_app. right.
    change [rhs; ?a; ?b] with ([rhs] ++ [a; b]).
    rewrite flatten_expr_app. apply Exists_app. right.
    cbn [_flatten_expr flatten_item app]. right. left.
    cbn [named]. by apply bool_decide_eq_true.
Qed.

(** A suite that [mutate] has rewritten is no site of the inserter any
    more. *)
Theorem inserter_mutant_is_no_site
    (get_defined_names : node -> result (list node))
    (parent : option node) (cs : list node) (index : Z) (d : nat) :
  (forall target op rcs,
     get_rhs (BaseNode ExprStmt
                [target; op; BaseNode (PythonNode "arith_expr") rcs])
     = ok (BaseNode (PythonNode "arith_expr") rcs)) ->
  Forall (fun child =>
            is_Leaf child = true
            \/ exists type target op rhs rest e,
                 child = BaseNode (PythonNode type)
                           (BaseNode ExprStmt [target; op; rhs] :: rest)
                 /\ get_rhs (BaseNode ExprStmt [target; op; rhs]) = ok rhs
                 /\ end_pos rhs = ok e) cs ->
  exists mutant d',
    inserter_mutate (BaseNode (PythonNode "suite") cs) index d
    = ok (mutant, d')
    /\ (VariableInserter.mutation_positions self get_rhs get_defined_names
          parent mutant = ok []
        \/ exists err,
             VariableInserter.mutation_positions self get_rhs
               get_defined_names parent mutant = raise err).
Proof.
  intros Hrhs Hlines.
  destruct (second_loop_lines cs d Hlines) as (cs' & Hrun & Hall).
  assert (inserter_mutate (BaseNode (PythonNode "suite") cs) index d
          = ok (BaseNode (PythonNode "suite") cs',
                (d + length (filter (fun c => is_Leaf c = false) cs))%nat))
    as Hmutate.
  { unfold VariableInserter.mutate.
    rewrite (bool_decide_eq_true_2 _ eq_refl), add_causes_loops.
    rewrite first_loop_plain.
    - cbn [rbind ok fst snd]. by rewrite Hrun.
    - eapply Forall_impl; [exact Hlines|]. intros child.
      intros [Hleaf|(type & target & op & rhs & rest & e & -> & _)];
        [by destruct child|reflexivity]. }
  eexists _, _. split; [exact Hmutate|].
  assert (Forall (fun c => plain_child c = true) cs') as Hplain.
  { clear Hrun Hmutate. induction Hall as [|old new olds news Hone _ IH];
      constructor.
    - destruct Hone as [[Hleaf ->]|(t & a & b & c & r & n & k & _ & -> & _)];
        [by destruct old|reflexivity].
    - exact IH. }
  assert (Forall (fun stmt =>
                    exists target op rhs k new_rhs,
                      stmt = BaseNode ExprStmt [target; op; new_rhs]
                      /\ add_cause k rhs = ok new_rhs)
            (omap collected cs')) as Hstmts.
  { clear Hrun Hmutate Hplain.
    induction Hall as [|old new olds news Hone _ IH]; [constructor|].
    destruct Hone as [[Hleaf ->]|(t & a & b & c & r & n & k & _ & -> & _ & Hn)].
    - destruct old; [|discriminate]. cbn [omap collected]. exact IH.
    - cbn [omap collected]. constructor; [|exact IH].
      by exists a, b, c, k, n. }
  unfold VariableInserter.mutation_positions, named_causes_and_effects.
  destruct parent as [[|[| | | |] siblings]|]; try (by left).
  rewrite (bool_decide_eq_true_2 _ eq_refl).
  destruct (text_in "else" siblings); [by left|]. cbn [negb].
  rewrite suite_nodes_loops, (for_child_plain _ _ _ _ _ _ Hplain).
  cbn [rbind ok fst snd app].
  destruct (for_expr_nodes get_rhs get_defined_names (omap collected cs') [] [])
    as [err|[causes effects]] eqn:Hgather; [right; by exists err|].
  cbn [rbind fst snd].
  destruct (values causes) as [err|named_causes] eqn:Hcauses;
    [right; by exists err|].
  cbn [rbind].
  destruct (values effects) as [err|named_effects] eqn:Heffects;
    [right; by exists err|].
  cbn [rbind ok].
  destruct (for_expr_nodes_with_cause get_defined_names _ [] [] _ _
              Hrhs Hstmts (or_intror eq_refl) Hgather) as [Hcause| ->].
  - pose proof (values_named _ _ _ Hcauses Hcause) as Hin.
    rewrite (bool_decide_eq_false_2
               (VariableInserter.cause_variable self ∉ named_causes))
      by (intros Hno; by apply Hno).
    rewrite andb_false_r. by left.
  - injection Heffects as <-.
    rewrite (bool_decide_eq_false_2 _) by apply not_elem_of_nil.
    by left.
Qed.

End InserterMutate.

Lemma inserter_mutates_suites_only_witness :
  VariableInserter.mutate sample.inserter_of_j sample.same_line
    parso.get_rhs sample.always_plus sample.sum 0 0
  = raise AssertionError.
Proof.
  apply (inserter_mutates_suites_only sample.inserter_of_j sample.same_line
           parso.get_rhs sample.always_plus sample.sum 0 0).
  intros cs Hsuite. discriminate Hsuite.
Defined.

Lemma new_right_hand_side_is_the_third_child_witness :
  exists cs',
    VariableInserter.add_cause_to_expr_node sample.inserter_of_j
      sample.same_line parso.get_rhs sample.always_plus
      (BaseNode ExprStmt sample.chained) 0
    = ok (BaseNode ExprStmt cs', 1%nat)
    /\ cs' !! 4%nat = Some sample.sum.
Proof.
  destruct (new_right_hand_side_is_the_third_child sample.inserter_of_j
              sample.same_line parso.get_rhs sample.always_plus
              sample.chained sample.sum (2, 13) 0 eq_refl eq_refl)
    as (new_rhs & _ & _ & Hlong).
  destruct Hlong as (cs' & Hrun & _ & _ & Hothers); [cbn; lia|].
  exists cs'. split; [exact Hrun|]. by rewrite Hothers.
Defined.

Lemma sample_suite_lines :
  Forall (fun child =>
            is_Leaf child = true
            \/ exists type target op rhs rest e,
                 child = BaseNode (PythonNode type)
                           (BaseNode ExprStmt [target; op; rhs] :: rest)
                 /\ parso.get_rhs (BaseNode ExprStmt [target; op; rhs])
                    = ok rhs
                 /\ end_pos rhs = ok e)
    [Leaf "newline" sample.line_end EmptyString (1, 9) (2, 0);
     BaseNode (PythonNode "simple_stmt")
       [sample.assignment;
        Leaf "newline" sample.line_end EmptyString (2, 13) (3, 0)]].
Proof.
  constructor; [by left|]. constructor; [|constructor].
  right. eexists _, _, _, _, _, (2, 13). split; [reflexivity|]. by split.
Defined.

Lemma inserter_rewrites_every_line_witness :
  exists cs',
    VariableInserter.mutate sample.inserter_of_j sample.same_line
      parso.get_rhs sample.always_plus sample.suite 0 0
    = ok (BaseNode (PythonNode "suite") cs', 1%nat).
Proof.
  destruct (inserter_rewrites_every_line sample.inserter_of_j
              sample.same_line parso.get_rhs sample.always_plus _ 0 0
              sample_suite_lines) as (cs' & Hrun & _).
  exists cs'. exact Hrun.
Defined.

Lemma inserter_mutant_is_no_site_witness :
  exists mutant d',
    VariableInserter.mutate sample.inserter_of_j sample.same_line
      parso.get_rhs sample.always_plus sample.suite 0 0
    = ok (mutant, d')
    /\ (VariableInserter.mutation_positions sample.inserter_of_j
          parso.get_rhs sample.first_child (Some sample.if_stmt) mutant
        = ok []
        \/ exists err,
             VariableInserter.mutation_positions sample.inserter_of_j
               parso.get_rhs sample.first_child (Some sample.if_stmt)
               mutant = raise err).
Proof.
  apply (inserter_mutant_is_no_site sample.inserter_of_j sample.same_line
           parso.get_rhs sample.always_plus sample.first_child
           (Some sample.if_stmt) _ 0 0).
  - intros target op rcs. reflexivity.
  - exact sample_suite_lines.
Defined.

(** *** The mutation of the replacer *)

Section ReplacerMutate.

Variable self : VariableReplacer.operator.
Variable leaf_end_pos : position -> string -> position.
Variable randint : nat -> Z.

Local Abbreviation replace_cause n drawn :=
  (VariableReplacer._replace_named_variable_in_expr leaf_end_pos randint n
     (VariableReplacer.cause_variable self) drawn).
Local Abbreviation replace_in_expr_node :=
  (VariableReplacer.replace_in_expr_node self leaf_end_pos randint).
Local Abbreviation replacer_second_loop :=
  (VariableReplacer.suite_for_expr_nodes self leaf_end_pos randint).
Local Abbreviation replacer_first_loop :=
  (VariableReplacer.suite_for_child self leaf_end_pos randint).
Local Abbreviation replacer_mutate :=
  (VariableReplacer.mutate self leaf_end_pos randint).

Lemma replacer_first_loop_plain (cs : list node) (d : nat) :
  Forall (fun c => plain_child c = true) cs ->
  replacer_first_loop cs d = ok (cs, d).
Proof.
  induction 1 as [|child cs Hchild Hcs IH]; [reflexivity|].
  cbn [VariableReplacer.suite_for_child].
  destruct child as [|[| | | |type] gcs]; try discriminate;
    try (by rewrite IH).
  destruct gcs as [|first gcs]; [discriminate|].
  change (getitem (first :: gcs) 0) with (@ok node first).
  cbn [rbind ok]. by rewrite IH.
Qed.

(** A statement of three children whose last child is no annotation: the
    last child is the right-hand side, and it is replaced by what
    [_replace_named_variable_in_expr] returns for it. *)
Lemma replace_in_statement (target op rhs : node) (d : nat) :
  node_type rhs <> "annassign" ->
  replace_in_expr_node (BaseNode ExprStmt [target; op; rhs]) d
  = ok (BaseNode ExprStmt [target; op; (replace_cause rhs d).1],
        (replace_cause rhs d).2).
Proof.
  intros Hplain. unfold VariableReplacer.replace_in_expr_node.
  cbn [call_get_rhs]. unfold get_rhs. cbn [children rbind ok].
  change (getitem [target; op; rhs] (-1)) with (@ok node rhs).
  cbn [rbind ok]. rewrite (bool_decide_eq_false_2 _ Hplain).
  cbn [rbind ok]. unfold VariableReplacer.rhs_rewritten.
  destruct rhs as [type v prefix s e|[| | | |type] rcs]; try reflexivity.
  cbn [is_Leaf last]. cbn [node_type] in Hplain.
  by rewrite (bool_decide_eq_false_2 _ Hplain).
Qed.

Lemma replacer_second_loop_lines (cs : list node) (d : nat) :
  Forall (fun child =>
            is_Leaf child = true
            \/ exists type target op rhs rest,
                 child = BaseNode (PythonNode type)
                           (BaseNode ExprStmt [target; op; rhs] :: rest)
                 /\ node_type rhs <> "annassign") cs ->
  exists cs' d',
    replacer_second_loop cs d = ok (cs', d')
    /\ (d <= d')%nat
    /\ Forall2 (fun old new =>
                  (is_Leaf old = true /\ new = old)
                  \/ exists type target op rhs rest k,
                       old = BaseNode (PythonNode type)
                               (BaseNode ExprStmt [target; op; rhs] :: rest)
                       /\ new = BaseNode (PythonNode type)
                                  (BaseNode ExprStmt
                                     [target; op; (replace_cause rhs k).1]
                                     :: rest)
                       /\ (d <= k <= d')%nat) cs cs'.
Proof.
  intros Hlines. revert d.
  induction Hlines as [|child cs Hchild Hcs IH]; intros d.
  - exists [], d. split; [reflexivity|]. split; [lia|constructor].
  - destruct Hchild
      as [Hleaf|(type & target & op & rhs & rest & -> & Hplain)].
    + destruct child as [type v prefix s e|]; [|discriminate].
      destruct (IH d) as (cs' & d' & Hrun & Hle & Hall).
      exists (Leaf type v prefix s e :: cs'), d'.
      cbn [VariableReplacer.suite_for_expr_nodes].
      rewrite Hrun. cbn [rbind ok fst snd].
      split; [reflexivity|]. split; [exact Hle|].
      constructor; [by left|exact Hall].
    + pose proof (replace_draws leaf_end_pos randint rhs
                    (VariableReplacer.cause_variable self) d) as Hdraws.
      destruct (IH (replace_cause rhs d).2) as (cs' & d' & Hrun & Hle & Hall).
      exists (BaseNode (PythonNode type)
                (BaseNode ExprStmt [target; op; (replace_cause rhs d).1]
                   :: rest) :: cs'), d'.
      cbn [VariableReplacer.suite_for_expr_nodes].
      rewrite (replace_in_statement _ _ _ _ Hplain).
      cbn [rbind ok fst snd]. rewrite Hrun. cbn [rbind ok fst snd].
      split; [reflexivity|]. split; [lia|].
      constructor.
      * right. exists type, target, op, rhs, rest, d.
        repeat split; try done; lia.
      * eapply Forall2_impl; [exact Hall|]. intros old new. cbn beta.
        intros [Hkept|(t & a & b & c & r & k & -> & -> & Hk)]; [by left|].
        right. exists t, a, b, c, r, k. repeat split; try done; lia.
Qed.

(** [VariableReplacer.mutate] asserts that the node is a suite. *)
Theorem replacer_mutates_suites_only (n : node) (index : Z) (d : nat) :
  (forall cs, n <> BaseNode (PythonNode "suite") cs) ->
  replacer_mutate n index d = raise AssertionError.
Proof.
  intros Hno. unfold VariableReplacer.mutate.
  destruct n as [|[| | | |type] cs]; try reflexivity.
  case_bool_decide as Htype; [|reflexivity]. subst type.
  by destruct (Hno cs).
Qed.

(** In a suite whose lines are assignments of three children, [mutate]
    replaces the cause on the right-hand side of every line and changes
    nothing else: the target of a line is kept as it is, whatever its
    name. *)
Theorem replacer_rewrites_every_line (cs : list node) (index : Z) (d : nat) :
  Forall (fun child =>
            is_Leaf child = true
            \/ exists type target op rhs rest,
                 child = BaseNode (PythonNode type)
                           (BaseNode ExprStmt [target; op; rhs] :: rest)
                 /\ node_type rhs <> "annassign") cs ->
  exists cs' d',
    replacer_mutate (BaseNode (PythonNode "suite") cs) index d
    = ok (BaseNode (PythonNode "suite") cs', d')
    /\ (d <= d')%nat
    /\ Forall2 (fun old new =>
                  (is_Leaf old = true /\ new = old)
                  \/ exists type target op rhs rest k,
                       old = BaseNode (PythonNode type)
                               (BaseNode ExprStmt [target; op; rhs] :: rest)
                       /\ new = BaseNode (PythonNode type)
                                  (BaseNode ExprStmt
                                     [target; op; (replace_cause rhs k).1]
                                     :: rest)
                       /\ (d <= k <= d')%nat) cs cs'.
Proof.
  intros Hlines.
  destruct (replacer_second_loop_lines cs d Hlines)
    as (cs' & d' & Hrun & Hle & Hall).
  exists cs', d'. split; [|by split].
  unfold VariableReplacer.mutate, VariableReplacer._replace_causes_in_suite.
  rewrite (bool_decide_eq_true_2 _ eq_refl). cbn [children rbind ok].
  rewrite replacer_first_loop_plain.
  - cbn [rbind ok fst snd]. by rewrite Hrun.
  - eapply Forall_impl; [exact Hlines|]. intros child.
    intros [Hleaf|(type & target & op & rhs & rest & -> & _)];
      [by destruct child|reflexivity].
Qed.

Lemma for_expr_nodes_without_cause
    (get_defined_names : node -> result (list node))
    (stmts causes effects causes' effects' : list node) :
  (forall k, pretty (randint k) <> VariableReplacer.cause_variable self) ->
  Forall (fun stmt =>
            exists target op rhs k,
              stmt = BaseNode ExprStmt [target; op; (replace_cause rhs k).1]
              /\ node_type rhs <> "annassign") stmts ->
  Forall (fun x => named (VariableReplacer.cause_variable self) x = false)
    causes ->
  for_expr_nodes parso.get_rhs get_defined_names stmts causes effects
  = ok (causes', effects') ->
  Forall (fun x => named (VariableReplacer.cause_variable self) x = false)
    causes'.
Proof.
  intros Hfresh Hstmts. revert causes effects.
  induction Hstmts as [|stmt stmts Hstmt Hstmts IH];
    intros causes effects Hinv Hrun; cbn [for_expr_nodes] in Hrun.
  - by injection Hrun as <- <-.
  - destruct Hstmt as (target & op & rhs & k & -> & Hplain).
    pose proof (node_type_replace leaf_end_pos randint rhs
                  (VariableReplacer.cause_variable self) k Hplain) as Hplain'.
    pose proof (replace_fresh leaf_end_pos randint rhs _ k Hfresh) as Hgone.
    unfold _get_causes_from_expr_node in Hrun. cbn [call_get_rhs] in Hrun.
    unfold get_rhs in Hrun. cbn [children rbind ok] in Hrun.
    change (getitem [target; op; ?r] (-1)) with (@ok node r) in Hrun.
    cbn [rbind ok] in Hrun.
    rewrite (bool_decide_eq_false_2 _ Hplain') in Hrun.
    cbn [rbind ok] in Hrun.
    destruct (replace_cause rhs k).1 as [|cls rcs]; [discriminate|].
    cbn [children rbind ok] in Hrun.
    destruct (call_get_defined_names _ _) as [err|defined]; [discriminate|].
    cbn [rbind] in Hrun. eapply IH; [|exact Hrun].
    apply Forall_app. split; [exact Hinv|].
    by rewrite flatten_item_node in Hgone.
Qed.

(** When no number that is drawn reads as the cause, a suite that
    [mutate] has rewritten is no site of the replacer any more. *)
Theorem replacer_mutant_is_no_site
    (get_defined_names : node -> result (list node))
    (parent : option node) (cs : list node) (index : Z) (d : nat) :
  (forall k, pretty (randint k) <> VariableReplacer.cause_variable self) ->
  Forall (fun child =>
            is_Leaf child = true
            \/ exists type target op rhs rest,
                 child = BaseNode (PythonNode type)
                           (BaseNode ExprStmt [target; op; rhs] :: rest)
                 /\ node_type rhs <> "annassign") cs ->
  exists mutant d',
    replacer_mutate (BaseNode (PythonNode "suite") cs) index d
    = ok (mutant, d')
    /\ (VariableReplacer.mutation_positions self parso.get_rhs
          get_defined_names parent mutant = ok []
        \/ exists err,
             VariableReplacer.mutation_positions self parso.get_rhs
               get_defined_names parent mutant = raise err).
Proof.
  intros Hfresh Hlines.
  destruct (replacer_second_loop_lines cs d Hlines)
    as (cs' & d' & Hrun & Hle & Hall).
  assert (replacer_mutate (BaseNode (PythonNode "suite") cs) index d
          = ok (BaseNode (PythonNode "suite") cs', d')) as Hmutate.
  { unfold VariableReplacer.mutate, VariableReplacer._replace_causes_in_suite.
    rewrite (bool_decide_eq_true_2 _ eq_refl). cbn [children rbind ok].
    rewrite replacer_first_loop_plain.
    - cbn [rbind ok fst snd]. by rewrite Hrun.
    - eapply Forall_impl; [exact Hlines|]. intros child.
      intros [Hleaf|(type & target & op & rhs & rest & -> & _)];
        [by destruct child|reflexivity]. }
  eexists _, _. split; [exact Hmutate|].
  assert (Forall (fun c => plain_child c = true) cs') as Hplain.
  { clear Hrun Hmutate Hlines.
    induction Hall as [|old new olds news Hone _ IH]; [constructor|].
    constructor; [|exact IH].
    destruct Hone as [[Hleaf ->]|(t & a & b & c & r & k & _ & -> & _)];
      [by destruct old|reflexivity]. }
  assert (Forall (fun stmt =>
                    exists target op rhs k,
                      stmt = BaseNode ExprStmt
                               [target; op; (replace_cause rhs k).1]
                      /\ node_type rhs <> "annassign")
            (omap collected cs')) as Hstmts.
  { clear Hrun Hmutate Hplain. revert Hlines.
    induction Hall as [|old new olds news Hone _ IH]; intros Hlines;
      [constructor|].
    apply Forall_cons in Hlines as [Hline Hlines].
    destruct Hone as [[Hleaf ->]|(t & a & b & c & r & k & -> & -> & _)].
    - destruct old; [|discriminate]. cbn [omap collected]. by apply IH.
    - cbn [omap collected]. constructor; [|by apply IH].
      destruct Hline as [Hleaf|(t' & a' & b' & c' & r' & Heq & Hplain)];
        [discriminate|].
      injection Heq as -> -> -> -> ->. by exists a', b', c', k. }
  unfold VariableReplacer.mutation_positions, named_causes_and_effects.
  destruct parent as [[|[| | | |] siblings]|]; try (by left).
  rewrite (bool_decide_eq_true_2 _ eq_refl).
  destruct (text_in "else" siblings); [by left|]. cbn [negb].
  rewrite suite_nodes_loops, (for_child_plain _ _ _ _ _ _ Hplain).
  cbn [rbind ok fst snd app].
  destruct (for_expr_nodes parso.get_rhs get_defined_names
              (omap collected cs') [] [])
    as [err|[causes effects]] eqn:Hgather; [right; by exists err|].
  cbn [rbind fst snd].
  destruct (values causes) as [err|named_causes] eqn:Hcauses;
    [right; by exists err|].
  cbn [rbind].
  destruct (values effects) as [err|named_effects] eqn:Heffects;
    [right; by exists err|].
  cbn [rbind ok].
  pose proof (for_expr_nodes_without_cause get_defined_names _ [] [] _ _
                Hfresh Hstmts (Forall_nil_2 _) Hgather) as Hnone.
  pose proof (values_not_named _ _ _ Hcauses Hnone) as Hnotin.
  rewrite (bool_decide_eq_false_2 _ Hnotin), andb_false_r. by left.
Qed.

End ReplacerMutate.

Lemma replacer_mutates_suites_only_witness :
  VariableReplacer.mutate sample.replacer_of_x sample.same_line sample.ten
    sample.sum 0 0
  = raise AssertionError.
Proof.
  apply (replacer_mutates_suites_only sample.replacer_of_x sample.same_line
           sample.ten sample.sum 0 0).
  intros cs Hsuite. discriminate Hsuite.
Defined.

Lemma sample_suite_plain_lines :
  Forall (fun child =>
            is_Leaf child = true
            \/ exists type target op rhs rest,
                 child = BaseNode (PythonNode type)
                           (BaseNode ExprStmt [target; op; rhs] :: rest)
                 /\ node_type rhs <> "annassign")
    [Leaf "newline" sample.line_end EmptyString (1, 9) (2, 0);
     BaseNode (PythonNode "simple_stmt")
       [sample.assignment;
        Leaf "newline" sample.line_end EmptyString (2, 13) (3, 0)]].
Proof.
  constructor; [by left|]. constructor; [|constructor].
  right. eexists _, _, _, _, _. split; [reflexivity|]. discriminate.
Defined.

Lemma replacer_rewrites_every_line_witness :
  exists cs' d',
    VariableReplacer.mutate sample.replacer_of_x sample.same_line sample.ten
      sample.suite 0 0
    = ok (BaseNode (PythonNode "suite") cs', d').
Proof.
  destruct (replacer_rewrites_every_line sample.replacer_of_x
              sample.same_line sample.ten _ 0 0 sample_suite_plain_lines)
    as (cs' & d' & Hrun & _).
  exists cs', d'. exact Hrun.
Defined.

Lemma replacer_mutant_is_no_site_witness :
  exists mutant d',
    VariableReplacer.mutate sample.replacer_of_x sample.same_line sample.ten
      sample.suite 0 0
    = ok (mutant, d')
    /\ (VariableReplacer.mutation_positions sample.replacer_of_x
          parso.get_rhs sample.first_child (Some sample.if_stmt) mutant
        = ok []
        \/ exists err,
             VariableReplacer.mutation_positions sample.replacer_of_x
               parso.get_rhs sample.first_child (Some sample.if_stmt) mutant
             = raise err).
Proof.
  apply (replacer_mutant_is_no_site sample.replacer_of_x sample.same_line
           sample.ten sample.first_child (Some sample.if_stmt) _ 0 0).
  - intros k. vm_compute. discriminate.
  - exact sample_suite_plain_lines.
Defined.

(** *** What the two [mutate] return *)

Section InserterShape.

Variable self : VariableInserter.operator.
Variable leaf_end_pos : position -> string -> position.
Variable get_rhs : node -> result node.
Variable choice : nat -> VariableInserter.sign.

Local Abbreviation second_loop :=
  (VariableInserter.for_expr_nodes self leaf_end_pos get_rhs choice).
Local Abbreviation first_loop :=
  (VariableInserter.for_child self leaf_end_pos get_rhs choice).
Local Abbreviation inserter_mutate :=
  (VariableInserter.mutate self leaf_end_pos get_rhs choice).

(** Each loop hands back as many children as it was given. *)
Lemma first_loop_length (cs cs' : list node) (d d' : nat) :
  first_loop cs d = ok (cs', d') -> length cs' = length cs.
Proof.
  revert d cs' d'. induction cs as [|child cs IH]; intros d cs' d' Hrun;
    cbn [VariableInserter.for_child] in Hrun.
  - by injection Hrun as <- <-.
  - assert (forall k x, rbind (first_loop cs k)
                          (fun others => ok (x :: others.1, others.2))
                        = ok (cs', d') ->
                        length cs' = S (length cs)) as Hrest.
    { intros k x Hk.
      destruct (first_loop cs k) as [err|[rest j]] eqn:E; [discriminate|].
      cbn [rbind ok fst snd] in Hk. injection Hk as <- <-.
      cbn [length]. f_equal. by eapply IH. }
    destruct child as [|[| | | |type] gcs]; try (by eapply Hrest).
    + destruct (VariableInserter.for_grandchild _ _ _ _ gcs d)
        as [err|updated]; [discriminate|]. by eapply Hrest.
    + destruct (getitem gcs 0) as [err|first]; [discriminate|].
      by eapply Hrest.
Qed.

Lemma second_loop_length (cs cs' : list node) (d d' : nat) :
  second_loop cs d = ok (cs', d') -> length cs' = length cs.
Proof.
  revert d cs' d'. induction cs as [|child cs IH]; intros d cs' d' Hrun;
    cbn [VariableInserter.for_expr_nodes] in Hrun.
  - by injection Hrun as <- <-.
  - assert (forall k x, rbind (second_loop cs k)
                          (fun others => ok (x :: others.1, others.2))
                        = ok (cs', d') ->
                        length cs' = S (length cs)) as Hrest.
    { intros k x Hk.
      destruct (second_loop cs k) as [err|[rest j]] eqn:E; [discriminate|].
      cbn [rbind ok fst snd] in Hk. injection Hk as <- <-.
      cbn [length]. f_equal. by eapply IH. }
    destruct child as [|[| | | |type] gcs]; try (by eapply Hrest).
    + destruct (VariableInserter.add_cause_to_expr_node _ _ _ _ _ d)
        as [err|updated]; [discriminate|]. by eapply Hrest.
    + destruct gcs as [|first gcs]; [by eapply Hrest|].
      destruct (VariableInserter.add_cause_to_expr_node _ _ _ _ _ d)
        as [err|updated]; [discriminate|]. by eapply Hrest.
Qed.

(** What [VariableInserter.mutate] returns is the suite it was given,
    with children rewritten: a suite with as many children. *)
Lemma inserter_mutate_shape (n m : node) (index : Z) (d d' : nat) :
  inserter_mutate n index d = ok (m, d') ->
  exists cs cs',
    n = BaseNode (PythonNode "suite") cs
    /\ m = BaseNode (PythonNode "suite") cs'
    /\ length cs' = length cs.
Proof.
  unfold VariableInserter.mutate. intros Hrun.
  destruct n as [|[| | | |type] cs]; try discriminate.
  case_bool_decide as Htype; [subst type|discriminate].
  rewrite add_causes_loops in Hrun.
  destruct (first_loop cs d) as [err|[cs1 d1]] eqn:Hfirst; [discriminate|].
  cbn [rbind fst snd] in Hrun.
  destruct (second_loop cs1 d1) as [err|[cs2 d2]] eqn:Hsecond;
    [discriminate|].
  cbn [rbind ok fst snd] in Hrun. injection Hrun as <- <-.
  exists cs, cs2. split; [reflexivity|]. split; [reflexivity|].
  rewrite (second_loop_length _ _ _ _ Hsecond).
  by eapply first_loop_length.
Qed.

End InserterShape.

Section ReplacerShape.

Variable self : VariableReplacer.operator.
Variable leaf_end_pos : position -> string -> position.
Variable randint : nat -> Z.

Local Abbreviation replacer_second_loop :=
  (VariableReplacer.suite_for_expr_nodes self leaf_end_pos randint).
Local Abbreviation replacer_first_loop :=
  (VariableReplacer.suite_for_child self leaf_end_pos randint).
Local Abbreviation replacer_mutate :=
  (VariableReplacer.mutate self leaf_end_pos randint).

Lemma replacer_first_loop_length (cs cs' : list node) (d d' : nat) :
  replacer_first_loop cs d = ok (cs', d') -> length cs' = length cs.
Proof.
  revert d cs' d'. induction cs as [|child cs IH]; intros d cs' d' Hrun;
    cbn [VariableReplacer.suite_for_child] in Hrun.
  - by injection Hrun as <- <-.
  - assert (forall k x, rbind (replacer_first_loop cs k)
                          (fun others => ok (x :: others.1, others.2))
                        = ok (cs', d') ->
                        length cs' = S (length cs)) as Hrest.
    { intros k x Hk.
      destruct (replacer_first_loop cs k) as [err|[rest j]] eqn:E;
        [discriminate|].
      cbn [rbind ok fst snd] in Hk. injection Hk as <- <-.
      cbn [length]. f_equal. by eapply IH. }
    destruct child as [|[| | | |type] gcs]; try (by eapply Hrest).
    + destruct (VariableReplacer.suite_for_grandchild _ _ _ gcs d)
        as [err|updated]; [discriminate|]. by eapply Hrest.
    + destruct (getitem gcs 0) as [err|first]; [discriminate|].
      by eapply Hrest.
Qed.

Lemma replacer_second_loop_length (cs cs' : list node) (d d' : nat) :
  replacer_second_loop cs d = ok (cs', d') -> length cs' = length cs.
Proof.
  revert d cs' d'. induction cs as [|child cs IH]; intros d cs' d' Hrun;
    cbn [VariableReplacer.suite_for_expr_nodes] in Hrun.
  - by injection Hrun as <- <-.
  - assert (forall k x, rbind (replacer_second_loop cs k)
                          (fun others => ok (x :: others.1, others.2))
                        = ok (cs', d') ->
                        length cs' = S (length cs)) as Hrest.
    { intros k x Hk.
      destruct (replacer_second_loop cs k) as [err|[rest j]] eqn:E;
        [discriminate|].
      cbn [rbind ok fst snd] in Hk. injection Hk as <- <-.
      cbn [length]. f_equal. by eapply IH. }
    destruct child as [|[| | | |type] gcs]; try (by eapply Hrest).
    + destruct (VariableReplacer.replace_in_expr_node _ _ _ _ d)
        as [err|updated]; [discriminate|]. by eapply Hrest.
    + destruct gcs as [|first gcs]; [by eapply Hrest|].
      destruct (VariableReplacer.replace_in_expr_node _ _ _ _ d)
        as [err|updated]; [discriminate|]. by eapply Hrest.
Qed.

(** What [VariableReplacer.mutate] returns is the suite it was given,
    with children rewritten: a suite with as many children. *)
Lemma replacer_mutate_shape (n m : node) (index : Z) (d d' : nat) :
  replacer_mutate n index d = ok (m, d') ->
  exists cs cs',
    n = BaseNode (PythonNode "suite") cs
    /\ m = BaseNode (PythonNode "suite") cs'
    /\ length cs' = length cs.
Proof.
  unfold VariableReplacer.mutate, VariableReplacer._replace_causes_in_suite.
  intros Hrun.
  destruct n as [|[| | | |type] cs]; try discriminate.
  case_bool_decide as Htype; [subst type|discriminate].
  cbn [children rbind ok] in Hrun.
  destruct (replacer_first_loop cs d) as [err|[cs1 d1]] eqn:Hfirst;
    [discriminate|].
  cbn [rbind fst snd] in Hrun.
  destruct (replacer_second_loop cs1 d1) as [err|[cs2 d2]] eqn:Hsecond;
    [discriminate|].
  cbn [rbind ok fst snd] in Hrun. injection Hrun as <- <-.
  exists cs, cs2. split; [reflexivity|]. split; [reflexivity|].
  rewrite (replacer_second_loop_length _ _ _ _ Hsecond).
  by eapply replacer_first_loop_length.
Qed.

End ReplacerShape.

End VariableFacts.

(** ** The operator interface *)

Module CatalogFacts.

Import Py parso catalog.

(** What the two variable operators yield: nothing, or the span of the
    node. *)
Lemma suite_site (found : result (option (list string * list string)))
    (test : list string -> list string -> bool) (n : node)
    (sites : list (position * position)) :
  rbind found
    (fun found =>
       match found with
       | None => ok []
       | Some (named_causes, named_effects) =>
           if test named_causes named_effects
           then rbind (span n) (fun site => ok [site])
           else ok []
       end) = ok sites ->
  sites = [] \/ exists s, sites = [s] /\ span n = ok s.
Proof.
  destruct found as [err|[[named_causes named_effects]|]]; cbn [rbind];
    [discriminate| |by intros [= <-]; left].
  destruct (test named_causes named_effects); [|by intros [= <-]; left].
  destruct (span n) as [err|s]; [discriminate|].
  cbn [rbind ok]. intros [= <-]. right. by exists s.
Qed.

(** Claim C7, as amended.  The four operators that work on the [parso]
    tree ([NoOp], [ZeroIterationForLoop], [VariableInserter] and
    [VariableReplacer]) each expose the interface.  Each declares the
    generator [mutation_positions(self, node)], the method
    [mutate(self, node, index)] and the class method [examples].  What
    [mutation_positions] yields for a node is at most one site, a pair of a
    start and an end position: those of the node itself or, for
    [ZeroIterationForLoop], those of the iterable of the loop; [NoOp]
    yields exactly one.  What [mutate] returns, when it returns, is the node
    it was given ([NoOp]) or that node with children rewritten: a node of
    the same class with as many children.  [RemoveDecorator] declares
    [mutate(self, node, idx)], which returns the function definition it was
    given with its name, arguments and body as they were, and the visitor
    method [visit_FunctionDef(self, node)]; it declares neither
    [mutation_positions] nor [examples]. *)
Theorem parso_operators_expose_the_interface :
  (forall c,
     c ∈ [NoOp; ZeroIterationForLoop; VariableInserter; VariableReplacer] ->
     exposes_interface c = true
     /\ namespace c !! "mutation_positions"
        = Some (generator ["self"; "node"])
     /\ namespace c !! "mutate" = Some (method ["self"; "node"; "index"])
     /\ namespace c !! "examples" = Some (classmethod ["cls"]))
  /\ (forall n sites,
        NoOp.mutation_positions n = ok sites ->
        exists s, sites = [s] /\ span n = ok s)
  /\ (forall n sites,
        ZeroIterationForLoop.mutation_positions n = ok sites ->
        sites = []
        \/ exists cs expr s,
             n = BaseNode ForStmt cs /\ getitem cs 3 = ok expr
             /\ sites = [s] /\ span expr = ok s)
  /\ (forall self get_rhs get_defined_names parent n sites,
        VariableInserter.mutation_positions self get_rhs get_defined_names
          parent n = ok sites ->
        sites = [] \/ exists s, sites = [s] /\ span n = ok s)
  /\ (forall self get_rhs get_defined_names parent n sites,
        VariableReplacer.mutation_positions self get_rhs get_defined_names
          parent n = ok sites ->
        sites = [] \/ exists s, sites = [s] /\ span n = ok s)
  /\ (forall n index, NoOp.mutate n index = ok n)
  /\ (forall n index m,
        ZeroIterationForLoop.mutate n index = ok m ->
        exists cs cs',
          n = BaseNode ForStmt cs /\ m = BaseNode ForStmt cs'
          /\ length cs' = length cs)
  /\ (forall self leaf_end_pos get_rhs choice n index d m d',
        VariableInserter.mutate self leaf_end_pos get_rhs choice n index d
        = ok (m, d') ->
        exists cs cs',
          n = BaseNode (PythonNode "suite") cs
          /\ m = BaseNode (PythonNode "suite") cs'
          /\ length cs' = length cs)
  /\ (forall self leaf_end_pos randint n index d m d',
        VariableReplacer.mutate self leaf_end_pos randint n index d
        = ok (m, d') ->
        exists cs cs',
          n = BaseNode (PythonNode "suite") cs
          /\ m = BaseNode (PythonNode "suite") cs'
          /\ length cs' = length cs)
  /\ namespace RemoveDecorator !! "mutate"
     = Some (method ["self"; "node"; "idx"])
  /\ namespace RemoveDecorator !! "visit_FunctionDef"
     = Some (method ["self"; "node"])
  /\ namespace RemoveDecorator !! "mutation_positions" = None
  /\ namespace RemoveDecorator !! "examples" = None
  /\ (forall (Body : Type) (node node' : ast.FunctionDef Body) idx,
        RemoveDecorator.mutate node idx = ok node' ->
        ast.name node' = ast.name node
        /\ ast.args node' = ast.args node
        /\ ast.body node' = ast.body node).
Proof.
  split.
  { intros c Hc.
    repeat (apply elem_of_cons in Hc as [->|Hc]; [by vm_compute|]).
    by apply elem_of_nil in Hc. }
  split.
  { intros n sites. unfold NoOp.mutation_positions, span.
    destruct (start_pos n) as [err|s]; [discriminate|]. cbn [rbind].
    destruct (end_pos n) as [err|e]; [discriminate|]. cbn [rbind ok].
    intros [= <-]. by exists (s, e). }
  split.
  { intros n sites. unfold ZeroIterationForLoop.mutation_positions.
    destruct n as [|[| | | |type] cs]; cbn [is_ForStmt];
      try (intros [= <-]; by left).
    cbn [children rbind ok].
    destruct (getitem cs 3) as [err|expr] eqn:Hexpr; [discriminate|].
    cbn [rbind].
    destruct (start_pos expr) as [err|s] eqn:Hs; [discriminate|].
    cbn [rbind].
    destruct (end_pos expr) as [err|e] eqn:He; [discriminate|].
    cbn [rbind ok]. intros [= <-]. right. exists cs, expr, (s, e).
    repeat split; try done. unfold span. by rewrite Hs, He. }
  split.
  { intros self get_rhs get_defined_names parent n sites.
    unfold VariableInserter.mutation_positions.
    apply (suite_site _
             (fun named_causes named_effects =>
                bool_decide
                  (VariableInserter.effect_variable self ∈ named_effects)
                && bool_decide
                     (VariableInserter.cause_variable self ∉ named_causes))). }
  split.
  { intros self get_rhs get_defined_names parent n sites.
    unfold VariableReplacer.mutation_positions.
    apply (suite_site _
             (fun named_causes named_effects =>
                VariableReplacer.effect_in self named_effects
                && bool_decide
                     (VariableReplacer.cause_variable self ∈ named_causes))). }
  split; [reflexivity|].
  split.
  { intros n index m. unfold ZeroIterationForLoop.mutate.
    destruct (negb (index =? 0)); [discriminate|].
    destruct n as [|[| | | |type] cs]; cbn [is_ForStmt negb];
      try discriminate.
    unfold setitem. destruct (norm_index cs 3) as [j|]; [|discriminate].
    cbn [rbind ok]. intros [= <-].
    exists cs, (<[j := parse_empty_list]> cs).
    split; [reflexivity|]. split; [reflexivity|]. apply length_insert. }
  split.
  { intros self leaf_end_pos get_rhs choice n index d m d'.
    apply VariableFacts.inserter_mutate_shape. }
  split.
  { intros self leaf_end_pos randint n index d m d'.
    apply VariableFacts.replacer_mutate_shape. }
  split; [by vm_compute|]. split; [by vm_compute|].
  split; [by vm_compute|]. split; [by vm_compute|].
  intros Body node node' idx. unfold RemoveDecorator.mutate.
  destruct (RemoveDecorator.select _ _) as [err|cands]; [discriminate|].
  cbn [rbind].
  destruct (delitem cands idx) as [err|kept]; [discriminate|]. cbn [rbind].
  destruct (RemoveDecorator.select _ _) as [err|regs]; [discriminate|].
  cbn [rbind ok]. by intros [= <-].
Qed.

Lemma parso_operators_expose_the_interface_witness :
  (exists s,
     NoOp.mutation_positions sample.for_loop = ok [s]
     /\ span sample.for_loop = ok s)
  /\ (exists m d',
        VariableInserter.mutate sample.inserter_of_j sample.same_line
          get_rhs sample.always_plus sample.suite 0 0 = ok (m, d')
        /\ exists cs cs',
             sample.suite = BaseNode (PythonNode "suite") cs
             /\ m = BaseNode (PythonNode "suite") cs'
             /\ length cs' = length cs).
Proof.
  destruct parso_operators_expose_the_interface
    as (_ & Hnoop & _ & _ & _ & _ & _ & Hinserter & _).
  split.
  - destruct (Hnoop sample.for_loop [((1, 0), (1, 24))] eq_refl)
      as (s & Hs & Hspan).
    exists s. split; [by rewrite <- Hs|exact Hspan].
  - destruct (VariableInserter.mutate sample.inserter_of_j sample.same_line
                get_rhs sample.always_plus sample.suite 0 0)
      as [err|[m d']] eqn:Hrun.
    + vm_compute in Hrun. discriminate Hrun.
    + exists m, d'. split; [reflexivity|].
      exact (Hinserter _ _ _ _ _ _ _ _ _ Hrun).
Defined.

(** Claim C7 as the specification states it fails on [RemoveDecorator]:
    the class is one of the operators of the sources and does not expose
    the interface. *)
Lemma remove_decorator_lacks_the_interface :
  RemoveDecorator ∈ all_classes
  /\ exposes_interface RemoveDecorator = false.
Proof.
  split.
  - do 4 right. left.
  - by vm_compute.
Qed.

End CatalogFacts.
